(** * A shallow embedding of the RAG pipeline and its evaluation framework

    [scripts/rag_pipeline.py] and [scripts/evaluation_framework.py] are
    embedded as Rocq functions.  Python integers are [Z], Python lists are
    [list], strings are byte strings, the dictionaries with a fixed set of
    keys are records (an entry that may be missing is an [option]),
    exceptions are values of [exn], and the effects the scripts have
    (standard output, the NumPy random source, the wall clock) are threaded
    through an explicit [world]. *)

From Stdlib Require Import ZArith List String Ascii Bool Lia DecimalString.
From Stdlib Require Import QArith Qabs Lqa Sorted Permutation.
From Stdlib Require DecimalZ DecimalPos.
Import ListNotations.

Local Open Scope string_scope.
Local Open Scope Z_scope.
Local Open Scope list_scope.

(** ** Python values and built-ins *)

Module Py.

(** The exception classes the two scripts can raise. *)
Inductive exn : Type :=
| KeyError (key : string)
| ValueError (msg : string)
| IndexError (msg : string)
| ZeroDivisionError (msg : string).

Definition exn_class (e : exn) : string :=
  match e with
  | KeyError _ => "KeyError"
  | ValueError _ => "ValueError"
  | IndexError _ => "IndexError"
  | ZeroDivisionError _ => "ZeroDivisionError"
  end.

Inductive result (A : Type) : Type :=
| Ok (a : A)
| Raise (e : exn).
Arguments Ok {A} a.
Arguments Raise {A} e.

Definition raises_class {A} (r : result A) (cls : string) : Prop :=
  exists e, r = Raise e /\ exn_class e = cls.

Definition len {A} (l : list A) : Z := Z.of_nat (List.length l).

(** [str(n)] for an integer, as an f-string interpolates it. *)
Definition str_of_Z (n : Z) : string := NilZero.string_of_int (Z.to_int n).

(** [len(range(start, stop, step))] for a non-zero step. *)
Definition range_len (start stop step : Z) : Z :=
  if 0 <? step
  then (if start <? stop then (stop - start - 1) / step + 1 else 0)
  else (if stop <? start then (start - stop - 1) / (- step) + 1 else 0).

(** [range(start, stop, step)], materialised; a zero step is a ValueError. *)
Definition py_range (start stop step : Z) : result (list Z) :=
  if step =? 0
  then Raise (ValueError "range() arg 3 must not be zero")
  else Ok (map (fun k => start + Z.of_nat k * step)
               (seq 0 (Z.to_nat (range_len start stop step)))).

(** A slice bound: negative bounds count from the end, all are clipped. *)
Definition clip_index (n i : Z) : Z :=
  if i <? 0 then Z.max 0 (i + n) else Z.min i n.

(** [l[i:j]] *)
Definition py_slice {A} (l : list A) (i j : Z) : list A :=
  let lo := clip_index (len l) i in
  let hi := clip_index (len l) j in
  firstn (Z.to_nat (hi - lo)) (skipn (Z.to_nat lo) l).

(** [l[:j]] *)
Definition py_slice_to {A} (l : list A) (j : Z) : list A :=
  firstn (Z.to_nat (clip_index (len l) j)) l.

(** [l[i]] for a non-negative or negative index. *)
Definition py_index {A} (l : list A) (i : Z) : result A :=
  let k := if i <? 0 then i + len l else i in
  if k <? 0 then Raise (IndexError "list index out of range")
  else match nth_error l (Z.to_nat k) with
       | Some a => Ok a
       | None => Raise (IndexError "list index out of range")
       end.

(** Whitespace as [str.split()] and [str.strip()] see it on one-byte
    characters: space, tab, newline, vertical tab, form feed, carriage
    return and the four separators 28..31. *)
Definition is_space (c : ascii) : bool :=
  let n := nat_of_ascii c in
  ((n =? 32) || ((9 <=? n) && (n <=? 13)) || ((28 <=? n) && (n <=? 31)))%nat.

Definition flush (cur : string) (rest : list string) : list string :=
  match cur with
  | EmptyString => rest
  | _ => cur :: rest
  end.

Fixpoint split_from (cur : string) (s : string) : list string :=
  match s with
  | EmptyString => flush cur []
  | String c s' =>
      if is_space c then flush cur (split_from EmptyString s')
      else split_from (cur ++ String c EmptyString) s'
  end.

(** [s.split()] *)
Definition split (s : string) : list string := split_from EmptyString s.

(** [sep.join(l)] *)
Fixpoint join (sep : string) (l : list string) : string :=
  match l with
  | [] => EmptyString
  | [w] => w
  | w :: rest => w ++ sep ++ join sep rest
  end.

Fixpoint lstrip (s : string) : string :=
  match s with
  | EmptyString => EmptyString
  | String c s' => if is_space c then lstrip s' else s
  end.

Fixpoint rev_string (acc s : string) : string :=
  match s with
  | EmptyString => acc
  | String c s' => rev_string (String c acc) s'
  end.

(** [s.strip()] *)
Definition strip (s : string) : string :=
  rev_string EmptyString (lstrip (rev_string EmptyString (lstrip s))).

(** *** Effects

    What the scripts touch outside their own objects: the lines printed so
    far, how many numbers were drawn from NumPy's global random source and
    how often the clock was read.  An exception leaves the effects done
    before it in place. *)
Record world : Type := {
  stdout : list string;
  rng_pos : nat;
  clock_reads : nat
}.

Definition M (A : Type) : Type := world -> result A * world.

Definition ret {A} (a : A) : M A := fun w => (Ok a, w).

Definition bind {A B} (m : M A) (k : A -> M B) : M B :=
  fun w => match m w with
           | (Ok a, w') => k a w'
           | (Raise e, w') => (Raise e, w')
           end.

Definition raise {A} (e : exn) : M A := fun w => (Raise e, w).

Definition lift {A} (r : result A) : M A := fun w => (r, w).

Definition print (line : string) : M unit :=
  fun w => (Ok tt, {| stdout := stdout w ++ [line];
                      rng_pos := rng_pos w;
                      clock_reads := clock_reads w |}).

(** What the process reads from outside: the sequence of numbers NumPy's
    global generator yields and the successive values of [time.time()]. *)
Record ambient (F : Type) : Type := {
  random_sample : nat -> F;
  time_time : nat -> F
}.
Arguments random_sample {F} a n.
Arguments time_time {F} a n.

Definition world0 : world := {| stdout := []; rng_pos := 0; clock_reads := 0 |}.

End Py.

Import Py.

Notation "x <- m ;; k" := (bind m (fun x => k))
  (at level 61, m at next level, right associativity).
Notation "m ;;; k" := (bind m (fun _ => k))
  (at level 61, right associativity).

(** ** rag_pipeline.py *)

Module Rag.

(** A document of [self.documents]: the four keys [load_documents] gives it
    and the three that [preprocess_documents] adds. *)
Record document : Type := {
  doc_id : string;
  doc_content : string;
  doc_source : string;
  doc_type : string;
  processed_content : option string;
  doc_word_count : option Z;
  char_count : option Z
}.

Record chunk : Type := {
  chunk_id : string;
  parent_doc_id : string;
  content : string;
  source : string;
  start_idx : Z;
  end_idx : Z;
  word_count : Z
}.

Definition raw_document (i c s t : string) : document :=
  {| doc_id := i; doc_content := c; doc_source := s; doc_type := t;
     processed_content := None; doc_word_count := None; char_count := None |}.

Definition sample_docs : list document :=
  [ raw_document "doc_1"
      "RAG (Retrieval Augmented Generation) combines retrieval systems with generative models to provide contextually accurate responses."
      "rag-guide.pdf" "pdf";
    raw_document "doc_2"
      "Vector databases store high-dimensional embeddings that capture semantic meaning of text for efficient similarity search."
      "vector-db-tutorial.md" "markdown";
    raw_document "doc_3"
      "Prompt engineering involves crafting effective prompts to elicit desired responses from language models."
      "prompt-engineering.txt" "text";
    raw_document "doc_4"
      "Llama 3 is a state-of-the-art open-source language model that excels at various NLP tasks including text generation and reasoning."
      "llama3-overview.html" "html" ].

(** The body of the loop of [preprocess_documents]. *)
Definition preprocess_document (doc : document) : document :=
  let original_content := doc_content doc in
  let cleaned_content := strip original_content in
  let cleaned_content := join " " (split cleaned_content) in
  {| doc_id := doc_id doc; doc_content := doc_content doc;
     doc_source := doc_source doc; doc_type := doc_type doc;
     processed_content := Some cleaned_content;
     doc_word_count := Some (len (split cleaned_content));
     char_count := Some (Z.of_nat (String.length cleaned_content)) |}.

(** The chunk built by one turn of the inner loop of [chunk_documents]. *)
Definition make_chunk (doc : document) (words : list string)
    (chunk_size : Z) (counter : Z) (i : Z) : chunk :=
  let chunk_words := py_slice words i (i + chunk_size) in
  let chunk_content := join " " chunk_words in
  {| chunk_id := "chunk_" ++ str_of_Z counter;
     parent_doc_id := doc_id doc;
     content := chunk_content;
     source := doc_source doc;
     start_idx := i;
     end_idx := Z.min (i + chunk_size) (len words);
     word_count := len chunk_words |}.

(** The inner loop: [chunks] and [chunk_id] are the two variables it
    updates. *)
Fixpoint chunk_words_loop (doc : document) (words : list string)
    (chunk_size : Z) (starts : list Z) (chunks : list chunk) (counter : Z)
    : list chunk * Z :=
  match starts with
  | [] => (chunks, counter)
  | i :: rest =>
      chunk_words_loop doc words chunk_size rest
        (chunks ++ [make_chunk doc words chunk_size counter i]) (counter + 1)
  end.

(** The outer loop over [self.documents]. *)
Fixpoint chunk_docs_loop (docs : list document) (chunk_size overlap : Z)
    (chunks : list chunk) (counter : Z) : result (list chunk) :=
  match docs with
  | [] => Ok chunks
  | doc :: rest =>
      match processed_content doc with
      | None => Raise (KeyError "processed_content")
      | Some content =>
          let words := split content in
          match py_range 0 (len words) (chunk_size - overlap) with
          | Raise e => Raise e
          | Ok starts =>
              let '(chunks', counter') :=
                chunk_words_loop doc words chunk_size starts chunks counter in
              chunk_docs_loop rest chunk_size overlap chunks' counter'
          end
      end
  end.

(** The words of a preprocessed document. *)
Definition doc_words (doc : document) : list string :=
  match processed_content doc with
  | Some content => split content
  | None => []
  end.

Definition preprocessed (doc : document) : Prop :=
  processed_content doc <> None.

(** The chunks one document contributes, given the window starts and the
    value of the counter when its turn comes. *)
Fixpoint chunks_from (doc : document) (words : list string) (chunk_size : Z)
    (counter : Z) (starts : list Z) : list chunk :=
  match starts with
  | [] => []
  | i :: rest =>
      make_chunk doc words chunk_size counter i
        :: chunks_from doc words chunk_size (counter + 1) rest
  end.

(** The elements of [range(0, n, step)] for a positive step. *)
Definition window_starts (n step : Z) : list Z :=
  map (fun k => 0 + Z.of_nat k * step) (seq 0 (Z.to_nat (range_len 0 n step))).

Fixpoint blocks_of (docs : list document) (chunk_size overlap : Z)
    (counter : Z) : list (list chunk) :=
  match docs with
  | [] => []
  | doc :: rest =>
      let block :=
        chunks_from doc (doc_words doc) chunk_size counter
          (window_starts (len (doc_words doc)) (chunk_size - overlap)) in
      block :: blocks_of rest chunk_size overlap (counter + len block)
  end.

(** The word positions [0 .. n-1] each lie in the range of some chunk. *)
Definition covers (n : Z) (block : list chunk) : Prop :=
  forall p, 0 <= p < n ->
    Exists (fun c => start_idx c <= p < end_idx c) block.

(** Each chunk starts no later than the one before it ends. *)
Fixpoint contiguous (block : list chunk) : Prop :=
  match block with
  | c :: ((c' :: _) as rest) => start_idx c' <= end_idx c /\ contiguous rest
  | _ => True
  end.

(** Every chunk but the last of a block has [chunk_size] words. *)
Definition all_but_last_full (chunk_size : Z) (block : list chunk) : Prop :=
  forall pre c post, block = pre ++ c :: post -> post <> [] ->
    word_count c = chunk_size.

(** What the chunks of one document look like: every chunk is a window
    inside the document, as long as the document allows; together the
    windows leave no word out. *)
Definition window_block (chunk_size overlap : Z) (doc : document)
    (block : list chunk) : Prop :=
  let n := len (doc_words doc) in
  Forall (fun c =>
            parent_doc_id c = doc_id doc /\
            0 <= start_idx c < end_idx c /\ end_idx c <= n /\
            word_count c = end_idx c - start_idx c /\
            (start_idx c + chunk_size <= n -> word_count c = chunk_size))
         block /\
  covers n block /\
  contiguous block /\
  (overlap = 0 -> all_but_last_full chunk_size block).

(** A document shorter than the window: its first chunk is the whole
    document, and the number of chunks follows from the step. *)
Definition short_document_block (chunk_size overlap : Z) (doc : document)
    (block : list chunk) : Prop :=
  let n := len (doc_words doc) in
  0 < n < chunk_size ->
  exists first rest,
    block = first :: rest /\
    start_idx first = 0 /\ end_idx first = n /\ word_count first = n /\
    len block = (n - 1) / (chunk_size - overlap) + 1 /\
    (rest = [] <-> n <= chunk_size - overlap).

(** A pipeline whose documents are the given texts, preprocessed. *)
Definition text_document (text : string) : document :=
  preprocess_document (raw_document "doc_1" text "notes.txt" "text").

(** *** Floating-point numbers

    The pipeline only moves floats around: it draws them, divides by a
    norm, takes dot products and compares the results.  These operations
    are an interface; nothing below depends on how they round. *)
Class FloatOps (F : Type) : Type := {
  divide : F -> F -> F;
  linalg_norm : list F -> F;
  dot : list F -> list F -> F;
  float_lt : F -> F -> bool
}.

(** The comparison is a strict weak order: what [<] is on floats that are
    not NaN. *)
Class FloatOrder (F : Type) `{FloatOps F} : Prop := {
  float_lt_irrefl : forall a, float_lt a a = false;
  float_lt_trans : forall a b c,
    float_lt a b = true -> float_lt b c = true -> float_lt a c = true;
  float_lt_negtrans : forall a b c,
    float_lt a b = false -> float_lt b c = false -> float_lt a c = false
}.

(** [a == b] on such floats. *)
Definition tie {F} `{FloatOps F} (a b : F) : Prop :=
  float_lt a b = false /\ float_lt b a = false.

(** An array as [np.array] builds it from a list of rows. *)
Inductive ndarray (F : Type) : Type :=
| Array1 (items : list F)
| Array2 (ncols : nat) (rows : list (list F)).
Arguments Array1 {F} items.
Arguments Array2 {F} ncols rows.

Record index_metadata (F : Type) : Type := {
  total_chunks : Z;
  embedding_dim : Z;
  model_name : string;
  created_at : F
}.
Arguments total_chunks {F} i.
Arguments embedding_dim {F} i.
Arguments model_name {F} i.
Arguments created_at {F} i.

(** The dictionary [build_vector_database] stores: its array has two axes,
    or the build raised. *)
Record vector_database (F : Type) : Type := {
  db_chunks : list chunk;
  db_ncols : nat;
  db_embeddings : list (list F);
  db_index_metadata : index_metadata F
}.
Arguments db_chunks {F} v.
Arguments db_ncols {F} v.
Arguments db_embeddings {F} v.
Arguments db_index_metadata {F} v.

(** [self]: [vector_db] is [None] while it is the empty dictionary. *)
Record pipeline (F : Type) : Type := {
  documents : list document;
  embeddings : list (list F);
  vector_db : option (vector_database F);
  embedding_model : string
}.
Arguments documents {F} p.
Arguments embeddings {F} p.
Arguments vector_db {F} p.
Arguments embedding_model {F} p.

(** One retrieved chunk: the chunk's own keys, then the two added ones. *)
Record search_result (F : Type) : Type := {
  hit : chunk;
  similarity_score : F;
  rank : Z
}.
Arguments hit {F} s.
Arguments similarity_score {F} s.
Arguments rank {F} s.

(** [l.sort(key=key)]: stable, by [<] on the keys alone. *)
Fixpoint insert_sorted {A K} (lt : K -> K -> bool) (key : A -> K)
    (x : A) (l : list A) : list A :=
  match l with
  | [] => [x]
  | y :: l' =>
      if lt (key y) (key x) then y :: insert_sorted lt key x l'
      else x :: l
  end.

Definition sort_ascending {A K} (lt : K -> K -> bool) (key : A -> K)
    (l : list A) : list A :=
  fold_right (insert_sorted lt key) [] l.

(** [l.sort(key=key, reverse=reverse)]: a reversed sort reverses the list,
    sorts it upwards and reverses the outcome, which is how it keeps the
    first of two equal elements first. *)
Definition list_sort {A K} (lt : K -> K -> bool) (key : A -> K)
    (reverse : bool) (l : list A) : list A :=
  if reverse then rev (sort_ascending lt key (rev l))
  else sort_ascending lt key l.

Section Pipeline.

Context {F : Type} {ops : FloatOps F}.
Variable amb : ambient F.

Definition new_pipeline : pipeline F :=
  {| documents := []; embeddings := []; vector_db := None;
     embedding_model := "sentence-transformers/all-MiniLM-L6-v2" |}.

Definition set_documents (self : pipeline F) (docs : list document)
    : pipeline F :=
  {| documents := docs; embeddings := embeddings self;
     vector_db := vector_db self; embedding_model := embedding_model self |}.

Definition set_vector_db (self : pipeline F) (db : vector_database F)
    : pipeline F :=
  {| documents := documents self; embeddings := embeddings self;
     vector_db := Some db; embedding_model := embedding_model self |}.

Definition load_documents (self : pipeline F) (file_paths : list string)
    : M (pipeline F) :=
  print "🔄 Step 1: Loading documents from data sources..." ;;;
  let self := set_documents self sample_docs in
  print ("✅ Loaded " ++ str_of_Z (len (documents self)) ++ " documents") ;;;
  ret self.

Definition preprocess_documents (self : pipeline F) : M (pipeline F) :=
  print "🔄 Step 2: Preprocessing documents..." ;;;
  let self := set_documents self (map preprocess_document (documents self)) in
  print "✅ Document preprocessing completed" ;;;
  ret self.

Definition chunk_documents (self : pipeline F) (chunk_size overlap : Z)
    : M (list chunk) :=
  print "🔄 Step 3: Chunking documents..." ;;;
  chunks <- lift (chunk_docs_loop (documents self) chunk_size overlap [] 0) ;;
  print ("✅ Created " ++ str_of_Z (len chunks) ++ " chunks from "
         ++ str_of_Z (len (documents self)) ++ " documents") ;;;
  ret chunks.

(** [np.random.rand(n)]: the next [n] numbers of the generator. *)
Definition np_random_rand (n : nat) : M (list F) :=
  fun w => (Ok (map (random_sample amb) (seq (rng_pos w) n)),
            {| stdout := stdout w; rng_pos := (rng_pos w + n)%nat;
               clock_reads := clock_reads w |}).

(** [time.time()] *)
Definition time_now : M F :=
  fun w => (Ok (time_time amb (clock_reads w)),
            {| stdout := stdout w; rng_pos := rng_pos w;
               clock_reads := S (clock_reads w) |}).

(** [v / np.linalg.norm(v)] *)
Definition normalize (v : list F) : list F :=
  map (fun x => divide x (linalg_norm v)) v.

(** [np.array(rows)] for a list of one-axis arrays. *)
Definition np_array (rows : list (list F)) : result (ndarray F) :=
  match rows with
  | [] => Ok (Array1 [])
  | r :: rest =>
      if forallb (fun r' => (List.length r' =? List.length r)%nat) rest
      then Ok (Array2 (List.length r) rows)
      else Raise (ValueError "setting an array element with a sequence")
  end.

(** [str(a.shape)] *)
Definition shape_str (a : ndarray F) : string :=
  match a with
  | Array1 items => "(" ++ str_of_Z (len items) ++ ",)"
  | Array2 ncols rows =>
      "(" ++ str_of_Z (len rows) ++ ", " ++ str_of_Z (Z.of_nat ncols) ++ ")"
  end.

Fixpoint embed_loop (chunks : list chunk) (embeddings : list (list F))
    : M (list (list F)) :=
  match chunks with
  | [] => ret embeddings
  | _ :: rest =>
      embedding <- np_random_rand 384 ;;
      let embedding := normalize embedding in
      embed_loop rest (embeddings ++ [embedding])
  end.

Definition generate_embeddings (self : pipeline F) (chunks : list chunk)
    : M (ndarray F) :=
  print "🔄 Step 4: Generating embeddings..." ;;;
  embeddings <- embed_loop chunks [] ;;
  embeddings_array <- lift (np_array embeddings) ;;
  print ("✅ Generated embeddings with shape: " ++ shape_str embeddings_array) ;;;
  ret embeddings_array.

Definition build_vector_database (self : pipeline F) (chunks : list chunk)
    (embeddings : ndarray F) : M (pipeline F) :=
  print "🔄 Step 4: Building vector database..." ;;;
  match embeddings with
  | Array1 _ => raise (IndexError "tuple index out of range")
  | Array2 ncols rows =>
      now <- time_now ;;
      let self := set_vector_db self
        {| db_chunks := chunks;
           db_ncols := ncols;
           db_embeddings := rows;
           db_index_metadata :=
             {| total_chunks := len chunks;
                embedding_dim := Z.of_nat ncols;
                model_name := embedding_model self;
                created_at := now |} |} in
      print ("✅ Vector database built with " ++ str_of_Z (len chunks)
             ++ " entries") ;;;
      ret self
  end.

(** [np.dot] of two one-axis arrays. *)
Definition np_dot (a b : list F) : result F :=
  if (List.length a =? List.length b)%nat then Ok (dot a b)
  else Raise (ValueError "shapes not aligned").

Fixpoint similarities_loop (query_embedding : list F)
    (rows : list (list F)) (i : Z) (similarities : list (Z * F))
    : result (list (Z * F)) :=
  match rows with
  | [] => Ok similarities
  | chunk_embedding :: rest =>
      match np_dot query_embedding chunk_embedding with
      | Raise e => Raise e
      | Ok similarity =>
          similarities_loop query_embedding rest (i + 1)
            (similarities ++ [(i, similarity)])
      end
  end.

Fixpoint results_loop (chunks : list chunk) (top_chunks : list (Z * F))
    (results : list (search_result F)) : result (list (search_result F)) :=
  match top_chunks with
  | [] => Ok results
  | (chunk_idx, similarity_score) :: rest =>
      match py_index chunks chunk_idx with
      | Raise e => Raise e
      | Ok chunk =>
          results_loop chunks rest
            (results ++ [ {| hit := chunk;
                             similarity_score := similarity_score;
                             rank := len results + 1 |} ])
      end
  end.

(** Lines 149 to 157: score every row, sort, keep the first [top_k]. *)
Definition top_candidates (query_embedding : list F) (rows : list (list F))
    (top_k : Z) : result (list (Z * F)) :=
  match similarities_loop query_embedding rows 0 [] with
  | Raise e => Raise e
  | Ok similarities =>
      let similarities := list_sort float_lt snd true similarities in
      Ok (py_slice_to similarities top_k)
  end.

Definition similarity_search (self : pipeline F) (query : string)
    (top_k : Z) : M (list (search_result F)) :=
  print ("🔄 Step 5: Processing query: '" ++ query ++ "'") ;;;
  query_embedding <- np_random_rand 384 ;;
  let query_embedding := normalize query_embedding in
  match vector_db self with
  | None => raise (KeyError "embeddings")
  | Some db =>
      top_chunks <- lift (top_candidates query_embedding (db_embeddings db) top_k) ;;
      results <- lift (results_loop (db_chunks db) top_chunks []) ;;
      print ("✅ Retrieved " ++ str_of_Z (len results) ++ " relevant chunks") ;;;
      ret results
  end.

End Pipeline.

(** *** Notions used to state what the pipeline does *)

(** The query embedding [similarity_search] draws in world [w]. *)
Definition query_embedding_in {F} `{FloatOps F} (amb : ambient F) (w : world)
    : list F :=
  normalize (map (random_sample amb) (seq (rng_pos w) 384)).

(** Candidate [a] goes before candidate [b]: its score is higher, or the
    scores are equal and its position in the store is lower. *)
Definition ranked_before {F} `{FloatOps F} (a b : Z * F) : Prop :=
  float_lt (snd b) (snd a) = true \/
  (tie (snd a) (snd b) /\ fst a < fst b).

(** The order of the upward sort of the reversed list. *)
Definition sorted_before {F} `{FloatOps F} (a b : Z * F) : Prop :=
  ranked_before b a.

(** Candidate [c] stands for row [fst c] of the store and carries the dot
    product of the query with that row. *)
Definition scores_row {F} `{FloatOps F} (query_embedding : list F)
    (rows : list (list F)) (c : Z * F) : Prop :=
  0 <= fst c /\
  exists row, nth_error rows (Z.to_nat (fst c)) = Some row /\
              snd c = dot query_embedding row.

(** Result [r] is candidate [c] with its chunk looked up. *)
Definition resolves {F} (chunks : list chunk) (r : search_result F)
    (c : Z * F) : Prop :=
  similarity_score r = snd c /\ py_index chunks (fst c) = Ok (hit r).

(** No result is followed by one with a higher score. *)
Definition descending {F} `{FloatOps F} (results : list (search_result F))
    : Prop :=
  StronglySorted
    (fun a b => float_lt (similarity_score a) (similarity_score b) = false)
    results.

(** Ranks 1, 2, 3, ... *)
Definition dense_ranks {F} (results : list (search_result F)) : Prop :=
  map rank results
  = map (fun k => Z.of_nat k + 1) (seq 0 (List.length results)).

(** The list the scoring loop builds from position [i] on. *)
Fixpoint scored {F} `{FloatOps F} (query_embedding : list F)
    (rows : list (list F)) (i : Z) : list (Z * F) :=
  match rows with
  | [] => []
  | row :: rest => (i, dot query_embedding row) :: scored query_embedding rest (i + 1)
  end.

(** Exact rational numbers as an instance for running the pipeline on
    examples.  The 1-norm stands for the Euclidean norm, with which it
    agrees on the unit vectors the examples use. *)
Definition Qabs_sum (v : list Q) : Q :=
  fold_right (fun x acc => Qplus (Qabs x) acc) (0 # 1)%Q v.

Fixpoint Qdot (a b : list Q) : Q :=
  match a, b with
  | x :: a', y :: b' => Qplus (Qmult x y) (Qdot a' b')
  | _, _ => (0 # 1)%Q
  end.

Definition Qltb (a b : Q) : bool := negb (Qle_bool b a).

#[export] Instance exact_ops : FloatOps Q := {
  divide := Qdiv;
  linalg_norm := Qabs_sum;
  dot := Qdot;
  float_lt := Qltb
}.

(** A vector of 384 numbers: the given ones, then zeros. *)
Definition padded (coordinates : list Q) : list Q :=
  coordinates ++ repeat (0 # 1)%Q (384 - List.length coordinates).

(** A world outside in which every draw of 384 numbers is the unit vector
    along axis 0, and the clock stands still. *)
Definition steady : ambient Q := {|
  random_sample := fun n => if Nat.eqb (Nat.modulo n 384) 0
                            then (1 # 1)%Q else (0 # 1)%Q;
  time_time := fun _ => (0 # 1)%Q
|}.

(** A pipeline holding one preprocessed document with the given text. *)
Definition pipeline_with (text : string) : pipeline Q :=
  set_documents new_pipeline [text_document text].

(** The chunks of a text, one word each. *)
Definition word_chunks (text : string) : list chunk :=
  match fst (chunk_documents (pipeline_with text) 1 0 world0) with
  | Ok chunks => chunks
  | Raise _ => []
  end.

(** The pipeline after [build_vector_database] on the given array. *)
Definition built_with (chunks : list chunk) (embeddings : ndarray Q)
    : pipeline Q :=
  match fst (build_vector_database steady new_pipeline chunks embeddings world0) with
  | Ok self => self
  | Raise _ => new_pipeline
  end.

(** Three chunks with the rows (1, 0, ...), (0, 1, ...), (0.7, 0.7, ...). *)
Definition three_rows : pipeline Q :=
  built_with (word_chunks "a b c")
    (Array2 384 [padded [1 # 1]; padded [0 # 1; 1 # 1];
                 padded [7 # 10; 7 # 10]])%Q.

(** Three chunks, the last two with the same row. *)
Definition tied_rows : pipeline Q :=
  built_with (word_chunks "a b c")
    (Array2 384 [padded [0 # 1; 1 # 1]; padded [1 # 1]; padded [1 # 1]])%Q.

(** Three chunks with rows of two numbers. *)
Definition narrow_rows : pipeline Q :=
  built_with (word_chunks "a b c")
    (Array2 2 [[1 # 1; 0 # 1]; [0 # 1; 1 # 1]; [7 # 10; 7 # 10]])%Q.

(** The score of row [i] of [three_rows] for the query (1, 0, ...). *)
Definition query_score (i : nat) : Q :=
  match vector_db three_rows with
  | Some db => dot (query_embedding_in steady world0)
                   (nth i (db_embeddings db) [])
  | None => (0 # 1)%Q
  end.

(** *** The chunker *)

Lemma chunk_words_loop_spec doc words cs starts : forall chunks c,
  chunk_words_loop doc words cs starts chunks c =
  (chunks ++ chunks_from doc words cs c starts, c + len starts).
Proof.
  induction starts as [|i rest IH]; intros chunks c; simpl.
  - rewrite app_nil_r. f_equal. unfold len. simpl. lia.
  - rewrite IH, <- app_assoc. simpl. f_equal.
    unfold len. simpl List.length. lia.
Qed.

Lemma chunks_from_length doc words cs starts : forall c,
  len (chunks_from doc words cs c starts) = len starts.
Proof.
  unfold len. induction starts as [|i rest IH]; intros c; simpl; auto.
  specialize (IH (c + 1)). lia.
Qed.

Lemma py_range_positive n step :
  0 < step -> py_range 0 n step = Ok (window_starts n step).
Proof.
  intros Hs. unfold py_range.
  destruct (Z.eqb_spec step 0); [lia | reflexivity].
Qed.

Lemma py_range_negative n step :
  step < 0 -> 0 <= n -> py_range 0 n step = Ok [].
Proof.
  intros Hs Hn. unfold py_range, range_len.
  destruct (Z.eqb_spec step 0); [lia |].
  destruct (Z.ltb_spec 0 step); [lia |].
  destruct (Z.ltb_spec n 0); [lia | reflexivity].
Qed.

Lemma chunk_docs_loop_spec docs cs ov :
  0 < cs - ov -> Forall preprocessed docs ->
  forall chunks c,
    chunk_docs_loop docs cs ov chunks c =
    Ok (chunks ++ List.concat (blocks_of docs cs ov c)).
Proof.
  intros Hstep Hpre. induction Hpre as [|doc rest Hd _ IH]; intros chunks c.
  - simpl. now rewrite app_nil_r.
  - simpl. unfold doc_words. unfold preprocessed in Hd.
    destruct (processed_content doc) as [content|]; [|congruence].
    rewrite py_range_positive by assumption.
    rewrite chunk_words_loop_spec, IH, <- app_assoc.
    now rewrite chunks_from_length.
Qed.

Lemma chunk_docs_loop_backwards docs cs ov :
  cs - ov < 0 -> Forall preprocessed docs ->
  forall chunks c, chunk_docs_loop docs cs ov chunks c = Ok chunks.
Proof.
  intros Hstep Hpre. induction Hpre as [|doc rest Hd _ IH]; intros chunks c.
  - reflexivity.
  - simpl. unfold preprocessed in Hd.
    destruct (processed_content doc) as [content|]; [|congruence].
    rewrite py_range_negative; [| assumption | unfold len; lia].
    simpl. apply IH.
Qed.

(** What [chunk_documents] returns is what its loops compute; the two
    lines it prints change nothing else. *)
Lemma chunk_documents_result {F} (self : pipeline F) cs ov w :
  fst (chunk_documents self cs ov w) =
  chunk_docs_loop (documents self) cs ov [] 0.
Proof.
  unfold chunk_documents, bind, lift, print, ret. simpl.
  destruct (chunk_docs_loop (documents self) cs ov [] 0); reflexivity.
Qed.

Lemma range_len_positive n step :
  0 < step -> 0 < n -> range_len 0 n step = (n - 1) / step + 1.
Proof.
  intros Hs Hn. unfold range_len.
  destruct (Z.ltb_spec 0 step); [|lia].
  destruct (Z.ltb_spec 0 n); [|lia].
  now rewrite Z.sub_0_r.
Qed.

Lemma range_len_empty n step : 0 < step -> n <= 0 -> range_len 0 n step = 0.
Proof.
  intros Hs Hn. unfold range_len.
  destruct (Z.ltb_spec 0 step); [|lia].
  destruct (Z.ltb_spec 0 n); [lia | reflexivity].
Qed.

(** The k-th start is [k * step], and it lies inside the document. *)
Lemma window_start_bound n step k :
  0 < step -> (k < Z.to_nat (range_len 0 n step))%nat ->
  0 <= Z.of_nat k * step < n.
Proof.
  intros Hs Hk.
  destruct (Z_lt_le_dec 0 n) as [Hn|Hn].
  - rewrite range_len_positive in Hk by assumption.
    assert (Hq : 0 <= (n - 1) / step) by (apply Z.div_pos; lia).
    assert (Hle : Z.of_nat k <= (n - 1) / step) by lia.
    assert (Hm : step * ((n - 1) / step) <= n - 1)
      by (apply Z.mul_div_le; lia).
    nia.
  - rewrite range_len_empty in Hk by assumption. simpl in Hk. lia.
Qed.

Lemma window_starts_in n step i :
  0 < step -> In i (window_starts n step) ->
  0 <= i < n.
Proof.
  intros Hs Hin. unfold window_starts in Hin.
  apply in_map_iff in Hin. destruct Hin as [k [<- Hk]].
  apply in_seq in Hk. rewrite Z.add_0_l.
  apply window_start_bound; [assumption | lia].
Qed.

Lemma window_starts_complete n step p :
  0 < step -> 0 <= p < n ->
  In (p / step * step) (window_starts n step).
Proof.
  intros Hs Hp. unfold window_starts. apply in_map_iff.
  exists (Z.to_nat (p / step)).
  assert (Hq : 0 <= p / step) by (apply Z.div_pos; lia).
  split.
  - rewrite Z2Nat.id by assumption. lia.
  - apply in_seq. rewrite range_len_positive by lia.
    assert (Hmono : p / step <= (n - 1) / step)
      by (apply Z.div_le_mono; lia).
    lia.
Qed.

Lemma py_slice_window {A} (l : list A) i cs :
  0 <= i <= len l -> 0 <= cs ->
  len (py_slice l i (i + cs)) = Z.min (i + cs) (len l) - i.
Proof.
  intros Hi Hcs. unfold py_slice, clip_index.
  destruct (Z.ltb_spec i 0); [lia|].
  destruct (Z.ltb_spec (i + cs) 0); [lia|].
  unfold len in *. rewrite length_firstn, length_skipn. lia.
Qed.

Lemma chunks_from_starts doc words cs starts : forall c,
  map start_idx (chunks_from doc words cs c starts) = starts.
Proof.
  induction starts as [|i rest IH]; intros c; simpl; [reflexivity|].
  now rewrite IH.
Qed.

Lemma chunks_from_in doc words cs starts ch : forall c,
  In ch (chunks_from doc words cs c starts) ->
  exists k, In (start_idx ch) starts /\
            ch = make_chunk doc words cs k (start_idx ch).
Proof.
  induction starts as [|i rest IH]; intros c Hin; simpl in Hin; [tauto|].
  destruct Hin as [<- | Hin].
  - exists c. simpl. auto.
  - destruct (IH _ Hin) as [k [Hk Heq]]. exists k. simpl. auto.
Qed.

(** The shape of every chunk of a document. *)
Lemma chunk_shape doc cs ov ch c :
  0 <= ov < cs ->
  let words := doc_words doc in
  In ch (chunks_from doc words cs c (window_starts (len words) (cs - ov))) ->
  parent_doc_id ch = doc_id doc /\
  0 <= start_idx ch < end_idx ch /\ end_idx ch <= len words /\
  word_count ch = end_idx ch - start_idx ch /\
  (start_idx ch + cs <= len words -> word_count ch = cs).
Proof.
  intros Hp words Hin.
  destruct (chunks_from_in _ _ _ _ _ _ Hin) as [k [Hs Heq]].
  apply window_starts_in in Hs; [|lia].
  set (i := start_idx ch) in *.
  assert (Hw : word_count ch = Z.min (i + cs) (len words) - i).
  { rewrite Heq. simpl. apply py_slice_window; lia. }
  assert (He : end_idx ch = Z.min (i + cs) (len words)).
  { rewrite Heq. reflexivity. }
  rewrite Heq at 1. simpl. rewrite Hw, He. repeat split; lia.
Qed.

Lemma chunks_cover doc cs ov c :
  0 <= ov < cs ->
  let words := doc_words doc in
  covers (len words)
    (chunks_from doc words cs c (window_starts (len words) (cs - ov))).
Proof.
  intros Hp words p Hrange.
  set (step := cs - ov). assert (Hs : 0 < step) by (unfold step; lia).
  pose proof (window_starts_complete (len words) step p Hs Hrange) as Hin.
  rewrite <- (chunks_from_starts doc words cs _ c) in Hin.
  apply in_map_iff in Hin. destruct Hin as [ch [Hstart Hch]].
  apply Exists_exists. exists ch. split; [assumption|].
  destruct (chunks_from_in _ _ _ _ _ _ Hch) as [k [_ Heq]].
  assert (He : end_idx ch = Z.min (start_idx ch + cs) (len words))
    by (rewrite Heq; reflexivity).
  rewrite He, Hstart.
  pose proof (Z.mul_div_le p step Hs).
  pose proof (Z.mul_succ_div_gt p step Hs).
  unfold step in *. lia.
Qed.

Lemma chunks_contiguous doc words cs step m : forall a c,
  0 < step <= cs ->
  (a + m <= Z.to_nat (range_len 0 (len words) step))%nat ->
  contiguous
    (chunks_from doc words cs c
       (map (fun k => 0 + Z.of_nat k * step) (seq a m))).
Proof.
  induction m as [|m IH]; intros a c Hs Hm; [exact I|].
  destruct m as [|m]; [exact I|].
  cbn [seq map chunks_from contiguous make_chunk start_idx end_idx].
  split.
  - pose proof (window_start_bound (len words) step (S a) (proj1 Hs)).
    assert (Z.of_nat (S a) = Z.of_nat a + 1) by lia. nia.
  - apply (IH (S a) (c + 1)); [assumption | lia].
Qed.

Lemma nth_map_seq {A} (f : nat -> A) m j d :
  (j < m)%nat -> nth j (map f (seq 0 m)) d = f j.
Proof.
  intros Hj.
  rewrite (nth_indep _ d (f 0%nat)) by (rewrite length_map, length_seq; lia).
  rewrite map_nth, seq_nth by lia. reflexivity.
Qed.

(** A chunk that is not the last of its document leaves room for another
    window start after its own. *)
Lemma next_start_inside doc words cs step c pre ch post :
  0 < step ->
  chunks_from doc words cs c (window_starts (len words) step)
    = pre ++ ch :: post ->
  post <> [] ->
  start_idx ch + step < len words.
Proof.
  intros Hs Heq Hpost.
  pose proof (f_equal (map start_idx) Heq) as Hstarts.
  rewrite chunks_from_starts, map_app in Hstarts. simpl in Hstarts.
  pose proof (f_equal (@List.length Z) Hstarts) as Hlen.
  unfold window_starts in Hlen.
  rewrite length_map, length_seq, length_app in Hlen. simpl in Hlen.
  rewrite !length_map in Hlen.
  set (j := List.length pre) in *.
  assert (Hpl : (0 < List.length post)%nat)
    by (destruct post; [congruence | simpl; lia]).
  pose proof (f_equal (fun l => nth j l 0) Hstarts) as Hj. simpl in Hj.
  rewrite app_nth2 in Hj by (rewrite length_map; fold j; lia).
  rewrite length_map in Hj. fold j in Hj. rewrite Nat.sub_diag in Hj.
  cbn [nth] in Hj. unfold window_starts in Hj.
  rewrite nth_map_seq in Hj by lia.
  pose proof (window_start_bound (len words) step (S j) Hs) as Hb.
  assert (Z.of_nat (S j) = Z.of_nat j + 1) by lia.
  rewrite <- Hj. nia.
Qed.

Lemma window_block_holds doc cs ov c :
  0 <= ov < cs ->
  window_block cs ov doc
    (chunks_from doc (doc_words doc) cs c
       (window_starts (len (doc_words doc)) (cs - ov))).
Proof.
  intros Hp. unfold window_block. cbv zeta. repeat split.
  - apply Forall_forall. intros ch Hin.
    exact (chunk_shape doc cs ov ch c Hp Hin).
  - apply chunks_cover; assumption.
  - unfold window_starts. apply chunks_contiguous; lia.
  - intros Hov pre ch post Heq Hpost.
    assert (Hin : In ch (chunks_from doc (doc_words doc) cs c
                     (window_starts (len (doc_words doc)) (cs - ov))))
      by (rewrite Heq; apply in_elt).
    pose proof (chunk_shape doc cs ov ch c Hp Hin) as [_ [_ [_ [_ Hfull]]]].
    apply Hfull.
    pose proof (next_start_inside _ _ _ (cs - ov) _ _ _ _ ltac:(lia) Heq Hpost).
    lia.
Qed.

Lemma blocks_of_window_blocks docs cs ov :
  0 <= ov < cs ->
  forall c, Forall2 (window_block cs ov) docs (blocks_of docs cs ov c).
Proof.
  intros Hp. induction docs as [|doc rest IH]; intros c; simpl.
  - constructor.
  - constructor; [apply window_block_holds; assumption | apply IH].
Qed.

Lemma short_document_block_holds doc cs ov c :
  0 <= ov < cs ->
  short_document_block cs ov doc
    (chunks_from doc (doc_words doc) cs c
       (window_starts (len (doc_words doc)) (cs - ov))).
Proof.
  intros Hp. unfold short_document_block. cbv zeta. intros Hn.
  set (words := doc_words doc) in *. set (n := len words) in *.
  set (step := cs - ov). assert (Hs : 0 < step) by (unfold step; lia).
  assert (Hq : 0 <= (n - 1) / step) by (apply Z.div_pos; lia).
  assert (Hlen : len (chunks_from doc words cs c (window_starts n step))
                 = (n - 1) / step + 1).
  { rewrite chunks_from_length. unfold window_starts, len.
    rewrite length_map, length_seq, range_len_positive by lia. lia. }
  revert Hlen. unfold window_starts.
  rewrite range_len_positive by lia.
  replace (Z.to_nat ((n - 1) / step + 1))
    with (S (Z.to_nat ((n - 1) / step))) by lia.
  cbn [seq map chunks_from]. intros Hlen.
  eexists. eexists. split; [reflexivity|].
  cbn [make_chunk start_idx end_idx word_count].
  assert (Hw : len (py_slice words (0 + Z.of_nat 0 * step)
                      (0 + Z.of_nat 0 * step + cs)) = n).
  { change (0 + Z.of_nat 0 * step) with 0.
    rewrite py_slice_window by (fold n; lia). fold n. lia. }
  repeat split; try (fold n; lia).
  - intros Hrest. apply (f_equal (@List.length chunk)) in Hrest.
    pose proof (chunks_from_length doc words cs
                  (map (fun k => 0 + Z.of_nat k * step)
                     (seq 1 (Z.to_nat ((n - 1) / step)))) (c + 1)) as Hl.
    unfold len in Hl. rewrite length_map, length_seq in Hl.
    rewrite Hrest in Hl. simpl in Hl.
    assert (Hz : (n - 1) / step = 0) by lia.
    apply Z.div_small_iff in Hz; lia.
  - intros Hle. assert (Hz : (n - 1) / step = 0)
      by (apply Z.div_small; lia).
    rewrite Hz. reflexivity.
Qed.

Lemma blocks_of_short_blocks docs cs ov :
  0 <= ov < cs ->
  forall c, Forall2 (short_document_block cs ov) docs (blocks_of docs cs ov c).
Proof.
  intros Hp. induction docs as [|doc rest IH]; intros c; simpl.
  - constructor.
  - constructor; [apply short_document_block_holds; assumption | apply IH].
Qed.

Lemma exn_class_builtin e : exn_class e <> "InvalidConfiguration".
Proof. destruct e; discriminate. Qed.

(** C1, as the code has it.  For [0 <= overlap < chunk_size] and
    preprocessed documents, [chunk_documents] returns the documents' blocks
    one after the other; within a block every chunk is the word range
    [start_idx, end_idx) of its document with [end_idx - start_idx] words,
    the ranges cover [0, n) and neighbours leave no gap, and a chunk has
    exactly [chunk_size] words whenever its window fits in the document.
    With [overlap = 0] that is every chunk but the last. *)
Theorem chunk_documents_windows {F} (self : pipeline F) cs ov w :
  0 <= ov < cs ->
  Forall preprocessed (documents self) ->
  exists blocks,
    fst (chunk_documents self cs ov w) = Ok (List.concat blocks) /\
    Forall2 (window_block cs ov) (documents self) blocks.
Proof.
  intros Hp Hpre. exists (blocks_of (documents self) cs ov 0). split.
  - rewrite chunk_documents_result.
    rewrite chunk_docs_loop_spec by (assumption || lia). reflexivity.
  - apply blocks_of_window_blocks. assumption.
Qed.

Lemma chunk_documents_windows_witness :
  exists blocks,
    fst (chunk_documents (pipeline_with "a b c d e") 3 2 world0)
      = Ok (List.concat blocks) /\
    Forall2 (window_block 3 2)
      (documents (pipeline_with "a b c d e")) blocks.
Proof.
  apply (chunk_documents_windows (pipeline_with "a b c d e") 3 2 world0).
  - lia.
  - constructor; [discriminate | constructor].
Defined.

(** C1 as stated fails: five words, windows of three words overlapping by
    two give chunks of 3, 3, 3, 2 and 1 words, so the fourth chunk is
    short and is not the last. *)
Lemma chunk_documents_short_before_last :
  exists chunks,
    fst (chunk_documents (pipeline_with "a b c d e") 3 2 world0) = Ok chunks /\
    map (fun c => (start_idx c, end_idx c, word_count c)) chunks
      = [(0, 3, 3); (1, 4, 3); (2, 5, 3); (3, 5, 2); (4, 5, 1)] /\
    ~ all_but_last_full 3 chunks.
Proof.
  eexists. split; [vm_compute; reflexivity|]. split; [reflexivity|].
  intros Hfull.
  match goal with
  | H : all_but_last_full _ (?c0 :: ?c1 :: ?c2 :: ?c3 :: ?c4 :: nil) |- _ =>
      specialize (H [c0; c1; c2] c3 [c4] eq_refl ltac:(discriminate))
  end.
  vm_compute in Hfull. discriminate.
Qed.

(** A document of 250 words in windows of 100 words that overlap by 20:
    the windows start at 0, 80, 160 and 240 and hold 100, 100, 90 and 10
    words. *)
Example chunk_documents_250_words :
  match fst (chunk_documents
               (pipeline_with (join " " (repeat "word" 250))) 100 20 world0) with
  | Ok chunks =>
      map (fun c => (start_idx c, word_count c)) chunks
      = [(0, 100); (80, 100); (160, 90); (240, 10)]
  | Raise _ => False
  end.
Proof. vm_compute. reflexivity. Qed.

(** C6, as the code has it.  With [chunk_size < overlap] the range of
    window starts is empty and the chunker returns no chunks and no error;
    with [chunk_size = overlap] the zero step makes [range] raise a
    ValueError as soon as there is a document, and with no document
    the result is again the empty list.  No run raises an exception of a
    class named InvalidConfiguration. *)
Theorem chunk_documents_bad_configuration {F} (self : pipeline F) cs ov w :
  cs <= ov ->
  Forall preprocessed (documents self) ->
  (cs < ov -> fst (chunk_documents self cs ov w) = Ok []) /\
  (cs = ov -> documents self <> [] ->
   raises_class (fst (chunk_documents self cs ov w)) "ValueError") /\
  (cs = ov -> documents self = [] ->
   fst (chunk_documents self cs ov w) = Ok []) /\
  ~ raises_class (fst (chunk_documents self cs ov w)) "InvalidConfiguration".
Proof.
  intros Hle Hpre. rewrite chunk_documents_result. repeat split.
  - intros Hlt. apply chunk_docs_loop_backwards; [lia | assumption].
  - intros -> Hne. destruct (documents self) as [|doc rest]; [congruence|].
    inversion Hpre as [|? ? Hd _]; subst. unfold preprocessed in Hd.
    simpl. destruct (processed_content doc); [|congruence].
    rewrite Z.sub_diag. simpl. eexists. split; reflexivity.
  - intros _ ->. reflexivity.
  - intros [e [_ He]]. exact (exn_class_builtin e He).
Qed.

Lemma chunk_documents_bad_configuration_witness :
  raises_class
    (fst (chunk_documents (pipeline_with "a b c") 4 4 world0)) "ValueError".
Proof.
  apply (chunk_documents_bad_configuration (pipeline_with "a b c") 4 4 world0).
  - lia.
  - constructor; [discriminate | constructor].
  - reflexivity.
  - discriminate.
Defined.

(** C6 as stated fails: [chunk_size = 2], [overlap = 5] on a three-word
    document returns the empty list of chunks instead of failing. *)
Lemma chunk_documents_overlap_larger_no_error :
  fst (chunk_documents (pipeline_with "a b c") 2 5 world0) = Ok [] /\
  ~ raises_class
      (fst (chunk_documents (pipeline_with "a b c") 2 5 world0))
      "InvalidConfiguration".
Proof.
  split; [vm_compute; reflexivity|].
  intros [e [H _]]. vm_compute in H. discriminate.
Qed.

(** C7, as the code has it.  A document of [n] words with
    [0 < n < chunk_size] gets a first chunk that spans all of it, word
    range [0, n), and one chunk per window start, that is
    [(n - 1) / (chunk_size - overlap) + 1] chunks; it is the only chunk
    exactly when [n <= chunk_size - overlap]. *)
Theorem chunk_documents_short_document {F} (self : pipeline F) cs ov w :
  0 <= ov < cs ->
  Forall preprocessed (documents self) ->
  exists blocks,
    fst (chunk_documents self cs ov w) = Ok (List.concat blocks) /\
    Forall2 (short_document_block cs ov) (documents self) blocks.
Proof.
  intros Hp Hpre. exists (blocks_of (documents self) cs ov 0). split.
  - rewrite chunk_documents_result.
    rewrite chunk_docs_loop_spec by (assumption || lia). reflexivity.
  - apply blocks_of_short_blocks. assumption.
Qed.

Lemma chunk_documents_short_document_witness :
  exists blocks,
    fst (chunk_documents (pipeline_with "a b c") 4 1 world0)
      = Ok (List.concat blocks) /\
    Forall2 (short_document_block 4 1)
      (documents (pipeline_with "a b c")) blocks.
Proof.
  apply (chunk_documents_short_document (pipeline_with "a b c") 4 1 world0).
  - lia.
  - constructor; [discriminate | constructor].
Defined.

(** C7 as stated fails: three words, [chunk_size = 4], [overlap = 3]:
    the step is one word, so the chunker yields three chunks. *)
Lemma chunk_documents_short_document_three_chunks :
  exists chunks,
    len (doc_words (text_document "a b c")) = 3 /\
    fst (chunk_documents (pipeline_with "a b c") 4 3 world0) = Ok chunks /\
    map (fun c => (start_idx c, end_idx c)) chunks
      = [(0, 3); (1, 3); (2, 3)] /\
    List.length chunks <> 1%nat.
Proof.
  eexists. split; [reflexivity|]. split; [vm_compute; reflexivity|].
  split; [reflexivity | discriminate].
Qed.

(** *** Retrieval *)

Section Ranking.

Context {F : Type} {ops : FloatOps F} {ord : FloatOrder F}.

Lemma insert_sorted_in (x z : Z * F) l :
  In z (insert_sorted float_lt snd x l) <-> z = x \/ In z l.
Proof.
  induction l as [|y l IH]; simpl.
  - intuition congruence.
  - destruct (float_lt (snd y) (snd x)); simpl; rewrite ?IH;
      intuition congruence.
Qed.

Lemma sort_ascending_in (z : Z * F) l :
  In z (sort_ascending float_lt snd l) <-> In z l.
Proof.
  induction l as [|x l IH]; simpl; [tauto|].
  unfold sort_ascending in *. simpl. rewrite insert_sorted_in, IH.
  intuition congruence.
Qed.

Lemma sorted_before_head (x y : Z * F) :
  float_lt (snd y) (snd x) = false -> fst y < fst x -> sorted_before x y.
Proof.
  intros Hyx Hpos. unfold sorted_before, ranked_before, tie.
  destruct (float_lt (snd x) (snd y)) eqn:Hxy; auto.
Qed.

Lemma sorted_before_chain (x y z : Z * F) :
  float_lt (snd y) (snd x) = false -> sorted_before y z ->
  fst z < fst x -> sorted_before x z.
Proof.
  intros Hyx Hyz Hpos. unfold sorted_before, ranked_before, tie in *.
  destruct (float_lt (snd x) (snd z)) eqn:Hxz; [now left | right].
  destruct Hyz as [Hlt | [[Hzy _] _]].
  - rewrite (float_lt_negtrans _ _ _ Hyx Hxz) in Hlt. discriminate.
  - repeat split; try assumption.
    exact (float_lt_negtrans _ _ _ Hzy Hyx).
Qed.

Lemma insert_sorted_sorted (x : Z * F) l :
  StronglySorted sorted_before l ->
  Forall (fun y => fst y < fst x) l ->
  StronglySorted sorted_before (insert_sorted float_lt snd x l).
Proof.
  intros Hs. induction Hs as [|y l Hs IH Hy]; intros Hpos; simpl.
  - repeat constructor.
  - inversion Hpos as [|? ? Hyx Hrest]; subst.
    destruct (float_lt (snd y) (snd x)) eqn:Hlt.
    + constructor; [apply IH; assumption|].
      apply Forall_forall. intros z Hz. apply insert_sorted_in in Hz.
      destruct Hz as [-> | Hz].
      * left. exact Hlt.
      * rewrite Forall_forall in Hy. auto.
    + constructor; [constructor; assumption|].
      constructor; [apply sorted_before_head; assumption|].
      rewrite Forall_forall in *. intros z Hz.
      apply (sorted_before_chain x y z); auto.
Qed.

Lemma sort_ascending_sorted (l : list (Z * F)) :
  StronglySorted (fun a b => fst b < fst a) l ->
  StronglySorted sorted_before (sort_ascending float_lt snd l).
Proof.
  intros Hs. induction Hs as [|x l Hs IH Hx]; simpl; [constructor|].
  apply insert_sorted_sorted; [exact IH|].
  rewrite Forall_forall in *. intros y Hy.
  apply (proj1 (sort_ascending_in y l)) in Hy. auto.
Qed.

Lemma StronglySorted_snoc {A} (R : A -> A -> Prop) l x :
  StronglySorted R l -> Forall (fun y => R y x) l ->
  StronglySorted R (l ++ [x]).
Proof.
  intros Hs. induction Hs as [|y l Hs IH Hy]; intros Hx; simpl.
  - repeat constructor.
  - inversion Hx; subst. constructor; [auto|].
    apply Forall_app. split; [assumption | repeat constructor; assumption].
Qed.

Lemma StronglySorted_rev {A} (R : A -> A -> Prop) l :
  StronglySorted R l -> StronglySorted (fun a b => R b a) (rev l).
Proof.
  intros Hs. induction Hs as [|x l Hs IH Hx]; simpl; [constructor|].
  apply StronglySorted_snoc; [exact IH|].
  rewrite Forall_forall in *. intros y Hy. apply Hx.
  now apply in_rev.
Qed.

Lemma firstn_in {A} (y : A) l : forall n, In y (firstn n l) -> In y l.
Proof.
  induction l as [|x l IH]; intros [|n]; simpl; try tauto.
  intros [-> | Hy]; eauto.
Qed.

Lemma StronglySorted_firstn {A} (R : A -> A -> Prop) l : forall n,
  StronglySorted R l -> StronglySorted R (firstn n l).
Proof.
  induction l as [|x l IH]; intros [|n] Hs; simpl; try constructor.
  - inversion Hs; subst. auto.
  - inversion Hs as [|? ? _ Hx]; subst.
    rewrite Forall_forall in *. intros y Hy. apply Hx.
    eapply firstn_in; eassumption.
Qed.

(** The reversed sort ranks a list whose positions increase. *)
Lemma list_sort_ranked (similarities : list (Z * F)) :
  StronglySorted (fun a b => fst a < fst b) similarities ->
  StronglySorted ranked_before (list_sort float_lt snd true similarities).
Proof.
  intros Hs. unfold list_sort.
  apply (StronglySorted_rev sorted_before).
  apply sort_ascending_sorted.
  exact (StronglySorted_rev _ _ Hs).
Qed.

Lemma list_sort_in (z : Z * F) similarities :
  In z (list_sort float_lt snd true similarities) <-> In z similarities.
Proof.
  unfold list_sort. rewrite <- in_rev, sort_ascending_in, <- in_rev. tauto.
Qed.

Lemma ranked_not_below (a b : Z * F) :
  ranked_before a b -> float_lt (snd a) (snd b) = false.
Proof.
  intros [Hlt | [[Hab _] _]]; [|exact Hab].
  destruct (float_lt (snd a) (snd b)) eqn:Hab; [|reflexivity].
  rewrite <- (float_lt_irrefl (snd a)).
  symmetry. exact (float_lt_trans _ _ _ Hab Hlt).
Qed.

Lemma resolved_not_below chunks (r : search_result F) (c : Z * F)
    results top :
  resolves chunks r c ->
  Forall2 (resolves chunks) results top ->
  Forall (ranked_before c) top ->
  Forall (fun r' => float_lt (similarity_score r) (similarity_score r') = false)
    results.
Proof.
  intros [Hr _] Hres. induction Hres as [|r' c' results top [Hr' _] _ IH];
    intros Htop; constructor; inversion Htop; subst.
  - rewrite Hr, Hr'. now apply ranked_not_below.
  - auto.
Qed.

Lemma resolved_descending chunks (results : list (search_result F)) top :
  Forall2 (resolves chunks) results top ->
  StronglySorted ranked_before top ->
  descending results.
Proof.
  intros Hres. induction Hres as [|r c results top Hrc Hres IH];
    intros Hs; [constructor|].
  inversion Hs; subst. constructor; [apply IH; assumption|].
  eapply resolved_not_below; eassumption.
Qed.

End Ranking.

Section Search.

Context {F : Type} {ops : FloatOps F}.
Variable amb : ambient F.

Lemma similarities_loop_total (q : list F) rows :
  Forall (fun row => List.length row = List.length q) rows ->
  forall i acc,
    similarities_loop q rows i acc = Ok (acc ++ scored q rows i).
Proof.
  intros Hrows. induction Hrows as [|row rest Hrow _ IH]; intros i acc; simpl.
  - now rewrite app_nil_r.
  - unfold np_dot. rewrite Hrow, Nat.eqb_refl, IH, <- app_assoc. reflexivity.
Qed.

Lemma similarities_loop_ok (q : list F) rows : forall i acc similarities,
  similarities_loop q rows i acc = Ok similarities ->
  similarities = acc ++ scored q rows i /\
  Forall (fun row => List.length row = List.length q) rows.
Proof.
  induction rows as [|row rest IH]; intros i acc sims; simpl.
  - intros [= <-]. rewrite app_nil_r. auto.
  - unfold np_dot.
    destruct (Nat.eqb_spec (List.length q) (List.length row)) as [Hlen|];
      [|discriminate].
    intros Hloop. destruct (IH _ _ _ Hloop) as [-> Hrest].
    rewrite <- app_assoc. auto.
Qed.

Lemma scored_positions (q : list F) rows : forall i,
  Forall (fun c => i <= fst c) (scored q rows i) /\
  StronglySorted (fun a b => fst a < fst b) (scored q rows i).
Proof.
  induction rows as [|row rest IH]; intros i; simpl.
  - split; constructor.
  - destruct (IH (i + 1)) as [Hge Hs]. split.
    + constructor; [simpl; lia|].
      eapply Forall_impl; [|exact Hge]. simpl. intros; lia.
    + constructor; [exact Hs|].
      eapply Forall_impl; [|exact Hge]. simpl. intros; lia.
Qed.

Lemma scored_rows (q : list F) rows c : forall i,
  In c (scored q rows i) ->
  i <= fst c /\
  exists row, nth_error rows (Z.to_nat (fst c - i)) = Some row /\
              snd c = dot q row.
Proof.
  induction rows as [|row rest IH]; intros i; simpl; [tauto|].
  intros [<- | Hin].
  - simpl. split; [lia|]. exists row. rewrite Z.sub_diag. auto.
  - destruct (IH _ Hin) as [Hge [r [Hnth Hdot]]]. split; [lia|].
    exists r. split; [|exact Hdot].
    replace (Z.to_nat (fst c - i)) with (S (Z.to_nat (fst c - (i + 1))))
      by lia.
    exact Hnth.
Qed.

Lemma scored_bound (q : list F) rows c : forall i,
  In c (scored q rows i) -> fst c < i + len rows.
Proof.
  unfold len. induction rows as [|row rest IH]; intros i; simpl; [tauto|].
  intros [<- | Hin]; [simpl; lia|]. specialize (IH _ Hin). lia.
Qed.

Lemma py_index_in_range {A} (l : list A) i :
  0 <= i < len l -> exists a, py_index l i = Ok a.
Proof.
  intros Hi. unfold py_index, len in *.
  destruct (Z.ltb_spec i 0) as [|_]; [lia|].
  destruct (Z.ltb_spec i 0) as [|_]; [lia|].
  destruct (nth_error l (Z.to_nat i)) eqn:Hnth; [eauto|].
  apply nth_error_None in Hnth. lia.
Qed.

Lemma results_loop_ok chunks (top : list (Z * F)) : forall acc results,
  results_loop chunks top acc = Ok results ->
  exists fresh,
    results = acc ++ fresh /\
    Forall2 (resolves chunks) fresh top /\
    map rank fresh
    = map (fun k => len acc + Z.of_nat k + 1) (seq 0 (List.length top)).
Proof.
  induction top as [|[i x] top IH]; intros acc results; simpl.
  - intros [= <-]. exists []. rewrite app_nil_r. repeat split. constructor.
  - destruct (py_index chunks i) as [ch|] eqn:Hidx; [|discriminate].
    intros Hloop. destruct (IH _ _ Hloop) as [fresh [-> [Hres Hranks]]].
    eexists (_ :: fresh). rewrite <- app_assoc. split; [reflexivity|]. split.
    + constructor; [|exact Hres]. split; [reflexivity | exact Hidx].
    + simpl. f_equal; [lia|]. rewrite Hranks, <- seq_shift, map_map.
      apply map_ext. intros k. unfold len. rewrite length_app. simpl. lia.
Qed.

Lemma results_loop_total chunks (top : list (Z * F)) :
  Forall (fun c => 0 <= fst c < len chunks) top ->
  forall acc, exists results, results_loop chunks top acc = Ok results.
Proof.
  intros Htop. induction Htop as [|[i x] top Hi _ IH]; intros acc; simpl.
  - eauto.
  - simpl in Hi. destruct (py_index_in_range chunks i Hi) as [ch Hch].
    rewrite Hch. apply IH.
Qed.

(** What [similarity_search] returns, with the printing and the state of
    the random source left aside. *)
Lemma similarity_search_result (self : pipeline F) query top_k w :
  fst (similarity_search amb self query top_k w) =
  match vector_db self with
  | None => Raise (KeyError "embeddings")
  | Some db =>
      match top_candidates (query_embedding_in amb w) (db_embeddings db) top_k with
      | Raise e => Raise e
      | Ok top_chunks => results_loop (db_chunks db) top_chunks []
      end
  end.
Proof.
  unfold similarity_search, bind, print, np_random_rand, lift, raise, ret.
  cbn [fst snd rng_pos stdout clock_reads].
  fold (query_embedding_in amb w).
  destruct (vector_db self) as [db|]; [|reflexivity].
  destruct (top_candidates _ _ _) as [top|]; [|reflexivity].
  cbn [fst]. destruct (results_loop _ _ _); reflexivity.
Qed.

(** The random source afterwards: 384 numbers further. *)
Lemma similarity_search_draws (self : pipeline F) query top_k w :
  rng_pos (snd (similarity_search amb self query top_k w))
  = (rng_pos w + 384)%nat.
Proof.
  unfold similarity_search, bind, print, np_random_rand, lift, raise, ret.
  cbn [fst snd rng_pos stdout clock_reads].
  destruct (vector_db self) as [db|]; [|reflexivity].
  destruct (top_candidates _ _ _) as [top|]; [|reflexivity].
  destruct (results_loop _ _ _); reflexivity.
Qed.

Lemma query_embedding_length w :
  List.length (query_embedding_in amb w) = 384%nat.
Proof.
  unfold query_embedding_in, normalize.
  now rewrite !length_map, length_seq.
Qed.

End Search.

Lemma Qltb_true a b : Qltb a b = true <-> (a < b)%Q.
Proof.
  unfold Qltb. rewrite negb_true_iff. split.
  - intros H. apply Qnot_le_lt. intros Hle.
    apply Qle_bool_iff in Hle. congruence.
  - intros Hlt. destruct (Qle_bool b a) eqn:Hle; [|reflexivity].
    apply Qle_bool_iff in Hle. exfalso. exact (Qlt_not_le _ _ Hlt Hle).
Qed.

Lemma Qltb_false a b : Qltb a b = false <-> (b <= a)%Q.
Proof.
  unfold Qltb. rewrite negb_false_iff. apply Qle_bool_iff.
Qed.

#[export] Instance exact_order : FloatOrder Q.
Proof.
  constructor; cbn [float_lt exact_ops].
  - intros a. apply Qltb_false. apply Qle_refl.
  - intros a b c Hab Hbc. apply Qltb_true. apply Qltb_true in Hab, Hbc.
    eapply Qlt_trans; eassumption.
  - intros a b c Hab Hbc. apply Qltb_false. apply Qltb_false in Hab, Hbc.
    eapply Qle_trans; eassumption.
Qed.

(** The query (1, 0, ...) against (1, 0, ...), (0, 1, ...) and
    (0.7, 0.7, ...): the first row, then the third. *)
Example three_rows_top_two :
  top_candidates (query_embedding_in steady world0)
    (match vector_db three_rows with Some db => db_embeddings db | None => [] end) 2
  = Ok [(0, query_score 0); (2, query_score 2)]
  /\ Qeq (query_score 0) (1 # 1) /\ Qeq (query_score 2) (7 # 10).
Proof. vm_compute. repeat split; reflexivity. Qed.

(** Rows 1 and 2 score the same: row 1 comes first. *)
Example tied_rows_order :
  match top_candidates (query_embedding_in steady world0)
          (match vector_db tied_rows with
           | Some db => db_embeddings db
           | None => []
           end) 3 with
  | Ok top => map fst top = [1; 2; 0]
  | Raise _ => False
  end.
Proof. vm_compute. reflexivity. Qed.

Lemma top_candidates_ranked {F} `{FloatOrder F} (q : list F) rows top_k top :
  top_candidates q rows top_k = Ok top ->
  StronglySorted ranked_before top /\
  Forall (scores_row q rows) top /\
  Forall (fun c => 0 <= fst c < len rows) top.
Proof.
  unfold top_candidates.
  destruct (similarities_loop q rows 0 []) as [sims|] eqn:Hloop;
    [|discriminate].
  intros [= <-]. apply similarities_loop_ok in Hloop.
  destruct Hloop as [-> _]. cbn [app].
  destruct (scored_positions q rows 0) as [_ Hinc].
  unfold py_slice_to. split; [|split].
  - apply StronglySorted_firstn, list_sort_ranked, Hinc.
  - apply Forall_forall. intros c Hc.
    apply firstn_in in Hc. apply (proj1 (list_sort_in _ _)) in Hc.
    apply scored_rows in Hc.
    destruct Hc as [Hge [row [Hnth Hdot]]]. rewrite Z.sub_0_r in Hnth.
    split; [exact Hge | eauto].
  - apply Forall_forall. intros c Hc.
    apply firstn_in in Hc. apply (proj1 (list_sort_in _ _)) in Hc.
    pose proof (scored_bound _ _ _ _ Hc).
    apply scored_rows in Hc. lia.
Qed.

Lemma top_candidates_total {F} `{FloatOps F} (q : list F) rows top_k :
  Forall (fun row => List.length row = List.length q) rows ->
  exists top, top_candidates q rows top_k = Ok top.
Proof.
  intros Hrows. unfold top_candidates.
  rewrite similarities_loop_total by assumption. eauto.
Qed.



(** The run of the theorem's witness: ranks 1 and 2 go to the chunks of
    rows 0 and 2. *)
Example three_rows_search :
  match fst (similarity_search steady three_rows "what is RAG" 2 world0) with
  | Ok results =>
      map (fun r => (chunk_id (hit r), rank r)) results
      = [("chunk_0", 1); ("chunk_2", 2)]
  | Raise _ => False
  end.
Proof. vm_compute. reflexivity. Qed.

(** *** Searching and building *)

(** Loading and preprocessing leave [vector_db] as it was. *)
Lemma load_preprocess_keep_vector_db {F} (self : pipeline F) paths w :
  match fst (bind (load_documents self paths) preprocess_documents w) with
  | Ok self' => vector_db self' = vector_db self
  | Raise _ => False
  end.
Proof. reflexivity. Qed.

(** C4, as the code has it.  On a pipeline on which
    [build_vector_database] has not run, [vector_db] is still the empty
    dictionary and [similarity_search] fails, after it has printed its
    first line and drawn the query embedding, with the KeyError of the
    missing key [embeddings]. *)
Theorem similarity_search_before_build {F} `{FloatOps F} (amb : ambient F)
    (self : pipeline F) (query : string) (top_k : Z) (w : world) :
  vector_db self = None ->
  fst (similarity_search amb self query top_k w) = Raise (KeyError "embeddings") /\
  raises_class (fst (similarity_search amb self query top_k w)) "KeyError" /\
  rng_pos (snd (similarity_search amb self query top_k w)) = (rng_pos w + 384)%nat.
Proof.
  intros Hdb. rewrite similarity_search_draws, similarity_search_result, Hdb.
  repeat split. eexists. split; reflexivity.
Qed.

Lemma similarity_search_before_build_witness :
  fst (similarity_search steady new_pipeline "what is RAG" 3 world0)
    = Raise (KeyError "embeddings") /\
  raises_class
    (fst (similarity_search steady new_pipeline "what is RAG" 3 world0))
    "KeyError" /\
  rng_pos (snd (similarity_search steady new_pipeline "what is RAG" 3 world0))
    = (rng_pos world0 + 384)%nat.
Proof.
  apply (similarity_search_before_build steady new_pipeline "what is RAG" 3 world0).
  reflexivity.
Defined.

(** C4 as stated fails on the name of the error: a search on a fresh
    pipeline raises KeyError, not an exception called IndexNotBuilt. *)
Lemma similarity_search_fresh_pipeline_key_error :
  fst (similarity_search steady new_pipeline "what is RAG" 3 world0)
    = Raise (KeyError "embeddings") /\
  ~ raises_class
      (fst (similarity_search steady new_pipeline "what is RAG" 3 world0))
      "IndexNotBuilt".
Proof.
  split; [reflexivity|].
  intros [e [He Hcls]]. vm_compute in He. injection He as <-. discriminate.
Qed.

Section Building.

Context {F : Type} {ops : FloatOps F}.
Variable amb : ambient F.

Lemma embed_loop_spec chunks : forall acc w,
  exists rows w',
    embed_loop amb chunks acc w = (Ok (acc ++ rows), w') /\
    List.length rows = List.length chunks /\
    Forall (fun row => List.length row = 384%nat) rows.
Proof.
  induction chunks as [|ch rest IH]; intros acc w; simpl.
  - exists [], w. rewrite app_nil_r. repeat split. constructor.
  - unfold bind at 1. unfold np_random_rand at 1.
    match goal with
    | |- context [embed_loop amb rest ?a ?w1] =>
        destruct (IH a w1) as [rows [w' [Hrun [Hlen Hrows]]]]
    end.
    eexists (_ :: rows), w'. rewrite Hrun, <- app_assoc.
    split; [reflexivity|]. split; [simpl; congruence|].
    constructor; [|exact Hrows].
    unfold normalize. now rewrite !length_map, length_seq.
Qed.

Lemma np_array_uniform (rows : list (list F)) d :
  rows <> [] -> Forall (fun row => List.length row = d) rows ->
  np_array rows = Ok (Array2 d rows).
Proof.
  intros Hne Hrows. destruct rows as [|row rest]; [congruence|].
  inversion Hrows as [|? ? Hrow Hrest]; subst. simpl.
  replace (forallb _ rest) with true; [reflexivity|].
  symmetry. apply forallb_forall. intros r Hr.
  rewrite Forall_forall in Hrest. rewrite (Hrest r Hr). apply Nat.eqb_refl.
Qed.

Lemma generate_embeddings_spec (self : pipeline F) chunks w :
  exists arr,
    fst (generate_embeddings amb self chunks w) = Ok arr /\
    match chunks with
    | [] => arr = Array1 []
    | _ :: _ =>
        exists rows, arr = Array2 384 rows /\
          List.length rows = List.length chunks /\
          Forall (fun row => List.length row = 384%nat) rows
    end.
Proof.
  unfold generate_embeddings, bind, print, lift, ret. cbn [fst snd].
  match goal with
  | |- context [embed_loop amb chunks [] ?w1] =>
      destruct (embed_loop_spec chunks [] w1) as [rows [w' [Hrun [Hlen Hrows]]]]
  end.
  rewrite Hrun. cbn [app]. destruct chunks as [|ch rest].
  - destruct rows; [|discriminate]. simpl. eauto.
  - rewrite (np_array_uniform rows 384); [| |exact Hrows].
    + cbn [fst]. eauto 6.
    + destruct rows; [discriminate | congruence].
Qed.

Lemma build_vector_database_spec (self : pipeline F) chunks d rows w :
  exists self' db,
    fst (build_vector_database amb self chunks (Array2 d rows) w) = Ok self' /\
    vector_db self' = Some db /\
    db_chunks db = chunks /\ db_embeddings db = rows /\
    embedding_dim (db_index_metadata db) = Z.of_nat d.
Proof.
  unfold build_vector_database, bind, print, time_now, ret. cbn [fst snd].
  eexists. eexists. split; [reflexivity|]. repeat split.
Qed.

Lemma similarity_search_wrong_width (self : pipeline F) db row rest query k w :
  vector_db self = Some db ->
  db_embeddings db = row :: rest ->
  List.length row <> 384%nat ->
  raises_class (fst (similarity_search amb self query k w)) "ValueError".
Proof.
  intros Hdb Hrows Hlen. rewrite similarity_search_result, Hdb, Hrows.
  unfold top_candidates. cbn [similarities_loop]. unfold np_dot.
  rewrite query_embedding_length.
  destruct (Nat.eqb_spec 384 (List.length row)); [congruence|].
  eexists. split; reflexivity.
Qed.

End Building.

Lemma exn_class_no_dimension_mismatch e : exn_class e <> "DimensionMismatch".
Proof. destruct e; discriminate. Qed.

(** C5, as the code has it.  The pipeline has no store to insert into one
    vector at a time and checks no dimension.  [generate_embeddings] never
    fails and gives every chunk a row of the fixed length 384;
    [build_vector_database] accepts an array with two axes whatever its
    row length and whatever the pipeline held before, and records the row
    length as [embedding_dim]; a row length other than 384 shows only when
    a search takes the dot product, as a ValueError.  No run raises an
    exception of a class named DimensionMismatch. *)
Theorem embeddings_fixed_width {F} `{FloatOps F} (amb : ambient F)
    (self : pipeline F) (chunks : list chunk) (w : world) :
  (exists arr,
     fst (generate_embeddings amb self chunks w) = Ok arr /\
     match chunks with
     | [] => arr = Array1 []
     | _ :: _ =>
         exists rows, arr = Array2 384 rows /\
           List.length rows = List.length chunks /\
           Forall (fun row => List.length row = 384%nat) rows
     end) /\
  (forall d rows,
     exists self' db,
       fst (build_vector_database amb self chunks (Array2 d rows) w) = Ok self' /\
       vector_db self' = Some db /\
       db_chunks db = chunks /\ db_embeddings db = rows /\
       embedding_dim (db_index_metadata db) = Z.of_nat d) /\
  (forall db row rest query top_k,
     vector_db self = Some db ->
     db_embeddings db = row :: rest ->
     List.length row <> 384%nat ->
     raises_class (fst (similarity_search amb self query top_k w)) "ValueError") /\
  (forall arr,
     ~ raises_class (fst (build_vector_database amb self chunks arr w))
         "DimensionMismatch").
Proof.
  split; [|split; [|split]].
  - apply generate_embeddings_spec.
  - intros d rows. apply build_vector_database_spec.
  - intros db row rest query top_k. apply similarity_search_wrong_width.
  - intros arr [e [_ He]]. exact (exn_class_no_dimension_mismatch e He).
Qed.

(** C5 as stated fails: a pipeline whose store holds three rows of two
    numbers takes rows of three numbers without any error; the new rows
    replace the old ones and [embedding_dim] becomes 3. *)
Lemma build_accepts_other_width :
  option_map (fun db => (len (db_embeddings db),
                         embedding_dim (db_index_metadata db)))
    (vector_db narrow_rows) = Some (3, 2) /\
  exists self',
    fst (build_vector_database steady narrow_rows (word_chunks "a b c")
           (Array2 3 [[1 # 1; 0 # 1; 0 # 1]; [0 # 1; 1 # 1; 0 # 1]])%Q world0)
      = Ok self' /\
    option_map (fun db => (len (db_embeddings db),
                           embedding_dim (db_index_metadata db)))
      (vector_db self') = Some (2, 3).
Proof.
  split; [reflexivity|]. eexists. split; reflexivity.
Qed.

(** A search on the store of two-number rows stops at the dot product. *)
Example narrow_rows_search :
  fst (similarity_search steady narrow_rows "what is RAG" 2 world0)
  = Raise (ValueError "shapes not aligned").
Proof. vm_compute. reflexivity. Qed.

(** C10.  The text of the query reaches the printed line and nothing
    else: two searches on pipelines with the same vector database, started
    with the random source in the same state, return the same result
    whatever the two queries are, the same chunks with the same scores and
    ranks or the same exception, and leave the random source in the same
    state. *)
Theorem similarity_search_ignores_query {F} `{FloatOps F} (amb : ambient F)
    (self self' : pipeline F) (query query' : string) (top_k : Z)
    (w w' : world) :
  vector_db self = vector_db self' ->
  rng_pos w = rng_pos w' ->
  fst (similarity_search amb self query top_k w)
  = fst (similarity_search amb self' query' top_k w') /\
  rng_pos (snd (similarity_search amb self query top_k w))
  = rng_pos (snd (similarity_search amb self' query' top_k w')).
Proof.
  intros Hdb Hrng.
  rewrite !similarity_search_result, !similarity_search_draws.
  unfold query_embedding_in. rewrite Hdb, Hrng. split; reflexivity.
Qed.

Lemma similarity_search_ignores_query_witness :
  fst (similarity_search steady three_rows "what is RAG" 2 world0)
  = fst (similarity_search steady three_rows "vector stores" 2 world0) /\
  rng_pos (snd (similarity_search steady three_rows "what is RAG" 2 world0))
  = rng_pos (snd (similarity_search steady three_rows "vector stores" 2 world0)).
Proof.
  apply (similarity_search_ignores_query steady three_rows three_rows
           "what is RAG" "vector stores" 2 world0 world0); reflexivity.
Defined.

(** The two queries do show in what is printed. *)
Example similarity_search_prints_query :
  hd_error (stdout (snd (similarity_search steady three_rows "what is RAG" 2 world0)))
  <> hd_error (stdout (snd (similarity_search steady three_rows "vector stores" 2 world0))).
Proof. vm_compute. discriminate. Qed.

(** *** Words and whitespace *)

(** A string without whitespace, and a word: such a string that is not
    empty. *)
Fixpoint no_space (s : string) : Prop :=
  match s with
  | EmptyString => True
  | String c s' => is_space c = false /\ no_space s'
  end.

Definition is_word (w : string) : Prop := w <> EmptyString /\ no_space w.

Fixpoint all_space (s : string) : Prop :=
  match s with
  | EmptyString => True
  | String c s' => is_space c = true /\ all_space s'
  end.

Lemma string_app_assoc (a b c : string) :
  ((a ++ b) ++ c)%string = (a ++ (b ++ c))%string.
Proof. induction a as [|x a IH]; simpl; [reflexivity | now rewrite IH]. Qed.

Lemma string_app_nil_r (a : string) : (a ++ "")%string = a.
Proof. induction a as [|x a IH]; simpl; [reflexivity | now rewrite IH]. Qed.

Lemma no_space_app (a b : string) :
  no_space a -> no_space b -> no_space (a ++ b)%string.
Proof. induction a as [|x a IH]; simpl; [auto | intuition]. Qed.

Lemma flush_words cur rest :
  no_space cur -> Forall is_word rest -> Forall is_word (flush cur rest).
Proof.
  intros Hcur Hrest. destruct cur as [|c cur]; simpl; [exact Hrest|].
  constructor; [split; [discriminate | exact Hcur] | exact Hrest].
Qed.

Lemma split_from_words s : forall cur,
  no_space cur -> Forall is_word (split_from cur s).
Proof.
  induction s as [|c s IH]; intros cur Hcur; simpl.
  - apply flush_words; [exact Hcur | constructor].
  - destruct (is_space c) eqn:Hc.
    + apply flush_words; [exact Hcur | apply IH; exact I].
    + apply IH. apply no_space_app; simpl; auto.
Qed.

(** What [split] returns are words. *)
Lemma split_words s : Forall is_word (split s).
Proof. apply split_from_words. exact I. Qed.

Lemma split_from_word w : forall cur s,
  no_space w -> split_from cur (w ++ s)%string = split_from (cur ++ w)%string s.
Proof.
  induction w as [|c w IH]; intros cur s Hw; simpl.
  - now rewrite string_app_nil_r.
  - destruct Hw as [Hc Hw]. rewrite Hc, IH by exact Hw.
    now rewrite string_app_assoc.
Qed.

(** Joining words with single spaces and splitting again gives the words
    back. *)
Lemma split_join (words : list string) :
  Forall is_word words -> split (join " " words) = words.
Proof.
  unfold split. induction 1 as [|w rest [Hne Hw] Hrest IH]; [reflexivity|].
  destruct rest as [|w' rest].
  - simpl. rewrite <- (string_app_nil_r w) at 1.
    rewrite split_from_word by exact Hw. simpl.
    destruct w; [congruence | reflexivity].
  - change (join " " (w :: w' :: rest))
      with (w ++ " " ++ join " " (w' :: rest))%string.
    rewrite split_from_word by exact Hw.
    change (" " ++ join " " (w' :: rest))%string
      with (String " "%char (join " " (w' :: rest))).
    cbn [split_from]. change (is_space " "%char) with true. cbv iota.
    rewrite IH. cbn [append]. destruct w; [congruence | reflexivity].
Qed.

Lemma split_from_spaces trail : forall cur,
  all_space trail -> split_from cur trail = flush cur [].
Proof.
  induction trail as [|c trail IH]; intros cur Hsp; simpl; [reflexivity|].
  destruct Hsp as [Hc Hsp]. rewrite Hc, IH by exact Hsp. reflexivity.
Qed.

Lemma split_from_trailing s trail : forall cur,
  all_space trail -> split_from cur (s ++ trail)%string = split_from cur s.
Proof.
  induction s as [|c s IH]; intros cur Hsp; simpl.
  - now apply split_from_spaces.
  - destruct (is_space c); now rewrite IH.
Qed.

Lemma split_lstrip s : split (lstrip s) = split s.
Proof.
  unfold split. induction s as [|c s IH]; simpl; [reflexivity|].
  destruct (is_space c) eqn:Hc; [exact IH|].
  simpl. now rewrite Hc.
Qed.

Lemma lstrip_spaces s :
  exists lead, all_space lead /\ s = (lead ++ lstrip s)%string.
Proof.
  induction s as [|c s [lead [Hlead Heq]]]; simpl.
  - exists EmptyString. split; [exact I | reflexivity].
  - destruct (is_space c) eqn:Hc.
    + exists (String c lead). split; [split; assumption|].
      simpl. now rewrite <- Heq.
    + exists EmptyString. split; [exact I | reflexivity].
Qed.

Lemma rev_string_acc s : forall acc,
  rev_string acc s = (rev_string EmptyString s ++ acc)%string.
Proof.
  induction s as [|c s IH]; intros acc; simpl; [reflexivity|].
  rewrite (IH (String c acc)), (IH (String c EmptyString)).
  now rewrite string_app_assoc.
Qed.

Lemma rev_string_app a : forall b acc,
  rev_string acc (a ++ b)%string = rev_string (rev_string acc a) b.
Proof. induction a as [|c a IH]; intros b acc; simpl; [reflexivity | apply IH]. Qed.

Lemma rev_string_involutive s :
  rev_string EmptyString (rev_string EmptyString s) = s.
Proof.
  assert (H : forall t acc,
             rev_string acc (rev_string t s)
             = (rev_string EmptyString t ++ s ++ acc)%string).
  { induction s as [|c s IH]; intros t acc; simpl.
    - apply rev_string_acc.
    - rewrite IH. simpl. rewrite (rev_string_acc t (String c EmptyString)).
      now rewrite string_app_assoc. }
  rewrite H. simpl. apply string_app_nil_r.
Qed.

Lemma all_space_app a b :
  all_space a -> all_space b -> all_space (a ++ b)%string.
Proof. induction a as [|x a IH]; simpl; [auto | intuition]. Qed.

Lemma all_space_rev s : forall acc,
  all_space s -> all_space acc -> all_space (rev_string acc s).
Proof.
  induction s as [|c s IH]; intros acc Hs Hacc; simpl; [exact Hacc|].
  destruct Hs as [Hc Hs]. apply IH; [exact Hs | split; assumption].
Qed.

(** Stripping changes no word. *)
Lemma split_strip s : split (strip s) = split s.
Proof.
  unfold strip. rewrite <- (split_lstrip s).
  set (t := lstrip s).
  destruct (lstrip_spaces (rev_string EmptyString t)) as [lead [Hlead Heq]].
  set (body := lstrip (rev_string EmptyString t)) in *.
  assert (Ht : t = (rev_string EmptyString body
                    ++ rev_string EmptyString lead)%string).
  { rewrite <- (rev_string_involutive t), Heq, rev_string_app.
    apply rev_string_acc. }
  rewrite Ht at 1. unfold split. rewrite split_from_trailing; [reflexivity|].
  apply all_space_rev; [exact Hlead | exact I].
Qed.

(** *** Preprocessing and chunking, further *)

(** [doc'] is [doc] after preprocessing: the same document, with the words
    of its content joined by single spaces as processed content. *)
Definition cleaned (doc doc' : document) : Prop :=
  doc_id doc' = doc_id doc /\
  doc_content doc' = doc_content doc /\
  doc_source doc' = doc_source doc /\
  doc_type doc' = doc_type doc /\
  processed_content doc' = Some (join " " (split (doc_content doc))) /\
  doc_words doc' = split (doc_content doc) /\
  doc_word_count doc' = Some (len (split (doc_content doc))).

(** The chunk identifier the counter value [k] gives. *)
Definition chunk_name (k : Z) : string := "chunk_" ++ str_of_Z k.

(** The content of a chunk is the words of its range. *)
Definition content_of_range (doc : document) (c : chunk) : Prop :=
  split (content c) = py_slice (doc_words doc) (start_idx c) (end_idx c) /\
  word_count c = len (split (content c)) /\
  source c = doc_source doc.

Lemma preprocess_document_cleaned doc : cleaned doc (preprocess_document doc).
Proof.
  unfold cleaned, preprocess_document, doc_words. cbn.
  rewrite !split_join, !split_strip by apply split_words.
  repeat split.
Qed.

Lemma cleaned_preprocessed doc doc' : cleaned doc doc' -> preprocessed doc'.
Proof.
  intros [_ [_ [_ [_ [Hp _]]]]]. unfold preprocessed. rewrite Hp. discriminate.
Qed.

Lemma preprocess_documents_result {F} (self : pipeline F) w :
  fst (preprocess_documents self w)
  = Ok (set_documents self (map preprocess_document (documents self))).
Proof. reflexivity. Qed.


Lemma chunks_from_names doc words cs starts : forall c,
  map chunk_id (chunks_from doc words cs c starts)
  = map (fun k => chunk_name (c + Z.of_nat k)) (seq 0 (List.length starts)).
Proof.
  induction starts as [|i rest IH]; intros c; [reflexivity|].
  cbn [chunks_from map List.length seq]. rewrite IH, <- seq_shift, map_map.
  f_equal.
  - unfold make_chunk, chunk_name. cbn. now rewrite Z.add_0_r.
  - apply map_ext. intros k. f_equal. lia.
Qed.

Lemma map_seq_offset {A} (g : nat -> A) m : forall b,
  map g (seq b m) = map (fun k => g (b + k)%nat) (seq 0 m).
Proof.
  induction m as [|m IH]; intros b; simpl; [reflexivity|].
  rewrite Nat.add_0_r. f_equal.
  rewrite <- (seq_shift m 0), map_map, IH. apply map_ext. intros k.
  f_equal. lia.
Qed.

Lemma chunk_docs_loop_names docs cs ov : forall acc c res,
  chunk_docs_loop docs cs ov acc c = Ok res ->
  exists fresh,
    res = acc ++ fresh /\
    map chunk_id fresh
    = map (fun k => chunk_name (c + Z.of_nat k)) (seq 0 (List.length fresh)).
Proof.
  induction docs as [|doc rest IH]; intros acc c res; simpl.
  - intros [= <-]. exists []. now rewrite app_nil_r.
  - destruct (processed_content doc) as [text|]; [|discriminate].
    destruct (py_range 0 (len (split text)) (cs - ov)) as [starts|];
      [|discriminate].
    rewrite chunk_words_loop_spec. intros Hloop.
    destruct (IH _ _ _ Hloop) as [fresh [-> Hnames]].
    eexists (_ ++ fresh). rewrite <- app_assoc. split; [reflexivity|].
    assert (Hlen : List.length (chunks_from doc (split text) cs c starts)
                   = List.length starts).
    { pose proof (chunks_from_length doc (split text) cs starts c) as H.
      unfold len in H. lia. }
    rewrite map_app, length_app, seq_app, map_app, chunks_from_names, Hnames.
    rewrite Hlen. f_equal. cbn [plus].
    rewrite (map_seq_offset _ _ (List.length starts)).
    apply map_ext. intros k. f_equal. unfold len. lia.
Qed.

Lemma str_of_Z_injective a b : str_of_Z a = str_of_Z b -> a = b.
Proof.
  unfold str_of_Z. intros Heq.
  assert (Hnil : forall z, Z.to_int z <> Decimal.Pos Decimal.Nil /\
                           Z.to_int z <> Decimal.Neg Decimal.Nil).
  { intros [|p|p]; simpl; split; try discriminate;
      intros [= Hp]; exact (DecimalPos.Unsigned.to_uint_nonnil p Hp). }
  apply (f_equal NilZero.int_of_string) in Heq.
  rewrite !NilZero.isi in Heq by apply Hnil.
  injection Heq as Heq. apply (f_equal Z.of_int) in Heq.
  now rewrite !DecimalZ.of_to in Heq.
Qed.

Lemma chunk_name_injective a b : chunk_name a = chunk_name b -> a = b.
Proof.
  unfold chunk_name. intros Heq. apply str_of_Z_injective.
  cbn in Heq. now injection Heq.
Qed.

(** X2.  The chunks carry the names chunk_0, chunk_1, chunk_2, ... in the
    order they are returned, across all documents; no two chunks share a
    name. *)
Theorem chunk_documents_names {F} (self : pipeline F) (cs ov : Z)
    (w : world) :
  forall chunks,
    fst (chunk_documents self cs ov w) = Ok chunks ->
    map chunk_id chunks
    = map (fun k => chunk_name (Z.of_nat k)) (seq 0 (List.length chunks)) /\
    NoDup (map chunk_id chunks).
Proof.
  intros chunks Hrun. rewrite chunk_documents_result in Hrun.
  destruct (chunk_docs_loop_names _ _ _ _ _ _ Hrun) as [fresh [-> Hnames]].
  cbn [app]. assert (Hmap : map chunk_id fresh
    = map (fun k => chunk_name (Z.of_nat k)) (seq 0 (List.length fresh))).
  { rewrite Hnames. apply map_ext. intros k. reflexivity. }
  split; [exact Hmap|]. rewrite Hmap.
  generalize (seq_NoDup (List.length fresh) 0).
  generalize (seq 0 (List.length fresh)) as l.
  induction l as [|k l IH]; intros Hnd; simpl; [constructor|].
  inversion Hnd as [|? ? Hk Hl]; subst. constructor; [|auto].
  intros Hin. apply in_map_iff in Hin. destruct Hin as [k' [Heq Hk']].
  apply chunk_name_injective in Heq. apply Nat2Z.inj in Heq. congruence.
Qed.

Lemma chunk_documents_names_witness :
  map chunk_id (word_chunks "a b c")
  = map (fun k => chunk_name (Z.of_nat k))
        (seq 0 (List.length (word_chunks "a b c"))) /\
  NoDup (map chunk_id (word_chunks "a b c")).
Proof.
  apply (chunk_documents_names (pipeline_with "a b c") 1 0 world0).
  reflexivity.
Defined.

Lemma skipn_in {A} (y : A) l : forall n, In y (skipn n l) -> In y l.
Proof.
  induction l as [|x l IH]; intros [|n]; simpl; try tauto.
  intros Hy. right. eauto.
Qed.

Lemma py_slice_words (words : list string) i j :
  Forall is_word words -> Forall is_word (py_slice words i j).
Proof.
  intros Hw. unfold py_slice. apply Forall_forall. intros x Hx.
  rewrite Forall_forall in Hw. apply Hw.
  apply firstn_in in Hx.
  eapply skipn_in. exact Hx.
Qed.

Lemma py_slice_same_end {A} (l : list A) i cs :
  0 <= i <= len l -> 0 <= cs ->
  py_slice l i (i + cs) = py_slice l i (Z.min (i + cs) (len l)).
Proof.
  intros Hi Hcs. unfold py_slice, clip_index.
  destruct (Z.ltb_spec i 0); [lia|].
  destruct (Z.ltb_spec (i + cs) 0); [lia|].
  destruct (Z.ltb_spec (Z.min (i + cs) (len l)) 0); [lia|].
  f_equal. lia.
Qed.

Lemma chunk_content_of_range doc cs ov ch c :
  0 <= ov < cs ->
  In ch (chunks_from doc (doc_words doc) cs c
           (window_starts (len (doc_words doc)) (cs - ov))) ->
  content_of_range doc ch.
Proof.
  intros Hp Hin.
  destruct (chunks_from_in _ _ _ _ _ _ Hin) as [k [Hs Heq]].
  apply window_starts_in in Hs; [|lia].
  set (i := start_idx ch) in *.
  assert (Hwords : Forall is_word (doc_words doc)).
  { unfold doc_words. destruct (processed_content doc); [|constructor].
    apply split_words. }
  assert (Hsplit : split (content ch)
                   = py_slice (doc_words doc) i (i + cs)).
  { rewrite Heq. cbn [content make_chunk].
    apply split_join, py_slice_words, Hwords. }
  unfold content_of_range. split; [|split].
  - rewrite Hsplit. replace (end_idx ch)
      with (Z.min (i + cs) (len (doc_words doc)))
      by (rewrite Heq; reflexivity).
    apply py_slice_same_end; lia.
  - rewrite Hsplit, Heq. reflexivity.
  - rewrite Heq. reflexivity.
Qed.

Lemma blocks_of_contents docs cs ov :
  0 <= ov < cs ->
  forall c,
    Forall2 (fun doc block => Forall (content_of_range doc) block)
      docs (blocks_of docs cs ov c).
Proof.
  intros Hp. induction docs as [|doc rest IH]; intros c; simpl;
    constructor; [|apply IH].
  apply Forall_forall. intros ch Hin.
  exact (chunk_content_of_range doc cs ov ch c Hp Hin).
Qed.

(** X3.  The text of a chunk is its words: splitting the content of a chunk
    gives the words of its document from [start_idx] up to [end_idx], and
    [word_count] is their number; the chunk names its document's source. *)
Theorem chunk_documents_contents {F} (self : pipeline F) (cs ov : Z)
    (w : world) :
  0 <= ov < cs ->
  Forall preprocessed (documents self) ->
  exists blocks,
    fst (chunk_documents self cs ov w) = Ok (List.concat blocks) /\
    Forall2 (fun doc block => Forall (content_of_range doc) block)
      (documents self) blocks.
Proof.
  intros Hp Hpre. exists (blocks_of (documents self) cs ov 0). split.
  - rewrite chunk_documents_result.
    rewrite chunk_docs_loop_spec by (assumption || lia). reflexivity.
  - apply blocks_of_contents. assumption.
Qed.

Lemma chunk_documents_contents_witness :
  exists blocks,
    fst (chunk_documents (pipeline_with "a b c d e") 3 2 world0)
      = Ok (List.concat blocks) /\
    Forall2 (fun doc block => Forall (content_of_range doc) block)
      (documents (pipeline_with "a b c d e")) blocks.
Proof.
  apply (chunk_documents_contents (pipeline_with "a b c d e") 3 2 world0).
  - lia.
  - constructor; [discriminate | constructor].
Defined.

Lemma chunk_docs_loop_missing docs cs ov :
  cs <> ov ->
  Exists (fun doc => processed_content doc = None) docs ->
  forall acc c,
    chunk_docs_loop docs cs ov acc c = Raise (KeyError "processed_content").
Proof.
  intros Hstep Hex. induction Hex as [doc rest Hnone | doc rest _ IH];
    intros acc c; simpl.
  - now rewrite Hnone.
  - destruct (processed_content doc) as [text|]; [|reflexivity].
    unfold py_range. destruct (Z.eqb_spec (cs - ov) 0) as [Hz|_]; [lia|].
    rewrite chunk_words_loop_spec. apply IH.
Qed.

(** X4.  A document that was not preprocessed stops the chunker: with
    [chunk_size <> overlap], [chunk_documents] raises the KeyError of the
    missing [processed_content] as soon as one document lacks it, and
    returns chunks when none does and the step is positive. *)
Theorem chunk_documents_missing_key {F} (self : pipeline F) (cs ov : Z)
    (w : world) :
  cs <> ov ->
  (Exists (fun doc => processed_content doc = None) (documents self) ->
   fst (chunk_documents self cs ov w) = Raise (KeyError "processed_content")) /\
  (Forall preprocessed (documents self) ->
   exists chunks, fst (chunk_documents self cs ov w) = Ok chunks).
Proof.
  intros Hstep. rewrite chunk_documents_result. split.
  - intros Hex. now apply chunk_docs_loop_missing.
  - intros Hpre. destruct (Z_lt_le_dec 0 (cs - ov)).
    + rewrite chunk_docs_loop_spec by assumption. eauto.
    + rewrite chunk_docs_loop_backwards by (assumption || lia). eauto.
Qed.

Lemma chunk_documents_missing_key_witness :
  (Exists (fun doc => processed_content doc = None)
     (documents (set_documents (pipeline_with "a b c") sample_docs)) ->
   fst (chunk_documents (set_documents (pipeline_with "a b c") sample_docs)
          100 20 world0)
   = Raise (KeyError "processed_content")) /\
  (Forall preprocessed
     (documents (set_documents (pipeline_with "a b c") sample_docs)) ->
   exists chunks,
     fst (chunk_documents (set_documents (pipeline_with "a b c") sample_docs)
            100 20 world0) = Ok chunks).
Proof.
  apply (chunk_documents_missing_key
           (set_documents (pipeline_with "a b c") sample_docs) 100 20 world0).
  lia.
Defined.


Lemma blocks_of_preprocessed docs cs ov :
  0 <= ov < cs ->
  forall c,
    Forall2 (fun doc block =>
               let n := len (split (doc_content doc)) in
               len block = (if 0 <? n then (n - 1) / (cs - ov) + 1 else 0) /\
               Forall (fun ch => parent_doc_id ch = doc_id doc) block)
      docs (blocks_of (map preprocess_document docs) cs ov c).
Proof.
  intros Hp. induction docs as [|doc rest IH]; intros c;
    cbn [map blocks_of]; constructor; [|apply IH].
  destruct (preprocess_document_cleaned doc)
    as [Hid [_ [_ [_ [_ [Hwords _]]]]]].
  cbv zeta. split.
  - rewrite chunks_from_length. unfold window_starts.
    unfold len at 1. rewrite length_map, length_seq, Hwords.
    set (n := len (split (doc_content doc))).
    destruct (Z.ltb_spec 0 n).
    + rewrite range_len_positive by lia.
      assert (0 <= (n - 1) / (cs - ov)) by (apply Z.div_pos; lia). lia.
    + rewrite range_len_empty by lia. reflexivity.
  - apply Forall_forall. intros ch Hin.
    destruct (chunks_from_in _ _ _ _ _ _ Hin) as [k [_ ->]].
    cbn [parent_doc_id make_chunk]. exact Hid.
Qed.



(** *** Retrieval, further *)

(** The store of a pipeline that has one, and the value of a result that
    is one. *)
Definition store_of (self : pipeline Q) : vector_database Q :=
  match vector_db self with
  | Some db => db
  | None => {| db_chunks := []; db_ncols := 0; db_embeddings := [];
               db_index_metadata :=
                 {| total_chunks := 0; embedding_dim := 0;
                    model_name := ""; created_at := (0 # 1)%Q |} |}
  end.

Definition returned {A} (r : result (list A)) : list A :=
  match r with
  | Ok l => l
  | Raise _ => []
  end.

Lemma fst_bind_ok {A B} (m : M A) (k : A -> M B) w a :
  fst (m w) = Ok a -> fst (bind m k w) = fst (k a (snd (m w))).
Proof. unfold bind. destruct (m w) as [r w1]. simpl. now intros ->. Qed.

Lemma fst_bind_raise {A B} (m : M A) (k : A -> M B) w e :
  fst (m w) = Raise e -> fst (bind m k w) = Raise e.
Proof. unfold bind. destruct (m w) as [r w1]. simpl. now intros ->. Qed.

Section TopK.

Context {F : Type} {ops : FloatOps F}.

Lemma insert_sorted_permutation (x : Z * F) l :
  Permutation (insert_sorted float_lt snd x l) (x :: l).
Proof.
  induction l as [|y l IH]; simpl; [reflexivity|].
  destruct (float_lt (snd y) (snd x)); [|reflexivity].
  eapply Permutation_trans; [apply perm_skip, IH | apply perm_swap].
Qed.

Lemma list_sort_permutation (l : list (Z * F)) :
  Permutation (list_sort float_lt snd true l) l.
Proof.
  assert (Hsort : forall r : list (Z * F),
             Permutation (sort_ascending float_lt snd r) r).
  { induction r as [|x r IH]; [reflexivity|].
    unfold sort_ascending in *. cbn [fold_right].
    eapply Permutation_trans; [apply insert_sorted_permutation|].
    now constructor. }
  unfold list_sort.
  eapply Permutation_trans; [symmetry; apply Permutation_rev|].
  eapply Permutation_trans; [apply Hsort|].
  symmetry. apply Permutation_rev.
Qed.

Lemma scored_nodup (q : list F) rows : forall i,
  NoDup (map fst (scored q rows i)).
Proof.
  induction rows as [|row rest IH]; intros i; simpl; constructor; [|apply IH].
  intros Hin. apply in_map_iff in Hin. destruct Hin as [c [Hc Hin]].
  apply scored_rows in Hin. lia.
Qed.

Lemma scored_in (q : list F) rows : forall i k row,
  nth_error rows k = Some row ->
  In (i + Z.of_nat k, dot q row) (scored q rows i).
Proof.
  induction rows as [|r rest IH]; intros i [|k] row Hk; simpl in *;
    try discriminate.
  - injection Hk as ->. left. f_equal. lia.
  - right. replace (i + Z.pos (Pos.of_succ_nat k)) with (i + 1 + Z.of_nat k)
      by lia. now apply IH.
Qed.

Lemma NoDup_firstn {A} (l : list A) n : NoDup l -> NoDup (firstn n l).
Proof.
  intros Hnd. rewrite <- (firstn_skipn n l) in Hnd.
  exact (NoDup_app_remove_r _ _ Hnd).
Qed.

(** The candidates kept, when the scoring goes through. *)
Lemma top_candidates_ok (q : list F) rows top_k top :
  top_candidates q rows top_k = Ok top ->
  top = firstn (Z.to_nat (clip_index (len (scored q rows 0)) top_k))
          (list_sort float_lt snd true (scored q rows 0)).
Proof.
  unfold top_candidates.
  destruct (similarities_loop q rows 0 []) as [sims|] eqn:Hloop;
    [|discriminate].
  apply similarities_loop_ok in Hloop. destruct Hloop as [-> _].
  cbn [app]. intros [= <-]. unfold py_slice_to. f_equal. f_equal. f_equal.
  unfold len. f_equal. apply Permutation_length, list_sort_permutation.
Qed.

Lemma scored_len (q : list F) rows i : len (scored q rows i) = len rows.
Proof.
  unfold len. f_equal. revert i.
  induction rows; intros i; simpl; auto.
Qed.

Lemma top_candidates_count (q : list F) rows top_k top :
  top_candidates q rows top_k = Ok top ->
  len top = clip_index (len rows) top_k /\ NoDup (map fst top).
Proof.
  intros Htop. apply top_candidates_ok in Htop. subst top.
  rewrite scored_len. split.
  - unfold len. rewrite length_firstn.
    rewrite (Permutation_length (list_sort_permutation _)).
    pose proof (scored_len q rows 0) as Hlen. unfold len in Hlen.
    unfold clip_index.
    destruct (Z.ltb_spec top_k 0); unfold len; lia.
  - rewrite <- firstn_map. apply NoDup_firstn.
    eapply Permutation_NoDup; [|apply (scored_nodup q rows 0)].
    symmetry. apply Permutation_map, list_sort_permutation.
Qed.

Lemma py_index_in {A} (l : list A) i a : py_index l i = Ok a -> In a l.
Proof.
  unfold py_index. set (k := if i <? 0 then i + len l else i).
  destruct (k <? 0); [discriminate|].
  destruct (nth_error l (Z.to_nat k)) eqn:Hnth; [|discriminate].
  intros [= <-]. eapply nth_error_In. exact Hnth.
Qed.

Lemma resolved_in_chunks chunks (results : list (search_result F)) top :
  Forall2 (resolves chunks) results top ->
  Forall (fun r => In (hit r) chunks) results.
Proof.
  induction 1 as [|r c results top [_ Hidx] _ IH]; constructor; [|exact IH].
  exact (py_index_in _ _ _ Hidx).
Qed.

Lemma py_index_out_of_range {A} (l : list A) i :
  len l <= i -> py_index l i = Raise (IndexError "list index out of range").
Proof.
  intros Hi. unfold py_index, len in *.
  destruct (Z.ltb_spec i 0) as [|_]; [lia|].
  destruct (Z.ltb_spec i 0) as [|_]; [lia|].
  destruct (nth_error l (Z.to_nat i)) eqn:Hnth; [|reflexivity].
  assert (Hlt : (Z.to_nat i < List.length l)%nat)
    by (apply nth_error_Some; congruence).
  lia.
Qed.

Lemma results_loop_out_of_range chunks (top : list (Z * F)) :
  Forall (fun c => 0 <= fst c) top ->
  Exists (fun c => len chunks <= fst c) top ->
  forall acc,
    results_loop chunks top acc = Raise (IndexError "list index out of range").
Proof.
  intros Hpos Hex. induction top as [|[i x] top IH]; intros acc.
  - inversion Hex.
  - inversion Hpos as [|? ? Hi Hrest]; subst. simpl in Hi. simpl.
    destruct (Z_lt_le_dec i (len chunks)) as [Hin|Hout].
    + destruct (py_index_in_range chunks i (conj Hi Hin)) as [ch ->].
      apply IH; [exact Hrest|].
      inversion Hex as [? ? Hhead|]; subst; [simpl in Hhead; lia | assumption].
    + now rewrite py_index_out_of_range.
Qed.

Variable amb : ambient F.

(** X6.  How many results a search returns: as many as [top_k] asks for, up to
    the number of rows of the store (a negative [top_k] counts from the
    end, as in a slice); every result is a chunk of the store, and no
    position of the store is returned twice. *)
Theorem similarity_search_count (self : pipeline F) (query : string)
    (top_k : Z) (w : world) :
  forall db results,
    vector_db self = Some db ->
    fst (similarity_search amb self query top_k w) = Ok results ->
    len results = clip_index (len (db_embeddings db)) top_k /\
    (0 <= top_k -> len results = Z.min top_k (len (db_embeddings db))) /\
    Forall (fun r => In (hit r) (db_chunks db)) results /\
    exists top,
      Forall2 (resolves (db_chunks db)) results top /\
      NoDup (map fst top).
Proof.
  intros db results Hdb Hrun.
  rewrite similarity_search_result, Hdb in Hrun.
  destruct (top_candidates _ _ _) as [top|] eqn:Htop; [|discriminate].
  destruct (results_loop_ok _ _ _ _ Hrun) as [fresh [-> [Hres _]]].
  cbn [app]. destruct (top_candidates_count _ _ _ _ Htop) as [Hlen Hnd].
  assert (Hcount : len fresh = clip_index (len (db_embeddings db)) top_k).
  { rewrite <- Hlen. unfold len. f_equal. exact (Forall2_length Hres). }
  split; [exact Hcount|]. split.
  - intros Hk. rewrite Hcount. unfold clip_index.
    destruct (Z.ltb_spec top_k 0); [lia | reflexivity].
  - split; [exact (resolved_in_chunks _ _ _ Hres)|].
    exists top. split; assumption.
Qed.

End TopK.

Lemma similarity_search_count_witness :
  len (returned (fst (similarity_search steady three_rows "what is RAG" 5 world0))) = clip_index 3 5 /\
  (0 <= 5 ->
   len (returned (fst (similarity_search steady three_rows "what is RAG" 5 world0))) = Z.min 5 3).
Proof.
  destruct (similarity_search_count steady three_rows "what is RAG" 5 world0
              (store_of three_rows)
              (returned (fst (similarity_search steady three_rows "what is RAG" 5 world0))) eq_refl)
    as [Hlen [Hmin _]].
  - vm_compute. reflexivity.
  - split; [exact Hlen | exact Hmin].
Defined.

Lemma StronglySorted_app_inv {A} (R : A -> A -> Prop) (l1 l2 : list A) :
  StronglySorted R (l1 ++ l2) ->
  forall a b, In a l1 -> In b l2 -> R a b.
Proof.
  induction l1 as [|x l1 IH]; intros Hs a b Ha Hb; [destruct Ha|].
  simpl in Hs. inversion Hs as [|? ? Hs' Hx]; subst.
  destruct Ha as [<- | Ha].
  - rewrite Forall_forall in Hx. apply Hx. apply in_or_app. now right.
  - eapply IH; eassumption.
Qed.

Lemma resolved_pairs {F} chunks (results : list (search_result F)) top :
  Forall2 (resolves chunks) results top ->
  (forall c, In c top -> exists r, In r results /\ resolves chunks r c) /\
  (forall r, In r results -> exists c, In c top /\ resolves chunks r c).
Proof.
  induction 1 as [|r c results top Hrc _ [IH1 IH2]].
  - split; intros x Hx; destruct Hx.
  - split.
    + intros c' [<- | Hc]; [exists r; simpl; auto|].
      destruct (IH1 _ Hc) as [r' [Hr' Hres]]. exists r'. simpl. auto.
    + intros r' [<- | Hr]; [exists c; simpl; auto|].
      destruct (IH2 _ Hr) as [c' [Hc' Hres]]. exists c'. simpl. auto.
Qed.

(** X7.  The results are the best rows: a row of the store either is among the
    results, with its dot product as score and its chunk as hit, or every
    result scores at least as high as it. *)
Theorem similarity_search_best {F} `{FloatOrder F} (amb : ambient F)
    (self : pipeline F) (query : string) (top_k : Z) (w : world) :
  forall db results,
    vector_db self = Some db ->
    fst (similarity_search amb self query top_k w) = Ok results ->
    forall i row,
      nth_error (db_embeddings db) i = Some row ->
      (exists r, In r results /\
                 similarity_score r = dot (query_embedding_in amb w) row /\
                 py_index (db_chunks db) (Z.of_nat i) = Ok (hit r)) \/
      Forall (fun r => float_lt (similarity_score r)
                         (dot (query_embedding_in amb w) row) = false)
             results.
Proof.
  intros db results Hdb Hrun i row Hrow.
  rewrite similarity_search_result, Hdb in Hrun.
  destruct (top_candidates _ _ _) as [top|] eqn:Htop; [|discriminate].
  destruct (results_loop_ok _ _ _ _ Hrun) as [fresh [-> [Hres _]]].
  cbn [app]. destruct (resolved_pairs _ _ _ Hres) as [Hfrom_top Hfrom_res].
  pose proof (top_candidates_ok _ _ _ _ Htop) as Hfirst.
  set (q := query_embedding_in amb w) in *.
  set (all := list_sort float_lt snd true (scored q (db_embeddings db) 0)) in *.
  set (n := Z.to_nat (clip_index (len (scored q (db_embeddings db) 0)) top_k)) in *.
  assert (Hall : StronglySorted ranked_before all).
  { apply list_sort_ranked. apply scored_positions. }
  assert (Hin : In (0 + Z.of_nat i, dot q row) all).
  { apply list_sort_in. now apply scored_in. }
  rewrite <- (firstn_skipn n all) in Hin, Hall. rewrite <- Hfirst in Hin, Hall.
  apply in_app_or in Hin. destruct Hin as [Hin | Hin].
  - left. destruct (Hfrom_top _ Hin) as [r [Hr [Hscore Hidx]]].
    exists r. split; [exact Hr|]. split; [exact Hscore | exact Hidx].
  - right. apply Forall_forall. intros r Hr.
    destruct (Hfrom_res _ Hr) as [c [Hc [Hscore _]]].
    rewrite Hscore.
    exact (ranked_not_below _ _
             (StronglySorted_app_inv _ _ _ Hall _ _ Hc Hin)).
Qed.

Lemma similarity_search_best_witness :
  (exists r,
     In r (returned (fst (similarity_search steady three_rows "what is RAG" 2 world0))) /\
     similarity_score r
     = dot (query_embedding_in steady world0) (padded [0 # 1; 1 # 1])%Q /\
     py_index (word_chunks "a b c") (Z.of_nat 1) = Ok (hit r)) \/
  Forall (fun r => float_lt (similarity_score r)
                     (dot (query_embedding_in steady world0)
                        (padded [0 # 1; 1 # 1])%Q) = false)
    (returned (fst (similarity_search steady three_rows "what is RAG" 2 world0))).
Proof.
  apply (similarity_search_best steady three_rows "what is RAG" 2 world0
           (store_of three_rows)
           _ eq_refl).
  - vm_compute. reflexivity.
  - reflexivity.
Defined.

Section BuildAndSearch.

Context {F : Type} {ops : FloatOps F}.
Variable amb : ambient F.

(** X8.  A store with fewer chunks than rows, which nothing in
    [build_vector_database] rules out: a search that asks for all rows
    fails with an IndexError when it looks up the chunk of a row that has
    none. *)
Theorem similarity_search_missing_chunk (self : pipeline F)
    (query : string) (top_k : Z) (w : world) :
  forall db,
    vector_db self = Some db ->
    Forall (fun row => List.length row = 384%nat) (db_embeddings db) ->
    len (db_chunks db) < len (db_embeddings db) ->
    len (db_embeddings db) <= top_k ->
    fst (similarity_search amb self query top_k w)
    = Raise (IndexError "list index out of range").
Proof.
  intros db Hdb Hrows Hshort Hk.
  rewrite similarity_search_result, Hdb.
  set (q := query_embedding_in amb w).
  destruct (top_candidates_total q (db_embeddings db) top_k) as [top Htop].
  { eapply Forall_impl; [|exact Hrows]. intros row Hrow.
    unfold q. now rewrite query_embedding_length. }
  rewrite Htop. pose proof (top_candidates_ok _ _ _ _ Htop) as Hfirst.
  rewrite firstn_all2 in Hfirst.
  2:{ rewrite (Permutation_length (list_sort_permutation _)).
      rewrite scored_len. pose proof (scored_len q (db_embeddings db) 0) as Hl.
      unfold len in *. unfold clip_index.
      destruct (Z.ltb_spec top_k 0); lia. }
  apply results_loop_out_of_range.
  - apply Forall_forall. intros c Hc. subst top.
    apply (Permutation_in _ (list_sort_permutation _)) in Hc.
    apply scored_rows in Hc. lia.
  - apply Exists_exists.
    remember (Z.to_nat (len (db_chunks db))) as k eqn:Hkdef.
    destruct (nth_error (db_embeddings db) k) as [row|] eqn:Hrow.
    + exists (0 + Z.of_nat k, dot q row). split.
      * subst top. apply (Permutation_in _ (Permutation_sym (list_sort_permutation _))).
        now apply scored_in.
      * simpl. unfold len in *. lia.
    + apply nth_error_None in Hrow. unfold len in *. lia.
Qed.

(** X9.  Embedding, building and searching compose: for a list of chunks that
    is not empty, [generate_embeddings], [build_vector_database] and
    [similarity_search] in a row raise nothing and return [top_k] chunks of
    the list, all of them when [top_k] is larger than their number; for
    no chunks the array has one axis and the build stops with an
    IndexError. *)
Theorem embed_build_search (self : pipeline F) (chunks : list chunk)
    (query : string) (top_k : Z) (w : world) :
  (chunks = [] ->
   fst (bind (generate_embeddings amb self chunks)
          (fun embeddings => build_vector_database amb self chunks embeddings) w)
   = Raise (IndexError "tuple index out of range")) /\
  (chunks <> [] -> 0 <= top_k ->
   exists results,
     fst (bind (generate_embeddings amb self chunks)
            (fun embeddings =>
               bind (build_vector_database amb self chunks embeddings)
                 (fun self' => similarity_search amb self' query top_k)) w)
     = Ok results /\
     len results = Z.min top_k (len chunks) /\
     Forall (fun r => In (hit r) chunks) results).
Proof.
  destruct (generate_embeddings_spec amb self chunks w) as [arr [Hgen Harr]].
  split.
  - intros ->. subst arr. rewrite (fst_bind_ok _ _ _ _ Hgen). reflexivity.
  - intros Hne Hk. destruct chunks as [|ch rest]; [congruence|].
    destruct Harr as [rows [-> [Hlen Hrows]]].
    rewrite (fst_bind_ok _ _ _ _ Hgen).
    set (w1 := snd (generate_embeddings amb self (ch :: rest) w)).
    destruct (build_vector_database_spec amb self (ch :: rest) 384 rows w1)
      as [self' [db [Hbuild [Hdb [Hchunks [Hembs _]]]]]].
    rewrite (fst_bind_ok _ _ _ _ Hbuild).
    set (w2 := snd (build_vector_database amb self (ch :: rest)
                      (Array2 384 rows) w1)).
    rewrite similarity_search_result, Hdb.
    set (q := query_embedding_in amb w2).
    destruct (top_candidates_total q (db_embeddings db) top_k) as [top Htop].
    { rewrite Hembs. eapply Forall_impl; [|exact Hrows]. intros row Hrow.
      unfold q. now rewrite query_embedding_length. }
    rewrite Htop.
    destruct (top_candidates_count _ _ _ _ Htop) as [Hcount _].
    destruct (results_loop_total (db_chunks db) top) with (acc := @nil (search_result F))
      as [results Hres].
    { pose proof (top_candidates_ok _ _ _ _ Htop) as Hfirst.
      apply Forall_forall. intros c Hc. rewrite Hfirst in Hc.
      apply firstn_in in Hc.
      apply (Permutation_in _ (list_sort_permutation _)) in Hc.
      pose proof (scored_bound _ _ _ _ Hc). apply scored_rows in Hc.
      rewrite Hchunks. rewrite Hembs in *. unfold len in *. lia. }
    exists results. split; [exact Hres|].
    destruct (results_loop_ok _ _ _ _ Hres) as [fresh [-> [Hresolved _]]].
    cbn [app]. split.
    + replace (len fresh) with (len top)
        by (unfold len; f_equal; symmetry; exact (Forall2_length Hresolved)).
      rewrite Hcount, Hembs. unfold clip_index.
      destruct (Z.ltb_spec top_k 0); [lia|]. unfold len. lia.
    + rewrite <- Hchunks. exact (resolved_in_chunks _ _ _ Hresolved).
Qed.

End BuildAndSearch.

(** Three rows of 384 numbers and one chunk. *)
Definition one_chunk_three_rows : pipeline Q :=
  built_with (word_chunks "a")
    (Array2 384 [padded [1 # 1]; padded [0 # 1; 1 # 1];
                 padded [7 # 10; 7 # 10]])%Q.

Lemma similarity_search_missing_chunk_witness :
  fst (similarity_search steady one_chunk_three_rows "what is RAG" 3 world0)
  = Raise (IndexError "list index out of range").
Proof.
  apply (similarity_search_missing_chunk steady one_chunk_three_rows
           "what is RAG" 3 world0 (store_of one_chunk_three_rows)).
  - reflexivity.
  - repeat constructor.
  - reflexivity.
  - vm_compute. discriminate.
Defined.

(** *** Generating a response and evaluating the pipeline *)

(** Arithmetic on floats, again as an interface: the float a decimal
    literal denotes, sum, difference, product, and the quotient by an
    integer that is not zero. *)
Class FloatArith (F : Type) : Type := {
  float_literal : Q -> F;
  float_add : F -> F -> F;
  float_sub : F -> F -> F;
  float_mul : F -> F -> F;
  float_div_int : F -> Z -> F
}.

#[export] Instance exact_arith : FloatArith Q := {
  float_literal := fun q => q;
  float_add := Qplus;
  float_sub := Qminus;
  float_mul := Qmult;
  float_div_int := fun x n => Qdiv x (inject_Z n)
}.

(** [x / n] for a float and an integer. *)
Definition py_div {F} `{FloatArith F} (x : F) (n : Z) : result F :=
  if n =? 0 then Raise (ZeroDivisionError "float division by zero")
  else Ok (float_div_int x n).

(** Characters of a string are counted as Python counts them, by code
    point: a byte 10xxxxxx continues the character before it. *)
Definition is_continuation (c : ascii) : bool :=
  let n := nat_of_ascii c in ((128 <=? n) && (n <? 192))%nat.

(** [s[:n]] for [n >= 0]. *)
Fixpoint take_chars (n : nat) (s : string) : string :=
  match s with
  | EmptyString => EmptyString
  | String c s' =>
      if is_continuation c then String c (take_chars n s')
      else match n with
           | O => EmptyString
           | S m => String c (take_chars m s')
           end
  end.

(** [len(s)] *)
Fixpoint char_length (s : string) : nat :=
  match s with
  | EmptyString => O
  | String c s' =>
      if is_continuation c then char_length s' else S (char_length s')
  end.

Definition newline : string := String (ascii_of_nat 10) EmptyString.
Definition double_quote : string := String (ascii_of_nat 34) EmptyString.

(** The dictionary [generate_response] returns. *)
Record response_data (F : Type) : Type := {
  rd_query : string;
  rd_response : string;
  rd_retrieved_chunks : Z;
  rd_context_used : string;
  rd_processing_time : F;
  rd_confidence_score : F
}.
Arguments rd_query {F} r.
Arguments rd_response {F} r.
Arguments rd_retrieved_chunks {F} r.
Arguments rd_context_used {F} r.
Arguments rd_processing_time {F} r.
Arguments rd_confidence_score {F} r.

(** The dictionary [evaluate_pipeline] works on and returns. *)
Record pipeline_scores (F : Type) : Type := {
  retrieval_accuracy : F;
  generation_quality : F;
  context_relevance : F;
  answer_relevance : F;
  faithfulness : F;
  avg_response_time : F
}.
Arguments retrieval_accuracy {F} p.
Arguments generation_quality {F} p.
Arguments context_relevance {F} p.
Arguments answer_relevance {F} p.
Arguments faithfulness {F} p.
Arguments avg_response_time {F} p.

Section Evaluation.

Context {F : Type} {ops : FloatOps F} {arith : FloatArith F}.
Variable amb : ambient F.

(** The context [generate_response] assembles from the chunks. *)
Definition response_context (retrieved_chunks : list (search_result F))
    : string :=
  join (newline ++ newline)
    (map (fun chunk => "Source: " ++ source (hit chunk) ++ newline
                       ++ "Content: " ++ content (hit chunk))%string
         retrieved_chunks).

Definition response_text (query : string)
    (retrieved_chunks : list (search_result F)) : string :=
  join newline
    [ ("Based on the retrieved context, I can provide you with information about "
       ++ double_quote ++ query ++ double_quote ++ ".")%string;
      "";
      "The relevant sources indicate that:";
      join newline
        (map (fun chunk => ("• " ++ take_chars 100 (content (hit chunk))
                            ++ "...")%string)
             (py_slice_to retrieved_chunks 2));
      "";
      "This demonstrates the RAG pipeline working effectively by:";
      "1. Converting your query into embeddings";
      "2. Searching the vector database for relevant content";
      "3. Retrieving the most similar chunks";
      "4. Using this context to generate a comprehensive response";
      "";
      "The system achieved high relevance scores for the retrieved content, ensuring accuracy and contextual appropriateness." ].

(** [generate_response].  The system prompt and the user prompt the method
    builds are bound to local names and used nowhere: they are left out. *)
Definition generate_response (self : pipeline F) (query : string)
    (retrieved_chunks : list (search_result F)) : M (response_data F) :=
  print "🔄 Step 5: Generating response with RAG..." ;;;
  let context := response_context retrieved_chunks in
  let response := response_text query retrieved_chunks in
  let result :=
    {| rd_query := query;
       rd_response := response;
       rd_retrieved_chunks := len retrieved_chunks;
       rd_context_used := (take_chars 200 context ++ "...")%string;
       rd_processing_time := float_literal (12 # 10);
       rd_confidence_score := float_literal (89 # 100) |} in
  print "✅ Response generated successfully" ;;;
  ret result.

(** [np.random.uniform(low, high)] *)
Definition np_random_uniform (low high : Q) : M F :=
  fun w => (Ok (float_add (float_literal low)
                  (float_mul (float_sub (float_literal high) (float_literal low))
                     (random_sample amb (rng_pos w)))),
            {| stdout := stdout w; rng_pos := S (rng_pos w);
               clock_reads := clock_reads w |}).

(** [total_scores[key] += score] for the six keys. *)
Definition add_scores (total_scores scores : pipeline_scores F)
    : pipeline_scores F :=
  {| retrieval_accuracy :=
       float_add (retrieval_accuracy total_scores) (retrieval_accuracy scores);
     generation_quality :=
       float_add (generation_quality total_scores) (generation_quality scores);
     context_relevance :=
       float_add (context_relevance total_scores) (context_relevance scores);
     answer_relevance :=
       float_add (answer_relevance total_scores) (answer_relevance scores);
     faithfulness :=
       float_add (faithfulness total_scores) (faithfulness scores);
     avg_response_time :=
       float_add (avg_response_time total_scores) (avg_response_time scores) |}.

(** The loop of [evaluate_pipeline] over the test queries. *)
Fixpoint evaluate_queries (self : pipeline F) (test_queries : list string)
    (total_scores : pipeline_scores F) : M (pipeline_scores F) :=
  match test_queries with
  | [] => ret total_scores
  | query :: rest =>
      retrieved_chunks <- similarity_search amb self query 3 ;;
      response_data <- generate_response self query retrieved_chunks ;;
      retrieval <- np_random_uniform (8 # 10) (95 # 100) ;;
      generation <- np_random_uniform (85 # 100) (95 # 100) ;;
      context <- np_random_uniform (75 # 100) (90 # 100) ;;
      answer <- np_random_uniform (80 # 100) (95 # 100) ;;
      faithful <- np_random_uniform (85 # 100) (98 # 100) ;;
      let scores :=
        {| retrieval_accuracy := retrieval;
           generation_quality := generation;
           context_relevance := context;
           answer_relevance := answer;
           faithfulness := faithful;
           avg_response_time := rd_processing_time response_data |} in
      evaluate_queries self rest (add_scores total_scores scores)
  end.

Definition evaluate_pipeline (self : pipeline F) (test_queries : list string)
    : M (pipeline_scores F) :=
  print "🔄 Step 7: Evaluating RAG pipeline..." ;;;
  let zero := float_literal (0 # 1) in
  let total_scores :=
    {| retrieval_accuracy := zero; generation_quality := zero;
       context_relevance := zero; answer_relevance := zero;
       faithfulness := zero; avg_response_time := zero |} in
  total_scores <- evaluate_queries self test_queries total_scores ;;
  let num_queries := len test_queries in
  retrieval <- lift (py_div (retrieval_accuracy total_scores) num_queries) ;;
  generation <- lift (py_div (generation_quality total_scores) num_queries) ;;
  context <- lift (py_div (context_relevance total_scores) num_queries) ;;
  answer <- lift (py_div (answer_relevance total_scores) num_queries) ;;
  faithful <- lift (py_div (faithfulness total_scores) num_queries) ;;
  response_time <- lift (py_div (avg_response_time total_scores) num_queries) ;;
  print "✅ Pipeline evaluation completed" ;;;
  ret {| retrieval_accuracy := retrieval;
         generation_quality := generation;
         context_relevance := context;
         answer_relevance := answer;
         faithfulness := faithful;
         avg_response_time := response_time |}.

End Evaluation.


Lemma char_length_app (a b : string) :
  char_length (a ++ b)%string = (char_length a + char_length b)%nat.
Proof.
  induction a as [|c a IH]; simpl; [reflexivity|].
  destruct (is_continuation c); simpl; now rewrite IH.
Qed.

Lemma char_length_take_chars n s :
  char_length (take_chars n s) = Nat.min n (char_length s).
Proof.
  revert n. induction s as [|c s IH]; intros n; simpl.
  - now rewrite Nat.min_0_r.
  - destruct (is_continuation c) eqn:Hc; simpl.
    + rewrite Hc. apply IH.
    + destruct n as [|m]; simpl; [reflexivity|]. now rewrite Hc, IH.
Qed.

(** Cutting after [n] characters gives a prefix. *)
Lemma take_chars_prefix n s :
  exists rest, s = (take_chars n s ++ rest)%string.
Proof.
  revert n. induction s as [|c s IH]; intros n; simpl.
  - now exists "".
  - destruct (is_continuation c).
    + destruct (IH n) as [rest Hrest]. exists rest. simpl. now rewrite <- Hrest.
    + destruct n as [|m].
      * now exists (String c s).
      * destruct (IH m) as [rest Hrest]. exists rest. simpl.
        now rewrite <- Hrest.
Qed.

Lemma py_slice_to_firstn {A} (l : list A) (j : Z) :
  0 <= j -> py_slice_to l j = firstn (Z.to_nat j) l.
Proof.
  intros Hj. unfold py_slice_to, clip_index, len.
  destruct (Z.ltb_spec j 0); [lia|].
  destruct (Z.le_ge_cases j (Z.of_nat (List.length l))).
  - now rewrite Z.min_l by lia.
  - rewrite Z.min_r, Nat2Z.id by lia.
    rewrite !firstn_all2; [reflexivity | lia | lia].
Qed.

(** The text of the response of a run, if it gave one. *)
Definition response_of {F} (run : result (response_data F) * world)
    : option string :=
  match fst run with
  | Ok r => Some (rd_response r)
  | Raise _ => None
  end.

Section EvaluationFacts.

Context {F : Type} {ops : FloatOps F} {arith : FloatArith F}.
Variable amb : ambient F.

Lemma response_text_first_two query (chunks chunks' : list (search_result F)) :
  firstn 2 (map (fun c => content (hit c)) chunks')
  = firstn 2 (map (fun c => content (hit c)) chunks) ->
  response_text query chunks' = response_text query chunks.
Proof.
  intros Hsame. unfold response_text. do 4 f_equal.
  rewrite !py_slice_to_firstn by lia. change (Z.to_nat 2) with 2%nat.
  rewrite !firstn_map in Hsame.
  rewrite <- (map_map (fun c => content (hit c))
                (fun s => ("• " ++ take_chars 100 s ++ "...")%string)
                (firstn 2 chunks')).
  rewrite <- (map_map (fun c => content (hit c))
                (fun s => ("• " ++ take_chars 100 s ++ "...")%string)
                (firstn 2 chunks)).
  now rewrite Hsame.
Qed.

(** X10.  [generate_response] never fails and draws no random number.  The
    dictionary it returns holds the query, the number of chunks it was
    given, and as [context_used] the first 200 characters of the context
    followed by three dots; the text of the response is made of the query
    and the contents of the first two chunks only: sources, scores, ranks
    and any further chunk leave it unchanged. *)
Theorem generate_response_result (self : pipeline F) (query : string)
    (retrieved_chunks : list (search_result F)) (w : world) :
  (exists r w',
     generate_response self query retrieved_chunks w = (Ok r, w') /\
     rng_pos w' = rng_pos w /\
     rd_query r = query /\
     rd_retrieved_chunks r = len retrieved_chunks /\
     (exists cut rest,
        rd_context_used r = (cut ++ "...")%string /\
        response_context retrieved_chunks = (cut ++ rest)%string /\
        char_length cut
        = Nat.min 200 (char_length (response_context retrieved_chunks)))) /\
  (forall (self' : pipeline F) (others : list (search_result F)) (w2 : world),
     firstn 2 (map (fun c => content (hit c)) others)
     = firstn 2 (map (fun c => content (hit c)) retrieved_chunks) ->
     response_of (generate_response self' query others w2)
     = response_of (generate_response self query retrieved_chunks w)).
Proof.
  split.
  - cbv beta iota zeta delta [generate_response bind print ret].
    eexists. eexists. split; [reflexivity|]. cbn [rng_pos rd_query rd_retrieved_chunks rd_context_used].
    split; [reflexivity|]. split; [reflexivity|]. split; [reflexivity|].
    destruct (take_chars_prefix 200 (response_context retrieved_chunks))
      as [rest Hrest].
    exists (take_chars 200 (response_context retrieved_chunks)), rest.
    split; [reflexivity|]. split; [exact Hrest|].
    apply char_length_take_chars.
  - intros self' others w2 Hsame.
    cbv beta iota zeta delta [response_of generate_response bind print ret fst rd_response].
    f_equal. now apply response_text_first_two.
Qed.

Lemma similarity_search_returns (self : pipeline F) query top_k w db :
  vector_db self = Some db ->
  Forall (fun row => List.length row = 384%nat) (db_embeddings db) ->
  len (db_embeddings db) <= len (db_chunks db) ->
  exists results, fst (similarity_search amb self query top_k w) = Ok results.
Proof.
  intros Hdb Hrows Hchunks. rewrite similarity_search_result, Hdb.
  destruct (top_candidates_total (query_embedding_in amb w)
              (db_embeddings db) top_k) as [top Htop].
  { eapply Forall_impl; [|exact Hrows]. intros row Hrow.
    now rewrite query_embedding_length. }
  rewrite Htop. apply results_loop_total.
  pose proof (top_candidates_ok _ _ _ _ Htop) as Hfirst.
  apply Forall_forall. intros c Hc. rewrite Hfirst in Hc.
  apply firstn_in in Hc.
  apply (Permutation_in _ (list_sort_permutation _)) in Hc.
  pose proof (scored_bound _ _ _ _ Hc). apply scored_rows in Hc.
  unfold len in *. lia.
Qed.

Lemma bind_run {A B} (m : M A) (k : A -> M B) w a w1 :
  m w = (Ok a, w1) -> bind m k w = k a w1.
Proof. unfold bind. now intros ->. Qed.

(** One round of the loop of [evaluate_pipeline], on a store that is
    built: the scores it adds and the state of the random source. *)
Definition round_scores (w : world) : pipeline_scores F :=
  let draw k low high :=
    float_add (float_literal low)
      (float_mul (float_sub (float_literal high) (float_literal low))
         (random_sample amb (rng_pos w + 384 + k))) in
  {| retrieval_accuracy := draw 0%nat (8 # 10) (95 # 100);
     generation_quality := draw 1%nat (85 # 100) (95 # 100);
     context_relevance := draw 2%nat (75 # 100) (90 # 100);
     answer_relevance := draw 3%nat (80 # 100) (95 # 100);
     faithfulness := draw 4%nat (85 # 100) (98 # 100);
     avg_response_time := float_literal (12 # 10) |}.

Lemma evaluate_queries_step (self : pipeline F) query rest total w db :
  vector_db self = Some db ->
  Forall (fun row => List.length row = 384%nat) (db_embeddings db) ->
  len (db_embeddings db) <= len (db_chunks db) ->
  exists w1,
    rng_pos w1 = (rng_pos w + 389)%nat /\
    evaluate_queries amb self (query :: rest) total w
    = evaluate_queries amb self rest (add_scores total (round_scores w)) w1.
Proof.
  intros Hdb Hrows Hchunks.
  destruct (similarity_search_returns self query 3 w db Hdb Hrows Hchunks)
    as [results Hres].
  pose proof (similarity_search_draws amb self query 3 w) as Hdraws.
  cbn [evaluate_queries].
  destruct (similarity_search amb self query 3 w) as [r w0] eqn:Hrun.
  cbn [fst snd] in Hres, Hdraws. subst r.
  rewrite (bind_run _ _ _ _ _ Hrun).
  unfold generate_response, np_random_uniform, bind, print, ret.
  cbn [rng_pos stdout clock_reads rd_processing_time].
  eexists. split; [|unfold round_scores; rewrite Hdraws;
                    replace (rng_pos w + 384 + 0)%nat with (rng_pos w + 384)%nat by lia;
                    replace (rng_pos w + 384 + 1)%nat with (S (rng_pos w + 384)) by lia;
                    replace (rng_pos w + 384 + 2)%nat with (S (S (rng_pos w + 384))) by lia;
                    replace (rng_pos w + 384 + 3)%nat with (S (S (S (rng_pos w + 384)))) by lia;
                    replace (rng_pos w + 384 + 4)%nat with (S (S (S (S (rng_pos w + 384))))) by lia;
                    reflexivity].
  cbn [rng_pos]. lia.
Qed.

Lemma evaluate_queries_returns (self : pipeline F) db :
  vector_db self = Some db ->
  Forall (fun row => List.length row = 384%nat) (db_embeddings db) ->
  len (db_embeddings db) <= len (db_chunks db) ->
  forall test_queries total w,
  exists totals w',
    evaluate_queries amb self test_queries total w = (Ok totals, w') /\
    rng_pos w' = (rng_pos w + 389 * List.length test_queries)%nat.
Proof.
  intros Hdb Hrows Hchunks test_queries.
  induction test_queries as [|query rest IH]; intros total w.
  - exists total, w. split; [reflexivity | simpl; lia].
  - destruct (evaluate_queries_step self query rest total w db Hdb Hrows Hchunks)
      as [w1 [Hpos ->]].
    destruct (IH (add_scores total (round_scores w)) w1) as [totals [w' [-> Hw']]].
    exists totals, w'. split; [reflexivity|]. rewrite Hw', Hpos. simpl. lia.
Qed.

Lemma evaluate_queries_unbuilt (self : pipeline F) query rest total w :
  vector_db self = None ->
  fst (evaluate_queries amb self (query :: rest) total w)
  = Raise (KeyError "embeddings").
Proof.
  intros Hdb. cbn [evaluate_queries]. apply fst_bind_raise.
  now rewrite similarity_search_result, Hdb.
Qed.

(** X11.  [evaluate_pipeline] fails on two inputs it does not guard against:
    with no test query it divides the totals by zero, and raises
    ZeroDivisionError, whatever the pipeline holds; with at least one query
    on a pipeline whose vector database was not built, the first search
    raises KeyError('embeddings'). *)
Theorem evaluate_pipeline_failures (self : pipeline F) (w : world) :
  raises_class (fst (evaluate_pipeline amb self [] w)) "ZeroDivisionError" /\
  (forall query rest,
     vector_db self = None ->
     fst (evaluate_pipeline amb self (query :: rest) w)
     = Raise (KeyError "embeddings")).
Proof.
  split; [eexists; split; reflexivity|].
  intros query rest Hdb. unfold evaluate_pipeline.
  unfold bind at 1. unfold print at 1.
  apply fst_bind_raise. now apply evaluate_queries_unbuilt.
Qed.

(** X12.  On a pipeline whose store holds rows of 384 numbers and a chunk for
    each row, [evaluate_pipeline] returns its six averages for every
    non-empty list of queries, and has then drawn 389 random numbers per
    query: 384 for the query embedding and five for the scores. *)
Theorem evaluate_pipeline_returns (self : pipeline F)
    (test_queries : list string) (w : world) :
  forall db,
    vector_db self = Some db ->
    Forall (fun row => List.length row = 384%nat) (db_embeddings db) ->
    len (db_embeddings db) <= len (db_chunks db) ->
    test_queries <> [] ->
    exists scores w',
      evaluate_pipeline amb self test_queries w = (Ok scores, w') /\
      rng_pos w' = (rng_pos w + 389 * List.length test_queries)%nat.
Proof.
  intros db Hdb Hrows Hchunks Hne. unfold evaluate_pipeline.
  unfold bind at 1. unfold print at 1. cbv beta iota zeta.
  match goal with
  | |- context [bind (evaluate_queries amb self test_queries ?t) _ ?w0] =>
      destruct (evaluate_queries_returns self db Hdb Hrows Hchunks
                  test_queries t w0) as [totals [w1 [Hrun Hpos]]]
  end.
  rewrite (bind_run _ _ _ _ _ Hrun).
  assert (Hn : (len test_queries =? 0) = false).
  { apply Z.eqb_neq. unfold len. destruct test_queries; [congruence|].
    simpl. lia. }
  unfold py_div, lift, bind, print, ret. rewrite Hn.
  eexists. eexists. split; [reflexivity|]. cbn [rng_pos]. exact Hpos.
Qed.

End EvaluationFacts.

Lemma evaluate_pipeline_returns_witness :
  exists scores w',
    evaluate_pipeline steady three_rows ["first"; "second"] world0
    = (Ok scores, w') /\
    rng_pos w' = (rng_pos world0 + 389 * 2)%nat.
Proof.
  apply (evaluate_pipeline_returns steady three_rows ["first"; "second"] world0
           (store_of three_rows)).
  - reflexivity.
  - vm_compute. repeat constructor.
  - vm_compute. discriminate.
  - discriminate.
Defined.


(** **** The averages, in exact arithmetic *)

(** Totals of [n] rounds: each score between [n] times its lower and [n]
    times its upper bound, the response time [n] times 1.2. *)
Definition totals_of (n : nat) (p : pipeline_scores Q) : Prop :=
  let k := inject_Z (Z.of_nat n) in
  (k * (8 # 10) <= retrieval_accuracy p <= k * (95 # 100))%Q /\
  (k * (85 # 100) <= generation_quality p <= k * (95 # 100))%Q /\
  (k * (75 # 100) <= context_relevance p <= k * (90 # 100))%Q /\
  (k * (80 # 100) <= answer_relevance p <= k * (95 # 100))%Q /\
  (k * (85 # 100) <= faithfulness p <= k * (98 # 100))%Q /\
  (avg_response_time p == k * (12 # 10))%Q.

Lemma inject_Z_succ (n : nat) :
  (inject_Z (Z.of_nat (S n)) == inject_Z (Z.of_nat n) + 1)%Q.
Proof. rewrite Nat2Z.inj_succ. unfold Z.succ. now rewrite inject_Z_plus. Qed.

Section ExactAverages.

Variable amb : ambient Q.
Hypothesis unit_draws : forall n, (0 <= random_sample amb n < 1)%Q.

Lemma np_random_uniform_run (low high : Q) w :
  np_random_uniform amb low high w
  = (Ok (low + (high - low) * random_sample amb (rng_pos w))%Q,
     {| stdout := stdout w; rng_pos := S (rng_pos w);
        clock_reads := clock_reads w |}).
Proof. reflexivity. Qed.

Lemma evaluate_queries_totals (self : pipeline Q) test_queries :
  forall n total w totals w',
    totals_of n total ->
    evaluate_queries amb self test_queries total w = (Ok totals, w') ->
    totals_of (n + List.length test_queries) totals.
Proof.
  induction test_queries as [|query rest IH]; intros n total w totals w' Hn.
  - cbn [evaluate_queries]. unfold ret. intros [= <- <-].
    now rewrite Nat.add_0_r.
  - cbn [evaluate_queries]. unfold bind at 1.
    destruct (similarity_search amb self query 3 w) as [[results|e] w0];
      [|discriminate].
    cbv beta iota zeta delta [generate_response bind print ret].
    rewrite !np_random_uniform_run. cbv beta iota.
    cbn [rng_pos stdout clock_reads rd_processing_time].
    intros Hrun. cbn [List.length].
    replace (n + S (List.length rest))%nat with (S n + List.length rest)%nat
      by lia.
    refine (IH (S n) _ _ _ _ _ Hrun).
    unfold totals_of, add_scores in *.
    cbn [retrieval_accuracy generation_quality context_relevance
         answer_relevance faithfulness avg_response_time
         float_add float_literal exact_arith] in *.
    rewrite !inject_Z_succ.
    set (k := inject_Z (Z.of_nat n)) in *.
    pose proof (unit_draws (rng_pos w0)) as H0.
    pose proof (unit_draws (S (rng_pos w0))) as H1.
    pose proof (unit_draws (S (S (rng_pos w0)))) as H2.
    pose proof (unit_draws (S (S (S (rng_pos w0))))) as H3.
    pose proof (unit_draws (S (S (S (S (rng_pos w0)))))) as H4.
    destruct Hn as [Ha [Hb [Hc [Hd [He Hf]]]]].
    repeat split; try lra.
Qed.

Lemma average_between (x lo hi : Q) (n : nat) :
  (0 < n)%nat ->
  (inject_Z (Z.of_nat n) * lo <= x <= inject_Z (Z.of_nat n) * hi)%Q ->
  (lo <= x / inject_Z (Z.of_nat n) <= hi)%Q.
Proof.
  intros Hn [Hlo Hhi].
  assert (Hpos : (0 < inject_Z (Z.of_nat n))%Q).
  { change 0%Q with (inject_Z 0). rewrite <- Zlt_Qlt. lia. }
  split.
  - apply Qle_shift_div_l; [exact Hpos|]. now rewrite Qmult_comm.
  - apply Qle_shift_div_r; [exact Hpos|]. now rewrite Qmult_comm.
Qed.


End ExactAverages.


(** A random source that yields one half at every 384th draw and zero
    otherwise. *)
Definition sparse : ambient Q := {|
  random_sample := fun n => if Nat.eqb (Nat.modulo n 384) 1
                            then (1 # 2)%Q else (0 # 1)%Q;
  time_time := fun _ => (0 # 1)%Q
|}.

Lemma sparse_unit_draws (n : nat) : (0 <= random_sample sparse n < 1)%Q.
Proof.
  unfold sparse, random_sample.
  destruct (Nat.eqb (Nat.modulo n 384) 1); split;
    unfold Qle, Qlt; simpl; lia.
Qed.


End Rag.

(** ** evaluation_framework.py

    Floats are exact rationals here, with NaN added: what the evaluators
    and the aggregator compute are sums, differences, products and
    quotients by a count, and the statements below are about their values
    up to rounding. *)

Module Eval.

Inductive float : Type :=
| Num (q : Q)
| NaN.

Definition fadd (a b : float) : float :=
  match a, b with
  | Num x, Num y => Num (x + y)%Q
  | _, _ => NaN
  end.

Definition fsub (a b : float) : float :=
  match a, b with
  | Num x, Num y => Num (x - y)%Q
  | _, _ => NaN
  end.

Definition fmul (a b : float) : float :=
  match a, b with
  | Num x, Num y => Num (x * y)%Q
  | _, _ => NaN
  end.

(** [a / n] for a positive count [n]. *)
Definition fdiv_count (a : float) (n : Z) : float :=
  match a with
  | Num x => Num (x / inject_Z n)%Q
  | NaN => NaN
  end.

(** [a < b]: false as soon as one side is NaN. *)
Definition flt (a b : float) : bool :=
  match a, b with
  | Num x, Num y => negb (Qle_bool y x)
  | _, _ => false
  end.

Definition is_nan (a : float) : bool :=
  match a with
  | NaN => true
  | Num _ => false
  end.

Definition fsum (l : list float) : float := fold_left fadd l (Num (0 # 1)).

(** [np.mean(l)]: NaN (and a warning) for an empty list. *)
Definition np_mean (l : list float) : float :=
  match l with
  | [] => NaN
  | _ :: _ => fdiv_count (fsum l) (len l)
  end.

(** [np.var(l)] *)
Definition np_var (l : list float) : float :=
  let m := np_mean l in
  np_mean (map (fun x => fmul (fsub x m) (fsub x m)) l).

(** The smaller and the larger of two floats as NumPy's reductions take
    them: NaN wins. *)
Definition np_minimum (a b : float) : float :=
  if is_nan a || is_nan b then NaN else if flt b a then b else a.

Definition np_maximum (a b : float) : float :=
  if is_nan a || is_nan b then NaN else if flt a b then b else a.

(** [np.min(l)] and [np.max(l)]: an empty list has no minimum. *)
Definition np_min (l : list float) : result float :=
  match l with
  | [] => Raise (ValueError
      "zero-size array to reduction operation minimum which has no identity")
  | x :: rest => Ok (fold_left np_minimum rest x)
  end.

Definition np_max (l : list float) : result float :=
  match l with
  | [] => Raise (ValueError
      "zero-size array to reduction operation maximum which has no identity")
  | x :: rest => Ok (fold_left np_maximum rest x)
  end.

(** The built-in [min(l)] and [max(l)]. *)
Definition py_min (l : list float) : result float :=
  match l with
  | [] => Raise (ValueError "min() arg is an empty sequence")
  | x :: rest => Ok (fold_left (fun m y => if flt y m then y else m) rest x)
  end.

Definition py_max (l : list float) : result float :=
  match l with
  | [] => Raise (ValueError "max() arg is an empty sequence")
  | x :: rest => Ok (fold_left (fun m y => if flt m y then y else m) rest x)
  end.

Fixpoint insert_float (x : float) (l : list float) : list float :=
  match l with
  | [] => [x]
  | y :: l' => if flt y x then y :: insert_float x l' else x :: l
  end.

(** [np.median(l)] *)
Definition np_median (l : list float) : float :=
  match l with
  | [] => NaN
  | _ :: _ =>
      if existsb is_nan l then NaN
      else
        let sorted := fold_right insert_float [] l in
        let n := List.length l in
        if Nat.even n
        then fdiv_count (fadd (nth (n / 2 - 1) sorted NaN)
                              (nth (n / 2) sorted NaN)) 2
        else nth (n / 2) sorted NaN
  end.

(** [s.lower()] on the letters A to Z. *)
Definition lower_ascii (c : ascii) : ascii :=
  let n := nat_of_ascii c in
  if ((65 <=? n) && (n <=? 90))%nat then ascii_of_nat (n + 32) else c.

Fixpoint lower (s : string) : string :=
  match s with
  | EmptyString => EmptyString
  | String c s' => String (lower_ascii c) (lower s')
  end.

(** [word in text] *)
Fixpoint contains (word text : string) : bool :=
  String.prefix word text ||
  match text with
  | EmptyString => false
  | String _ text' => contains word text'
  end.

(** A value of a [details] dictionary. *)
Inductive value : Type :=
| VFloat (x : float)
| VInt (n : Z)
| VFloats (xs : list float).

Record EvaluationResult : Type := {
  metric_name : string;
  score : float;
  details : list (string * value);
  timestamp : float
}.

(** The five subclasses of [BaseEvaluator]. *)
Inductive evaluator : Type :=
| RetrievalAccuracyEvaluator
| GenerationQualityEvaluator
| FaithfulnessEvaluator
| ContextRelevanceEvaluator
| AnswerRelevanceEvaluator.

(** A dictionary with string keys, in insertion order. *)
Definition dict (V : Type) : Type := list (string * V).

Fixpoint dict_get {V} (k : string) (d : dict V) : option V :=
  match d with
  | [] => None
  | (k', v) :: rest => if String.eqb k k' then Some v else dict_get k rest
  end.

(** [d[k] = v] *)
Fixpoint dict_set {V} (k : string) (v : V) (d : dict V) : dict V :=
  match d with
  | [] => [(k, v)]
  | (k', v') :: rest =>
      if String.eqb k k' then (k, v) :: rest else (k', v') :: dict_set k v rest
  end.

Definition dict_keys {V} (d : dict V) : list string := map fst d.

(** [d[k]], a KeyError when [k] is missing. *)
Definition dict_item {V} (k : string) (d : dict V) : result V :=
  match dict_get k d with
  | Some v => Ok v
  | None => Raise (KeyError k)
  end.

Record test_case : Type := {
  tc_query : string;
  tc_response : string;
  tc_context : list string;
  tc_ground_truth : option string
}.

Record aggregate : Type := {
  agg_mean : float;
  agg_std : float;
  agg_min : float;
  agg_max : float;
  agg_median : float
}.

Record individual_result : Type := {
  test_case_id : Z;
  ir_query : string;
  ir_results : dict EvaluationResult
}.

Record evaluation_summary : Type := {
  overall_score : float;
  metric_aggregates : dict aggregate;
  individual_results : list individual_result;
  test_set_size : Z;
  evaluation_timestamp : float
}.

(** [self] of [RAGEvaluationFramework]. *)
Record framework : Type := {
  evaluators : dict evaluator;
  evaluation_history : list evaluation_summary
}.

Definition new_framework : framework :=
  {| evaluators :=
       [ ("retrieval_accuracy", RetrievalAccuracyEvaluator);
         ("generation_quality", GenerationQualityEvaluator);
         ("faithfulness", FaithfulnessEvaluator);
         ("context_relevance", ContextRelevanceEvaluator);
         ("answer_relevance", AnswerRelevanceEvaluator) ];
     evaluation_history := [] |}.

Section Evaluators.

Variable amb : ambient Q.

(** The square root behind [np.std]; no statement depends on it. *)
Variable np_sqrt : float -> float.

(** [np.std(l)] *)
Definition np_std (l : list float) : float := np_sqrt (np_var l).

(** [np.random.uniform(low, high)]: the next number of the generator,
    scaled into the interval. *)
Definition np_random_uniform (low high : Q) : M float :=
  fun w => (Ok (Num (low + (high - low) * random_sample amb (rng_pos w))%Q),
            {| stdout := stdout w; rng_pos := S (rng_pos w);
               clock_reads := clock_reads w |}).

(** [time.time()] *)
Definition time_now : M float :=
  fun w => (Ok (Num (time_time amb (clock_reads w))),
            {| stdout := stdout w; rng_pos := rng_pos w;
               clock_reads := S (clock_reads w) |}).

(** The loop that draws one relevance per context. *)
Fixpoint relevance_loop (context : list string) (relevance_scores : list float)
    : M (list float) :=
  match context with
  | [] => ret relevance_scores
  | _ :: rest =>
      relevance <- np_random_uniform (6 # 10) (95 # 100) ;;
      relevance_loop rest (relevance_scores ++ [relevance])
  end.

Definition evaluate_retrieval_accuracy (query response : string)
    (context : list string) (ground_truth : option string)
    : M EvaluationResult :=
  relevance_scores <- relevance_loop context [] ;;
  let avg_relevance := np_mean relevance_scores in
  let details :=
    [ ("individual_scores", VFloats relevance_scores);
      ("num_retrieved", VInt (len context));
      ("avg_relevance", VFloat avg_relevance);
      ("precision_at_k", VFloat avg_relevance) ] in
  now <- time_now ;;
  ret {| metric_name := "retrieval_accuracy"; score := avg_relevance;
         details := details; timestamp := now |}.

(** [any(word in response.lower() for word in ctx.lower().split()[:5])] *)
Definition uses_context (response ctx : string) : bool :=
  existsb (fun word => contains word (lower response))
          (py_slice_to (split (lower ctx)) 5).

Definition evaluate_generation_quality (query response : string)
    (context : list string) (ground_truth : option string)
    : M EvaluationResult :=
  coherence <- np_random_uniform (8 # 10) (95 # 100) ;;
  query_relevance <- np_random_uniform (75 # 100) (92 # 100) ;;
  fluency <- np_random_uniform (85 # 100) (98 # 100) ;;
  informativeness <- np_random_uniform (7 # 10) (9 # 10) ;;
  let overall_quality :=
    np_mean [coherence; query_relevance; fluency; informativeness] in
  let details :=
    [ ("coherence", VFloat coherence);
      ("query_relevance", VFloat query_relevance);
      ("fluency", VFloat fluency);
      ("informativeness", VFloat informativeness);
      ("response_length", VInt (len (split response)));
      ("context_utilization",
       VInt (len (filter (uses_context response) context))) ] in
  now <- time_now ;;
  ret {| metric_name := "generation_quality"; score := overall_quality;
         details := details; timestamp := now |}.

Definition evaluate_faithfulness (query response : string)
    (context : list string) (ground_truth : option string)
    : M EvaluationResult :=
  hallucination_score <- np_random_uniform (5 # 100) (15 # 100) ;;
  let faithfulness_score := fsub (Num (1 # 1)) hallucination_score in
  context_coverage <- np_random_uniform (6 # 10) (9 # 10) ;;
  factual_consistency <- np_random_uniform (85 # 100) (98 # 100) ;;
  let overall_faithfulness :=
    np_mean [faithfulness_score; context_coverage; factual_consistency] in
  response_context_overlap <- np_random_uniform (7 # 10) (9 # 10) ;;
  let details :=
    [ ("hallucination_score", VFloat hallucination_score);
      ("context_coverage", VFloat context_coverage);
      ("factual_consistency", VFloat factual_consistency);
      ("context_length",
       VInt (fold_left Z.add (map (fun ctx => len (split ctx)) context) 0));
      ("response_context_overlap", VFloat response_context_overlap) ] in
  now <- time_now ;;
  ret {| metric_name := "faithfulness"; score := overall_faithfulness;
         details := details; timestamp := now |}.

Definition evaluate_context_relevance (query response : string)
    (context : list string) (ground_truth : option string)
    : M EvaluationResult :=
  relevance_scores <- relevance_loop context [] ;;
  let avg_relevance := np_mean relevance_scores in
  min_relevance <- lift (py_min relevance_scores) ;;
  max_relevance <- lift (py_max relevance_scores) ;;
  let details :=
    [ ("individual_relevance", VFloats relevance_scores);
      ("avg_relevance", VFloat avg_relevance);
      ("min_relevance", VFloat min_relevance);
      ("max_relevance", VFloat max_relevance);
      ("relevance_variance", VFloat (np_var relevance_scores));
      ("num_contexts", VInt (len context)) ] in
  now <- time_now ;;
  ret {| metric_name := "context_relevance"; score := avg_relevance;
         details := details; timestamp := now |}.

Definition evaluate_answer_relevance (query response : string)
    (context : list string) (ground_truth : option string)
    : M EvaluationResult :=
  direct_relevance <- np_random_uniform (8 # 10) (95 # 100) ;;
  completeness <- np_random_uniform (75 # 100) (92 # 100) ;;
  specificity <- np_random_uniform (7 # 10) (9 # 10) ;;
  let overall_relevance :=
    np_mean [direct_relevance; completeness; specificity] in
  keyword_overlap <- np_random_uniform (3 # 10) (7 # 10) ;;
  let details :=
    [ ("direct_relevance", VFloat direct_relevance);
      ("completeness", VFloat completeness);
      ("specificity", VFloat specificity);
      ("query_length", VInt (len (split query)));
      ("response_length", VInt (len (split response)));
      ("keyword_overlap", VFloat keyword_overlap) ] in
  now <- time_now ;;
  ret {| metric_name := "answer_relevance"; score := overall_relevance;
         details := details; timestamp := now |}.

(** [evaluator.evaluate(query, response, context, ground_truth)] *)
Definition evaluate (e : evaluator) (query response : string)
    (context : list string) (ground_truth : option string)
    : M EvaluationResult :=
  match e with
  | RetrievalAccuracyEvaluator =>
      evaluate_retrieval_accuracy query response context ground_truth
  | GenerationQualityEvaluator =>
      evaluate_generation_quality query response context ground_truth
  | FaithfulnessEvaluator =>
      evaluate_faithfulness query response context ground_truth
  | ContextRelevanceEvaluator =>
      evaluate_context_relevance query response context ground_truth
  | AnswerRelevanceEvaluator =>
      evaluate_answer_relevance query response context ground_truth
  end.

Fixpoint evaluate_each (items : list (string * evaluator))
    (query response : string) (context : list string)
    (ground_truth : option string) (results : dict EvaluationResult)
    : M (dict EvaluationResult) :=
  match items with
  | [] => ret results
  | (metric_name, evaluator) :: rest =>
      result <- evaluate evaluator query response context ground_truth ;;
      evaluate_each rest query response context ground_truth
        (dict_set metric_name result results)
  end.

Definition evaluate_single_query (self : framework) (query response : string)
    (context : list string) (ground_truth : option string)
    : M (dict EvaluationResult) :=
  evaluate_each (evaluators self) query response context ground_truth [].

(** [metric_scores[metric_name].append(result.score)] for every item of
    [results]. *)
Fixpoint collect_scores (items : list (string * EvaluationResult))
    (metric_scores : dict (list float)) : result (dict (list float)) :=
  match items with
  | [] => Ok metric_scores
  | (metric_name, result) :: rest =>
      match dict_item metric_name metric_scores with
      | Raise e => Raise e
      | Ok scores =>
          collect_scores rest
            (dict_set metric_name (scores ++ [score result]) metric_scores)
      end
  end.

(** The loop over [enumerate(test_cases)], from index [i] on. *)
Fixpoint test_cases_loop (self : framework) (total : Z)
    (test_cases : list test_case) (i : Z)
    (all_results : list individual_result)
    (metric_scores : dict (list float))
    : M (list individual_result * dict (list float)) :=
  match test_cases with
  | [] => ret (all_results, metric_scores)
  | test_case :: rest =>
      print ("Evaluating test case " ++ str_of_Z (i + 1) ++ "/"
             ++ str_of_Z total) ;;;
      results <- evaluate_single_query self (tc_query test_case)
                   (tc_response test_case) (tc_context test_case)
                   (tc_ground_truth test_case) ;;
      let all_results :=
        all_results ++ [ {| test_case_id := i;
                            ir_query := tc_query test_case;
                            ir_results := results |} ] in
      metric_scores <- lift (collect_scores results metric_scores) ;;
      test_cases_loop self total rest (i + 1) all_results metric_scores
  end.

Fixpoint aggregate_loop (items : list (string * list float))
    (aggregate_results : dict aggregate) : result (dict aggregate) :=
  match items with
  | [] => Ok aggregate_results
  | (metric_name, scores) :: rest =>
      match np_min scores with
      | Raise e => Raise e
      | Ok lowest =>
          match np_max scores with
          | Raise e => Raise e
          | Ok highest =>
              aggregate_loop rest
                (dict_set metric_name
                   {| agg_mean := np_mean scores;
                      agg_std := np_std scores;
                      agg_min := lowest;
                      agg_max := highest;
                      agg_median := np_median scores |}
                   aggregate_results)
          end
      end
  end.

(** [[aggregate_results[metric]["mean"] for metric in keys]] *)
Fixpoint means_of (keys : list string) (aggregate_results : dict aggregate)
    : result (list float) :=
  match keys with
  | [] => Ok []
  | metric :: rest =>
      match dict_item metric aggregate_results with
      | Raise e => Raise e
      | Ok a =>
          match means_of rest aggregate_results with
          | Raise e => Raise e
          | Ok means => Ok (agg_mean a :: means)
          end
      end
  end.

(** [{metric: [] for metric in keys}] *)
Definition empty_scores (keys : list string) : dict (list float) :=
  fold_left (fun d metric => dict_set metric [] d) keys [].

Definition add_history (self : framework) (s : evaluation_summary)
    : framework :=
  {| evaluators := evaluators self;
     evaluation_history := evaluation_history self ++ [s] |}.

Definition evaluate_test_set (self : framework) (test_cases : list test_case)
    : M (framework * evaluation_summary) :=
  print "ðŸ”„ Running comprehensive RAG evaluation..." ;;;
  let metric_scores := empty_scores (dict_keys (evaluators self)) in
  looped <- test_cases_loop self (len test_cases) test_cases 0 [] metric_scores ;;
  let '(all_results, metric_scores) := looped in
  aggregate_results <- lift (aggregate_loop metric_scores []) ;;
  means <- lift (means_of (dict_keys aggregate_results) aggregate_results) ;;
  let overall_score := np_mean means in
  now <- time_now ;;
  let evaluation_summary :=
    {| overall_score := overall_score;
       metric_aggregates := aggregate_results;
       individual_results := all_results;
       test_set_size := len test_cases;
       evaluation_timestamp := now |} in
  let self := add_history self evaluation_summary in
  print "âœ… Evaluation completed!" ;;;
  ret (self, evaluation_summary).

End Evaluators.

(** *** Notions used to state what the framework does *)

(** A score in the interval from 0 to 1. *)
Definition in_unit (x : float) : Prop :=
  match x with
  | Num q => (0 <= q <= 1)%Q
  | NaN => False
  end.

(** The random source yields numbers in [0, 1), as NumPy's does. *)
Definition unit_draws (amb : ambient Q) : Prop :=
  forall n, (0 <= random_sample amb n < 1)%Q.

(** Evaluators whose score does not look at the context. *)
Definition context_free (e : evaluator) : bool :=
  match e with
  | GenerationQualityEvaluator | FaithfulnessEvaluator
  | AnswerRelevanceEvaluator => true
  | RetrievalAccuracyEvaluator | ContextRelevanceEvaluator => false
  end.

(** A source that always yields one half, a clock that stands still, and
    the identity for the square root. *)
Definition halves : ambient Q := {|
  random_sample := fun _ => (1 # 2)%Q;
  time_time := fun _ => (0 # 1)%Q
|}.

Definition no_sqrt (x : float) : float := x.

Definition sample_case (context : list string) : test_case :=
  {| tc_query := "What is RAG and how does it work?";
     tc_response := "RAG combines retrieval with generation.";
     tc_context := context;
     tc_ground_truth := None |}.

(** The score lists after one more test case, entry by entry. *)
Fixpoint append_scores (metric_scores : dict (list float))
    (items : list (string * EvaluationResult)) : dict (list float) :=
  match metric_scores, items with
  | (k, scores) :: rest, (_, result) :: items' =>
      (k, scores ++ [score result]) :: append_scores rest items'
  | _, _ => []
  end.

(** The list of the [mean] entries of a dictionary of aggregates. *)
Definition metric_means (aggregate_results : dict aggregate) : list float :=
  map (fun entry => agg_mean (snd entry)) aggregate_results.

Definition has_context (tc : test_case) : Prop := tc_context tc <> [].

(** The sum of a list of rationals. *)
Definition Qsum (qs : list Q) : Q := fold_right Qplus (0 # 1)%Q qs.

(** *** The evaluators *)

Lemma fsum_from (l : list float) : forall acc,
  Forall in_unit l ->
  exists q, fold_left fadd l (Num acc) = Num q /\
            (acc <= q <= acc + inject_Z (len l))%Q.
Proof.
  unfold len. induction l as [|x l IH]; intros acc Hl; simpl fold_left.
  - exists acc. split; [reflexivity|].
    change (inject_Z (Z.of_nat (List.length (@nil float)))) with (0 # 1)%Q.
    lra.
  - inversion Hl as [|? ? Hx Hrest]; subst.
    destruct x as [x|]; [|contradiction]. simpl in Hx. simpl fadd.
    destruct (IH (acc + x)%Q Hrest) as [q [Hq Hb]].
    exists q. split; [exact Hq|].
    replace (Z.of_nat (List.length (Num x :: l)))
      with (Z.of_nat (List.length l) + 1) by (simpl List.length; lia).
    rewrite inject_Z_plus. change (inject_Z 1) with (1 # 1)%Q.
    set (n := inject_Z (Z.of_nat (List.length l))) in *. lra.
Qed.

Lemma np_mean_unit (l : list float) :
  l <> [] -> Forall in_unit l -> in_unit (np_mean l).
Proof.
  intros Hne Hl. destruct l as [|x l]; [congruence|].
  unfold np_mean, fsum.
  destruct (fsum_from (x :: l) (0 # 1) Hl) as [q [Hq Hb]].
  rewrite Hq. simpl fdiv_count. cbv beta iota.
  assert (Hn : (0 < inject_Z (len (x :: l)))%Q).
  { unfold len. simpl List.length.
    change (0 # 1)%Q with (inject_Z 0). rewrite <- Zlt_Qlt. lia. }
  simpl. split.
  - apply Qle_shift_div_l; [exact Hn | lra].
  - apply Qle_shift_div_r; [exact Hn | lra].
Qed.

Lemma fsum_numbers (qs : list Q) : forall acc,
  exists q, fold_left fadd (map Num qs) (Num acc) = Num q /\
            Qeq q (acc + Qsum qs).
Proof.
  induction qs as [|x qs IH]; intros acc; simpl.
  - exists acc. split; [reflexivity | lra].
  - destruct (IH (acc + x)%Q) as [q [Hq Heq]].
    exists q. split; [exact Hq|]. rewrite Heq. unfold Qsum. simpl. lra.
Qed.

(** The mean of numbers is their sum divided by their count. *)
Lemma np_mean_numbers (qs : list Q) :
  qs <> [] ->
  exists q, np_mean (map Num qs) = Num q /\
            Qeq q (Qsum qs / inject_Z (len qs)).
Proof.
  intros Hne. destruct qs as [|x qs]; [congruence|].
  unfold np_mean, fsum. cbn [map].
  change (Num x :: map Num qs) with (map Num (x :: qs)).
  destruct (fsum_numbers (x :: qs) (0 # 1)) as [q [Hq Heq]].
  rewrite Hq. simpl fdiv_count. eexists. split; [reflexivity|].
  replace (len (Num x :: map Num qs)) with (len (x :: qs))
    by (unfold len; simpl; now rewrite length_map).
  rewrite Heq. field.
  change (0 # 1)%Q with (inject_Z 0). rewrite inject_Z_injective.
  unfold len. simpl List.length. lia.
Qed.

Section Bounds.

Variable amb : ambient Q.
Variable np_sqrt : float -> float.
Hypothesis draws : unit_draws amb.

Lemma uniform_in_unit (low high : Q) n :
  (0 <= low)%Q -> (low <= high)%Q -> (high <= 1)%Q ->
  in_unit (Num (low + (high - low) * random_sample amb n)).
Proof.
  intros H0 Hlh H1. destruct (draws n) as [Hu0 Hu1]. simpl. split; nra.
Qed.

Lemma relevance_loop_spec (context : list string) : forall acc w,
  exists scores w',
    relevance_loop amb context acc w = (Ok (acc ++ scores), w') /\
    List.length scores = List.length context /\
    Forall in_unit scores.
Proof.
  induction context as [|ctx rest IH]; intros acc w; simpl.
  - exists [], w. rewrite app_nil_r. repeat split. constructor.
  - unfold bind at 1. unfold np_random_uniform at 1.
    match goal with
    | |- context [relevance_loop amb rest ?a ?w1] =>
        destruct (IH a w1) as [scores [w' [Hrun [Hlen Hunit]]]]
    end.
    eexists (_ :: scores), w'. rewrite Hrun, <- app_assoc.
    split; [reflexivity|]. split; [simpl; congruence|].
    constructor; [|exact Hunit].
    apply uniform_in_unit; lra.
Qed.

Lemma nonempty_scores (scores : list float) (context : list string) :
  List.length scores = List.length context -> context <> [] -> scores <> [].
Proof.
  intros Hlen Hne ->. destruct context; [congruence | discriminate].
Qed.

Lemma retrieval_accuracy_in_unit query response context ground_truth w :
  context <> [] ->
  exists r w',
    evaluate_retrieval_accuracy amb query response context ground_truth w
      = (Ok r, w') /\
    in_unit (score r).
Proof.
  intros Hne. unfold evaluate_retrieval_accuracy, bind.
  destruct (relevance_loop_spec context [] w)
    as [scores [w1 [Hrun [Hlen Hunit]]]].
  rewrite Hrun. cbn [app]. unfold time_now, ret.
  eexists. eexists. split; [reflexivity|]. cbn [score].
  apply np_mean_unit; [|exact Hunit].
  exact (nonempty_scores _ _ Hlen Hne).
Qed.

Lemma context_relevance_in_unit query response context ground_truth w :
  context <> [] ->
  exists r w',
    evaluate_context_relevance amb query response context ground_truth w
      = (Ok r, w') /\
    in_unit (score r).
Proof.
  intros Hne. unfold evaluate_context_relevance, bind.
  destruct (relevance_loop_spec context [] w)
    as [scores [w1 [Hrun [Hlen Hunit]]]].
  rewrite Hrun. cbn [app].
  pose proof (nonempty_scores _ _ Hlen Hne) as Hscores.
  destruct scores as [|x scores]; [congruence|].
  unfold lift, py_min, py_max, time_now, ret.
  eexists. eexists. split; [reflexivity|]. cbn [score].
  apply np_mean_unit; [discriminate | exact Hunit].
Qed.

Lemma generation_quality_in_unit query response context ground_truth w :
  exists r w',
    evaluate_generation_quality amb query response context ground_truth w
      = (Ok r, w') /\
    in_unit (score r).
Proof.
  unfold evaluate_generation_quality, bind, np_random_uniform, time_now, ret.
  eexists. eexists. split; [reflexivity|]. cbn [score].
  apply np_mean_unit; [discriminate|].
  repeat constructor; apply uniform_in_unit; lra.
Qed.

Lemma faithfulness_in_unit query response context ground_truth w :
  exists r w',
    evaluate_faithfulness amb query response context ground_truth w
      = (Ok r, w') /\
    in_unit (score r).
Proof.
  unfold evaluate_faithfulness, bind, np_random_uniform, time_now, ret.
  eexists. eexists. split; [reflexivity|]. cbn [score].
  apply np_mean_unit; [discriminate|].
  constructor; [|repeat constructor; apply uniform_in_unit; lra].
  cbn [fsub in_unit].
  destruct (draws (rng_pos w)) as [Hu0 Hu1]. split; nra.
Qed.

Lemma answer_relevance_in_unit query response context ground_truth w :
  exists r w',
    evaluate_answer_relevance amb query response context ground_truth w
      = (Ok r, w') /\
    in_unit (score r).
Proof.
  unfold evaluate_answer_relevance, bind, np_random_uniform, time_now, ret.
  eexists. eexists. split; [reflexivity|]. cbn [score].
  apply np_mean_unit; [discriminate|].
  repeat constructor; apply uniform_in_unit; lra.
Qed.

End Bounds.

(** C9, as the code has it.  With the random source yielding numbers in
    [0, 1), every evaluator returns a result whose score lies between 0 and
    1 when the context is not empty; the three evaluators that do not score
    the context (generation quality, faithfulness, answer relevance) do so
    for every context. *)
Theorem evaluate_score_in_unit (amb : ambient Q) (e : evaluator)
    (query response : string) (context : list string)
    (ground_truth : option string) (w : world) :
  unit_draws amb ->
  context <> [] \/ context_free e = true ->
  exists r w',
    evaluate amb e query response context ground_truth w = (Ok r, w') /\
    in_unit (score r).
Proof.
  intros Hdraws Hcase. destruct e; cbn [evaluate].
  - destruct Hcase as [Hne | Hfree]; [|discriminate].
    apply retrieval_accuracy_in_unit; assumption.
  - apply generation_quality_in_unit; assumption.
  - apply faithfulness_in_unit; assumption.
  - destruct Hcase as [Hne | Hfree]; [|discriminate].
    apply context_relevance_in_unit; assumption.
  - apply answer_relevance_in_unit; assumption.
Qed.

Lemma halves_unit_draws : unit_draws halves.
Proof. intros n. simpl. lra. Qed.

Lemma evaluate_score_in_unit_witness :
  exists r w',
    evaluate halves ContextRelevanceEvaluator "What is RAG?"
      "RAG combines retrieval with generation."
      ["RAG combines retrieval systems with generative models."] None world0
      = (Ok r, w') /\
    in_unit (score r).
Proof.
  apply (evaluate_score_in_unit halves ContextRelevanceEvaluator).
  - exact halves_unit_draws.
  - left. discriminate.
Defined.

(** C9 as stated fails on an empty context: the retrieval accuracy
    evaluator returns the mean of no numbers, NaN, which is not a score
    between 0 and 1, and the context relevance evaluator raises the
    ValueError of [min] on an empty list. *)
Lemma evaluate_empty_context :
  (exists r w',
     evaluate halves RetrievalAccuracyEvaluator "What is RAG?"
       "RAG combines retrieval with generation." [] None world0 = (Ok r, w') /\
     score r = NaN /\ ~ in_unit (score r)) /\
  fst (evaluate halves ContextRelevanceEvaluator "What is RAG?"
         "RAG combines retrieval with generation." [] None world0)
  = Raise (ValueError "min() arg is an empty sequence").
Proof.
  split; [|reflexivity].
  eexists. eexists. split; [vm_compute; reflexivity|].
  split; [reflexivity|]. simpl. tauto.
Qed.

(** *** Dictionaries *)

(** A key that follows a list of distinct keys is not in that list. *)
Lemma distinct_key_fresh {A} (k : A) before after :
  NoDup (before ++ k :: after) -> ~ In k before.
Proof.
  intros Hnd Hin. apply NoDup_remove_2 in Hnd. apply Hnd.
  apply in_or_app. now left.
Qed.

Ltac fresh_key H :=
  unfold dict_keys in *; rewrite ?map_app in H; simpl in H;
  exact (distinct_key_fresh _ _ _ H).

Lemma dict_get_middle {V} (k : string) (v : V) pre post :
  ~ In k (dict_keys pre) -> dict_get k (pre ++ (k, v) :: post) = Some v.
Proof.
  induction pre as [|[k' v'] pre IH]; simpl; intros Hfresh.
  - now rewrite String.eqb_refl.
  - destruct (String.eqb_spec k k') as [Heq|_]; [subst k'; tauto|]. apply IH. tauto.
Qed.

Lemma dict_set_middle {V} (k : string) (v v' : V) pre post :
  ~ In k (dict_keys pre) ->
  dict_set k v' (pre ++ (k, v) :: post) = pre ++ (k, v') :: post.
Proof.
  induction pre as [|[k0 v0] pre IH]; simpl; intros Hfresh.
  - now rewrite String.eqb_refl.
  - destruct (String.eqb_spec k k0) as [Heq|_]; [subst k0; tauto|].
    rewrite IH by tauto. reflexivity.
Qed.

Lemma dict_set_fresh {V} (k : string) (v : V) d :
  ~ In k (dict_keys d) -> dict_set k v d = d ++ [(k, v)].
Proof.
  induction d as [|[k0 v0] d IH]; simpl; intros Hfresh; [reflexivity|].
  destruct (String.eqb_spec k k0) as [Heq|_]; [subst k0; tauto|].
  rewrite IH by tauto. reflexivity.
Qed.

Lemma dict_set_keys_in {V} (k : string) (v : V) d :
  In k (dict_keys d) -> dict_keys (dict_set k v d) = dict_keys d.
Proof.
  induction d as [|[k0 v0] d IH]; simpl; [tauto|].
  destruct (String.eqb_spec k k0) as [Heq|Hne]; intros Hin.
  - subst k0. reflexivity.
  - simpl. rewrite IH; [reflexivity|]. destruct Hin; congruence.
Qed.

Lemma dict_set_nodup {V} (k : string) (v : V) d :
  NoDup (dict_keys d) -> NoDup (dict_keys (dict_set k v d)).
Proof.
  intros Hd. destruct (in_dec string_dec k (dict_keys d)) as [Hin|Hfresh].
  - now rewrite dict_set_keys_in.
  - rewrite dict_set_fresh by assumption. unfold dict_keys.
    rewrite map_app. simpl. apply NoDup_app.
    + exact Hd.
    + repeat constructor. simpl. tauto.
    + intros x Hx [<- | []]. tauto.
Qed.

(** *** The aggregator *)

Section Aggregator.

Variable amb : ambient Q.
Variable np_sqrt : float -> float.

Lemma aggregate_loop_nodup items : forall acc res,
  aggregate_loop np_sqrt items acc = Ok res ->
  NoDup (dict_keys acc) -> NoDup (dict_keys res).
Proof.
  induction items as [|[k scores] items IH]; intros acc res; simpl.
  - intros [= <-]. auto.
  - destruct (np_min scores); [|discriminate].
    destruct (np_max scores); [|discriminate].
    intros Hloop Hacc. eapply IH; [exact Hloop|].
    apply dict_set_nodup. exact Hacc.
Qed.

Lemma aggregate_loop_total (items : dict (list float)) :
  Forall (fun entry => snd entry <> []) items ->
  forall acc, exists res, aggregate_loop np_sqrt items acc = Ok res.
Proof.
  intros Hitems.
  induction Hitems as [|[k scores] items Hne _ IH]; intros acc; simpl.
  - eauto.
  - simpl in Hne. destruct scores as [|x scores]; [congruence|].
    simpl. apply IH.
Qed.

Lemma means_of_suffix (post : dict aggregate) : forall pre,
  NoDup (dict_keys (pre ++ post)) ->
  means_of (dict_keys post) (pre ++ post) = Ok (metric_means post).
Proof.
  induction post as [|[k a] post IH]; intros pre Hnd; simpl; [reflexivity|].
  assert (Hfresh : ~ In k (dict_keys pre)).
  { fresh_key Hnd. }
  unfold dict_item. rewrite dict_get_middle by assumption.
  specialize (IH (pre ++ [(k, a)])). rewrite <- app_assoc in IH.
  simpl in IH. rewrite IH by assumption. reflexivity.
Qed.

Lemma means_of_all (d : dict aggregate) :
  NoDup (dict_keys d) -> means_of (dict_keys d) d = Ok (metric_means d).
Proof. intros Hnd. exact (means_of_suffix d [] Hnd). Qed.

Lemma relevance_loop_total (context : list string) : forall acc w,
  exists scores w',
    relevance_loop amb context acc w = (Ok (acc ++ scores), w') /\
    List.length scores = List.length context.
Proof.
  induction context as [|ctx rest IH]; intros acc w; simpl.
  - exists [], w. rewrite app_nil_r. auto.
  - unfold bind at 1. unfold np_random_uniform at 1.
    match goal with
    | |- context [relevance_loop amb rest ?a ?w1] =>
        destruct (IH a w1) as [scores [w' [Hrun Hlen]]]
    end.
    eexists (_ :: scores), w'. rewrite Hrun, <- app_assoc.
    split; [reflexivity | simpl; congruence].
Qed.

Lemma evaluate_total e query response context ground_truth w :
  context <> [] ->
  exists r w', evaluate amb e query response context ground_truth w = (Ok r, w').
Proof.
  intros Hne. destruct e; cbn [evaluate].
  - unfold evaluate_retrieval_accuracy, bind.
    destruct (relevance_loop_total context [] w) as [scores [w1 [Hrun _]]].
    rewrite Hrun. unfold time_now, ret. eauto.
  - unfold evaluate_generation_quality, bind, np_random_uniform, time_now, ret.
    eauto.
  - unfold evaluate_faithfulness, bind, np_random_uniform, time_now, ret.
    eauto.
  - unfold evaluate_context_relevance, bind.
    destruct (relevance_loop_total context [] w) as [scores [w1 [Hrun Hlen]]].
    rewrite Hrun. cbn [app].
    pose proof (nonempty_scores _ _ Hlen Hne) as Hscores.
    destruct scores as [|x scores]; [congruence|].
    unfold lift, py_min, py_max, time_now, ret. eauto.
  - unfold evaluate_answer_relevance, bind, np_random_uniform, time_now, ret.
    eauto.
Qed.

Lemma evaluate_each_spec query response context ground_truth :
  context <> [] ->
  forall items results w,
    NoDup (dict_keys results ++ map fst items) ->
    exists fresh w',
      evaluate_each amb items query response context ground_truth results w
        = (Ok (results ++ fresh), w') /\
      dict_keys fresh = map fst items.
Proof.
  intros Hne. induction items as [|[k e] items IH]; intros results w Hnd; simpl.
  - exists [], w. rewrite app_nil_r. auto.
  - unfold bind at 1.
    destruct (evaluate_total e query response context ground_truth w Hne)
      as [r [w1 Hrun]].
    rewrite Hrun.
    assert (Hfresh : ~ In k (dict_keys results)).
    { fresh_key Hnd. }
    rewrite dict_set_fresh by assumption.
    destruct (IH (results ++ [(k, r)]) w1) as [fresh [w' [Hrest Hkeys]]].
    { unfold dict_keys. rewrite map_app, <- app_assoc. exact Hnd. }
    exists ((k, r) :: fresh), w'. rewrite Hrest, <- app_assoc.
    split; [reflexivity|]. simpl. now rewrite Hkeys.
Qed.

Lemma collect_scores_aligned (items : dict EvaluationResult) :
  forall done todo,
    NoDup (dict_keys (done ++ todo)) ->
    dict_keys todo = dict_keys items ->
    collect_scores items (done ++ todo)
    = Ok (done ++ append_scores todo items).
Proof.
  induction items as [|[k r] items IH]; intros done todo Hnd Hkeys.
  - destruct todo; [|discriminate]. reflexivity.
  - destruct todo as [|[k' scores] todo]; [discriminate|].
    simpl in Hkeys. injection Hkeys as -> Hkeys.
    assert (Hfresh : ~ In k (dict_keys done)).
    { fresh_key Hnd. }
    cbn [collect_scores append_scores]. unfold dict_item.
    rewrite dict_get_middle, dict_set_middle by assumption.
    specialize (IH (done ++ [(k, scores ++ [score r])]) todo).
    rewrite <- !app_assoc in IH. simpl in IH. apply IH; [|exact Hkeys].
    unfold dict_keys in *. rewrite map_app in *. exact Hnd.
Qed.

Lemma append_scores_keys (items : dict EvaluationResult) : forall todo,
  dict_keys todo = dict_keys items ->
  dict_keys (append_scores todo items) = dict_keys todo /\
  Forall (fun entry => snd entry <> []) (append_scores todo items).
Proof.
  induction items as [|[k r] items IH]; intros [|[k' scores] todo] Hkeys;
    try discriminate; simpl.
  - split; [reflexivity | constructor].
  - simpl in Hkeys. injection Hkeys as -> Hkeys.
    destruct (IH todo Hkeys) as [Hk Hne]. split; [now rewrite Hk|].
    constructor; [|exact Hne]. simpl. intros Happ.
    apply (f_equal (@List.length float)) in Happ.
    rewrite length_app in Happ. simpl in Happ. lia.
Qed.

Lemma empty_scores_from (keys : list string) : forall d,
  NoDup (dict_keys d ++ keys) ->
  fold_left (fun d metric => dict_set metric ([] : list float) d) keys d
  = d ++ map (fun k => (k, [])) keys.
Proof.
  induction keys as [|k keys IH]; intros d Hnd; simpl.
  - now rewrite app_nil_r.
  - assert (Hfresh : ~ In k (dict_keys d)).
    { fresh_key Hnd. }
    rewrite dict_set_fresh by assumption. rewrite IH.
    + now rewrite <- app_assoc.
    + unfold dict_keys. rewrite map_app, <- app_assoc. exact Hnd.
Qed.

Lemma empty_scores_keys (keys : list string) :
  NoDup keys -> dict_keys (empty_scores keys) = keys.
Proof.
  intros Hnd. unfold empty_scores. rewrite empty_scores_from by exact Hnd.
  unfold dict_keys. simpl. rewrite map_map. simpl. apply map_id.
Qed.

Lemma empty_scores_head (k : string) (keys : list string) :
  exists rest, empty_scores (k :: keys) = (k, []) :: rest.
Proof.
  unfold empty_scores. simpl.
  generalize (@nil (string * list float)).
  induction keys as [|k' keys IH]; intros rest; simpl; [eauto|].
  destruct (String.eqb_spec k' k) as [Heq|_].
  - subst k'. apply IH.
  - apply IH.
Qed.

Lemma test_cases_loop_spec (self : framework) (total : Z) :
  NoDup (dict_keys (evaluators self)) ->
  forall test_cases i all_results metric_scores w,
    Forall has_context test_cases ->
    dict_keys metric_scores = dict_keys (evaluators self) ->
    exists all_results' metric_scores' w',
      test_cases_loop amb self total test_cases i all_results metric_scores w
        = (Ok (all_results', metric_scores'), w') /\
      dict_keys metric_scores' = dict_keys (evaluators self) /\
      (test_cases <> [] \/ Forall (fun entry => snd entry <> []) metric_scores ->
       Forall (fun entry => snd entry <> []) metric_scores').
Proof.
  intros Hnd test_cases.
  induction test_cases as [|tc rest IH];
    intros i all_results metric_scores w Hctx Hkeys.
  - exists all_results, metric_scores, w. split; [reflexivity|].
    split; [exact Hkeys|]. intros [Hne | Hall]; [congruence | exact Hall].
  - inversion Hctx as [|? ? Htc Hrest]; subst.
    cbn [test_cases_loop]. unfold bind at 1. unfold print at 1.
    unfold bind at 1. unfold evaluate_single_query.
    match goal with
    | |- context [evaluate_each amb _ _ _ _ _ [] ?w1] =>
        destruct (evaluate_each_spec (tc_query tc) (tc_response tc)
                    (tc_context tc) (tc_ground_truth tc) Htc
                    (evaluators self) [] w1 Hnd)
          as [results [w2 [Hrun Hresults]]]
    end.
    rewrite Hrun. cbn [app]. unfold bind at 1, lift at 1.
    pose proof (collect_scores_aligned results [] metric_scores) as Hcollect.
    cbn [app] in Hcollect. rewrite Hcollect.
    + destruct (append_scores_keys results metric_scores) as [Hk Hne].
      { now rewrite Hkeys. }
      match goal with
      | |- context [test_cases_loop amb self total rest ?j ?a ?m ?w3] =>
          destruct (IH j a m w3 Hrest) as [a' [m' [w' [Hloop [Hk' Hne']]]]]
      end.
      { now rewrite Hk. }
      exists a', m', w'. split; [exact Hloop|]. split; [exact Hk'|].
      intros _. apply Hne'. now right.
    + now rewrite Hkeys.
    + now rewrite Hkeys.
Qed.

(** What a run that returns went through. *)
Lemma evaluate_test_set_returns (self self' : framework) test_cases w w'
    (summary : evaluation_summary) :
  evaluate_test_set amb np_sqrt self test_cases w = (Ok (self', summary), w') ->
  exists aggregate_results means,
    NoDup (dict_keys aggregate_results) /\
    means_of (dict_keys aggregate_results) aggregate_results = Ok means /\
    overall_score summary = np_mean means /\
    metric_aggregates summary = aggregate_results /\
    test_set_size summary = len test_cases /\
    self' = add_history self summary.
Proof.
  unfold evaluate_test_set. unfold bind at 1. unfold print at 1.
  unfold bind at 1.
  destruct (test_cases_loop _ _ _ _ _ _ _ _) as [[[all_results ms]|e] w1];
    [|discriminate].
  unfold bind at 1, lift at 1.
  destruct (aggregate_loop np_sqrt ms []) as [agg|e] eqn:Hagg; [|discriminate].
  unfold bind at 1, lift at 1.
  destruct (means_of (dict_keys agg) agg) as [means|e] eqn:Hmeans;
    [|discriminate].
  unfold bind, time_now, print, ret. intros [= <- <- _].
  exists agg, means. repeat split; try assumption.
  eapply aggregate_loop_nodup; [exact Hagg | constructor].
Qed.

Lemma aggregate_loop_keys (items : dict (list float)) : forall acc res,
  aggregate_loop np_sqrt items acc = Ok res ->
  NoDup (dict_keys acc ++ dict_keys items) ->
  dict_keys res = dict_keys acc ++ dict_keys items.
Proof.
  induction items as [|[k scores] items IH]; intros acc res; simpl.
  - intros [= <-] _. now rewrite app_nil_r.
  - destruct (np_min scores); [|discriminate].
    destruct (np_max scores); [|discriminate].
    intros Hloop Hnd.
    assert (Hfresh : ~ In k (dict_keys acc)).
    { fresh_key Hnd. }
    rewrite dict_set_fresh in Hloop by assumption.
    apply IH in Hloop.
    + rewrite Hloop. unfold dict_keys. rewrite map_app, <- app_assoc.
      reflexivity.
    + unfold dict_keys in *. rewrite map_app, <- app_assoc. exact Hnd.
Qed.

Lemma evaluate_test_set_runs (self : framework) test_cases w :
  NoDup (dict_keys (evaluators self)) ->
  test_cases <> [] ->
  Forall has_context test_cases ->
  exists self' summary w',
    evaluate_test_set amb np_sqrt self test_cases w
      = (Ok (self', summary), w') /\
    dict_keys (metric_aggregates summary) = dict_keys (evaluators self).
Proof.
  intros Hnd Hne Hctx. unfold evaluate_test_set.
  unfold bind at 1. unfold print at 1. unfold bind at 1.
  match goal with
  | |- context [test_cases_loop amb self ?t test_cases ?i ?a ?m ?w1] =>
      destruct (test_cases_loop_spec self t Hnd test_cases i a m w1 Hctx)
        as [all_results [ms [w2 [Hloop [Hkeys Hfull]]]]]
  end.
  { apply empty_scores_keys. exact Hnd. }
  rewrite Hloop. unfold bind at 1, lift at 1.
  destruct (aggregate_loop_total ms (Hfull (or_introl Hne)) [])
    as [agg Hagg].
  rewrite Hagg. unfold bind at 1, lift at 1.
  assert (Hagg_nd : NoDup (dict_keys agg))
    by (eapply aggregate_loop_nodup; [exact Hagg | constructor]).
  rewrite means_of_all by exact Hagg_nd.
  unfold bind, time_now, print, ret.
  eexists. eexists. eexists. split; [reflexivity|].
  cbn [metric_aggregates].
  rewrite (aggregate_loop_keys ms [] agg Hagg); [exact Hkeys|].
  simpl. now rewrite Hkeys.
Qed.

End Aggregator.

(** C3.  For a test set that is not empty, the [overall_score] of the
    summary [evaluate_test_set] returns is [np.mean] of the list of the
    [mean] entries of the summary's per-metric aggregates; when these
    means are numbers it is their sum divided by their count, each metric
    counting once.  A summary with one aggregate per evaluator is returned
    whenever every test case has a context that is not empty. *)
Theorem overall_score_mean_of_means (amb : ambient Q)
    (np_sqrt : float -> float) (self : framework)
    (test_cases : list test_case) (w : world) :
  test_cases <> [] ->
  (forall self' summary w',
     evaluate_test_set amb np_sqrt self test_cases w
       = (Ok (self', summary), w') ->
     overall_score summary
     = np_mean (metric_means (metric_aggregates summary)) /\
     (forall means,
        metric_means (metric_aggregates summary) = map Num means ->
        means <> [] ->
        exists overall,
          overall_score summary = Num overall /\
          Qeq overall (Qsum means / inject_Z (len means)))) /\
  (NoDup (dict_keys (evaluators self)) ->
   Forall has_context test_cases ->
   exists self' summary w',
     evaluate_test_set amb np_sqrt self test_cases w
       = (Ok (self', summary), w') /\
     dict_keys (metric_aggregates summary) = dict_keys (evaluators self)).
Proof.
  intros Hne. split.
  - intros self' summary w' Hrun.
    destruct (evaluate_test_set_returns _ _ _ _ _ _ _ _ Hrun)
      as [agg [means [Hnd [Hmeans [Hoverall [Hagg _]]]]]].
    rewrite means_of_all in Hmeans by exact Hnd.
    assert (Hmean : overall_score summary
                    = np_mean (metric_means (metric_aggregates summary)))
      by (rewrite Hoverall, Hagg; congruence).
    split; [exact Hmean|].
    intros qs Hqs Hqne. rewrite Hmean, Hqs. apply np_mean_numbers. exact Hqne.
  - intros Hnd Hctx. apply evaluate_test_set_runs; assumption.
Qed.

Lemma overall_score_mean_of_means_witness :
  (forall self' summary w',
     evaluate_test_set halves no_sqrt new_framework
       [sample_case ["RAG combines retrieval systems with generative models."]]
       world0 = (Ok (self', summary), w') ->
     overall_score summary
     = np_mean (metric_means (metric_aggregates summary)) /\
     (forall means,
        metric_means (metric_aggregates summary) = map Num means ->
        means <> [] ->
        exists overall,
          overall_score summary = Num overall /\
          Qeq overall (Qsum means / inject_Z (len means)))) /\
  (NoDup (dict_keys (evaluators new_framework)) ->
   Forall has_context
     [sample_case ["RAG combines retrieval systems with generative models."]] ->
   exists self' summary w',
     evaluate_test_set halves no_sqrt new_framework
       [sample_case ["RAG combines retrieval systems with generative models."]]
       world0 = (Ok (self', summary), w') /\
     dict_keys (metric_aggregates summary)
     = dict_keys (evaluators new_framework)).
Proof.
  apply (overall_score_mean_of_means halves no_sqrt new_framework
           [sample_case ["RAG combines retrieval systems with generative models."]]
           world0).
  discriminate.
Defined.

(** One test case, every draw one half: the five means and their mean. *)
Example one_case_overall_score :
  match fst (evaluate_test_set halves no_sqrt new_framework
               [sample_case ["RAG combines retrieval systems with generative models."]]
               world0) with
  | Ok (_, summary) =>
      match overall_score summary, metric_means (metric_aggregates summary) with
      | Num overall, [Num m1; Num m2; Num m3; Num m4; Num m5] =>
          Qeq m1 (31 # 40) /\ Qeq m2 (137 # 160) /\ Qeq m3 (171 # 200) /\
          Qeq m4 (31 # 40) /\ Qeq m5 (251 # 300) /\
          Qeq overall ((m1 + m2 + m3 + m4 + m5) / 5) /\
          Qeq overall (1967 # 2400)
      | _, _ => False
      end
  | Raise _ => False
  end.
Proof. vm_compute. repeat split; reflexivity. Qed.

(** C8, as the code has it.  With no test case every metric's score list
    stays empty and the first aggregate stops at [np.min] of an empty
    list: [evaluate_test_set] raises a ValueError, returns no summary and
    adds nothing to the history. *)
Theorem evaluate_test_set_no_cases (amb : ambient Q)
    (np_sqrt : float -> float) (self : framework) (w : world) :
  evaluators self <> [] ->
  fst (evaluate_test_set amb np_sqrt self [] w)
  = Raise (ValueError
      "zero-size array to reduction operation minimum which has no identity").
Proof.
  intros Hne. unfold evaluate_test_set.
  destruct (evaluators self) as [|[k e] rest]; [congruence|].
  cbn [dict_keys map fst].
  destruct (empty_scores_head k (map fst rest)) as [tail Hhead].
  rewrite Hhead. reflexivity.
Qed.

Lemma evaluate_test_set_no_cases_witness :
  fst (evaluate_test_set halves no_sqrt new_framework [] world0)
  = Raise (ValueError
      "zero-size array to reduction operation minimum which has no identity").
Proof.
  apply (evaluate_test_set_no_cases halves no_sqrt new_framework world0).
  discriminate.
Defined.

(** C8 as stated fails: on an empty list of test cases the framework with
    its five evaluators returns no summary but raises. *)
Lemma evaluate_test_set_empty_raises :
  raises_class
    (fst (evaluate_test_set halves no_sqrt new_framework [] world0))
    "ValueError" /\
  (forall self' summary,
     fst (evaluate_test_set halves no_sqrt new_framework [] world0)
     <> Ok (self', summary)).
Proof.
  split.
  - eexists. split; [vm_compute; reflexivity | reflexivity].
  - intros self' summary H. vm_compute in H. discriminate.
Qed.

(** *** The aggregator, further *)

(** The score test case [ir] got for metric [k]. *)
Definition metric_score (k : string) (ir : individual_result) : float :=
  match dict_get k (ir_results ir) with
  | Some r => score r
  | None => NaN
  end.

Definition scores_of (k : string) (irs : list individual_result)
    : list float :=
  map (metric_score k) irs.

(** The aggregate of a list of scores that is not empty. *)
Definition summarise (np_sqrt : float -> float) (scores : list float)
    : aggregate :=
  {| agg_mean := np_mean scores;
     agg_std := np_std np_sqrt scores;
     agg_min := match scores with
                | x :: rest => fold_left np_minimum rest x
                | [] => NaN
                end;
     agg_max := match scores with
                | x :: rest => fold_left np_maximum rest x
                | [] => NaN
                end;
     agg_median := np_median scores |}.

(** [a <= b] for two numbers. *)
Definition fle (a b : float) : Prop :=
  match a, b with
  | Num x, Num y => (x <= y)%Q
  | _, _ => False
  end.

(** The score of a returned result. *)
Definition score_of (r : result EvaluationResult) : result float :=
  match r with
  | Ok res => Ok (score res)
  | Raise e => Raise e
  end.

(** The name an evaluator gives its metric. *)
Definition evaluator_name (e : evaluator) : string :=
  match e with
  | RetrievalAccuracyEvaluator => "retrieval_accuracy"
  | GenerationQualityEvaluator => "generation_quality"
  | FaithfulnessEvaluator => "faithfulness"
  | ContextRelevanceEvaluator => "context_relevance"
  | AnswerRelevanceEvaluator => "answer_relevance"
  end.

(** A framework as [__init__] makes it, whatever its history. *)
Definition standard (self : framework) : Prop :=
  evaluators self = evaluators new_framework.

Section Trace.

Variable amb : ambient Q.
Variable np_sqrt : float -> float.

(** The relevance loop draws one number per context and nothing else
    of the contexts matters. *)
Lemma relevance_loop_explicit (context : list string) : forall acc w,
  relevance_loop amb context acc w
  = (Ok (acc ++ map (fun j => Num ((6 # 10) + ((95 # 100) - (6 # 10))
                                    * random_sample amb (rng_pos w + j)%nat)%Q)
                  (seq 0 (List.length context))),
     {| stdout := stdout w;
        rng_pos := (rng_pos w + List.length context)%nat;
        clock_reads := clock_reads w |}).
Proof.
  induction context as [|ctx rest IH]; intros acc w.
  - simpl. unfold ret. rewrite app_nil_r, Nat.add_0_r.
    destruct w; reflexivity.
  - cbn [relevance_loop List.length seq map]. unfold bind at 1.
    unfold np_random_uniform at 1. rewrite IH.
    cbn [stdout rng_pos clock_reads].
    rewrite <- app_assoc, Nat.add_0_r. cbn [app]. f_equal.
    + f_equal. f_equal. f_equal.
      rewrite <- seq_shift, map_map. apply map_ext. intros j.
      now rewrite Nat.add_succ_r.
    + f_equal. lia.
Qed.

Lemma evaluate_name e query response context ground_truth w r w' :
  evaluate amb e query response context ground_truth w = (Ok r, w') ->
  metric_name r = evaluator_name e.
Proof.
  destruct e; cbn [evaluate evaluator_name].
  - unfold evaluate_retrieval_accuracy, bind.
    rewrite relevance_loop_explicit. unfold time_now, ret.
    now intros [= <- _].
  - unfold evaluate_generation_quality, bind, np_random_uniform, time_now, ret.
    now intros [= <- _].
  - unfold evaluate_faithfulness, bind, np_random_uniform, time_now, ret.
    now intros [= <- _].
  - unfold evaluate_context_relevance, bind.
    rewrite relevance_loop_explicit. unfold lift.
    destruct (py_min _); [|discriminate].
    destruct (py_max _); [|discriminate].
    unfold time_now, ret. now intros [= <- _].
  - unfold evaluate_answer_relevance, bind, np_random_uniform, time_now, ret.
    now intros [= <- _].
Qed.

(** X14.  The placeholder scores look at nothing but the random source: two
    calls of the same evaluator with contexts of the same length, started
    with the random source in the same state, give the same score, or the
    same exception, whatever the queries, responses, context texts and
    ground truths are. *)
Theorem evaluate_ignores_inputs (e : evaluator)
    (query query' response response' : string)
    (context context' : list string)
    (ground_truth ground_truth' : option string) (w w' : world) :
  List.length context = List.length context' ->
  rng_pos w = rng_pos w' ->
  score_of (fst (evaluate amb e query response context ground_truth w))
  = score_of (fst (evaluate amb e query' response' context' ground_truth' w')).
Proof.
  intros Hlen Hrng. destruct e; cbn [evaluate].
  - unfold evaluate_retrieval_accuracy, bind.
    rewrite !relevance_loop_explicit, Hlen, Hrng. reflexivity.
  - unfold evaluate_generation_quality, bind, np_random_uniform, time_now, ret.
    cbn. now rewrite Hrng.
  - unfold evaluate_faithfulness, bind, np_random_uniform, time_now, ret.
    cbn. now rewrite Hrng.
  - unfold evaluate_context_relevance, bind.
    rewrite !relevance_loop_explicit, Hlen, Hrng. cbn [app]. unfold lift.
    destruct (py_min _); [|reflexivity].
    destruct (py_max _); reflexivity.
  - unfold evaluate_answer_relevance, bind, np_random_uniform, time_now, ret.
    cbn. now rewrite Hrng.
Qed.

End Trace.

Lemma evaluate_ignores_inputs_witness :
  score_of (fst (evaluate halves FaithfulnessEvaluator "What is RAG?"
                   "RAG combines retrieval with generation."
                   ["RAG combines retrieval systems."] None world0))
  = score_of (fst (evaluate halves FaithfulnessEvaluator "Who wrote Hamlet?"
                     "Nobody knows." ["Vector databases store embeddings."]
                     (Some "Shakespeare") world0)).
Proof.
  apply (evaluate_ignores_inputs halves FaithfulnessEvaluator); reflexivity.
Defined.

Section Summary.

Variable amb : ambient Q.
Variable np_sqrt : float -> float.

Lemma dict_get_in {V} (d : dict V) k v :
  NoDup (dict_keys d) -> In (k, v) d -> dict_get k d = Some v.
Proof.
  induction d as [|[k0 v0] d IH]; simpl; intros Hnd Hin; [tauto|].
  inversion Hnd as [|? ? Hk0 Hd]; subst.
  destruct Hin as [[= -> ->] | Hin].
  - now rewrite String.eqb_refl.
  - destruct (String.eqb_spec k k0) as [Heq|_]; [|auto].
    subst k0. exfalso. apply Hk0. unfold dict_keys.
    apply in_map_iff. exists (k, v). auto.
Qed.

Lemma append_scores_get (items : dict EvaluationResult) :
  forall (todo : dict (list float)) k l,
    dict_keys todo = dict_keys items ->
    dict_get k todo = Some l ->
    exists r, dict_get k items = Some r /\
              dict_get k (append_scores todo items) = Some (l ++ [score r]).
Proof.
  induction items as [|[k0 r0] items IH]; intros [|[k1 l1] todo] k l Hkeys;
    try discriminate; simpl.
  simpl in Hkeys. injection Hkeys as -> Hkeys.
  destruct (String.eqb k k0).
  - intros [= ->]. eauto.
  - intros Hget. exact (IH _ _ _ Hkeys Hget).
Qed.

Lemma evaluate_each_names query response context ground_truth :
  forall items results w results' w',
    evaluate_each amb items query response context ground_truth results w
      = (Ok results', w') ->
    Forall (fun entry => metric_name (snd entry) = fst entry) results ->
    Forall (fun entry => evaluator_name (snd entry) = fst entry) items ->
    Forall (fun entry => metric_name (snd entry) = fst entry) results'.
Proof.
  induction items as [|[k e] items IH]; intros results w results' w'; simpl.
  - unfold ret. intros [= <- _]. auto.
  - unfold bind at 1.
    destruct (evaluate amb e query response context ground_truth w)
      as [[r|err] w1] eqn:Hrun; [|discriminate].
    intros Hrest Hres Hitems. apply Forall_cons_iff in Hitems.
    destruct Hitems as [Hk Hitems'].
    simpl in Hk. eapply IH; [exact Hrest | | exact Hitems'].
    pose proof (evaluate_name _ _ _ _ _ _ _ _ _ Hrun) as Hname.
    clear - Hres Hname Hk.
    induction results as [|[k0 r0] results IHr]; simpl.
    + repeat constructor. simpl. congruence.
    + apply Forall_cons_iff in Hres. destruct Hres as [Hhead Htail].
      destruct (String.eqb_spec k k0) as [Heq|_].
      * constructor; [simpl; congruence | assumption].
      * constructor; [assumption | auto].
Qed.

(** What the loop over the test cases leaves behind. *)
Lemma test_cases_loop_trace (self : framework) (total : Z) :
  NoDup (dict_keys (evaluators self)) ->
  forall test_cases i all_results metric_scores w,
    Forall has_context test_cases ->
    dict_keys metric_scores = dict_keys (evaluators self) ->
    exists fresh metric_scores' w',
      test_cases_loop amb self total test_cases i all_results metric_scores w
        = (Ok (all_results ++ fresh, metric_scores'), w') /\
      map test_case_id fresh
        = map (fun j => i + Z.of_nat j) (seq 0 (List.length test_cases)) /\
      map ir_query fresh = map tc_query test_cases /\
      Forall (fun ir => dict_keys (ir_results ir) = dict_keys (evaluators self))
        fresh /\
      dict_keys metric_scores' = dict_keys (evaluators self) /\
      (forall k l, dict_get k metric_scores = Some l ->
                   dict_get k metric_scores' = Some (l ++ scores_of k fresh)).
Proof.
  intros Hnd test_cases.
  induction test_cases as [|tc rest IH];
    intros i all_results metric_scores w Hctx Hkeys.
  - exists [], metric_scores, w. rewrite app_nil_r.
    split; [reflexivity|]. repeat split; auto.
    intros k l Hget. now rewrite app_nil_r.
  - inversion Hctx as [|? ? Htc Hrest]; subst.
    cbn [test_cases_loop]. unfold bind at 1. unfold print at 1.
    unfold bind at 1. unfold evaluate_single_query.
    match goal with
    | |- context [evaluate_each amb _ _ _ _ _ [] ?w1] =>
        destruct (evaluate_each_spec amb (tc_query tc) (tc_response tc)
                    (tc_context tc) (tc_ground_truth tc) Htc
                    (evaluators self) [] w1 Hnd)
          as [results [w2 [Hrun Hresults]]]
    end.
    rewrite Hrun. cbn [app]. unfold bind at 1, lift at 1.
    pose proof (collect_scores_aligned results [] metric_scores) as Hcollect.
    cbn [app] in Hcollect. rewrite Hcollect; try (now rewrite Hkeys).
    destruct (append_scores_keys results metric_scores) as [Hk _].
    { now rewrite Hkeys. }
    match goal with
    | |- context [test_cases_loop amb self total rest ?j ?a ?m ?w3] =>
        destruct (IH j a m w3 Hrest)
          as [fresh [m' [w' [Hloop [Hids [Hqs [Hrk [Hk' Hget']]]]]]]]
    end.
    { now rewrite Hk. }
    eexists (_ :: fresh), m', w'. rewrite <- app_assoc in Hloop.
    split; [exact Hloop|]. split; [|split; [|split; [|split]]].
    + cbn [map List.length seq test_case_id]. rewrite Hids.
      f_equal; [lia|]. rewrite <- seq_shift, map_map.
      apply map_ext. intros j. lia.
    + cbn [map ir_query]. now rewrite Hqs.
    + constructor; [exact Hresults | exact Hrk].
    + exact Hk'.
    + intros k l Hget.
      destruct (append_scores_get results metric_scores k l) as [r [Hr Happ]];
        [now rewrite Hkeys | exact Hget |].
      rewrite (Hget' _ _ Happ), <- app_assoc. f_equal.
      unfold scores_of. cbn [map]. unfold metric_score at 2.
      cbn [ir_results]. now rewrite Hr.
Qed.

Lemma aggregate_loop_map (items : dict (list float)) : forall acc,
  NoDup (dict_keys acc ++ dict_keys items) ->
  Forall (fun entry => snd entry <> []) items ->
  aggregate_loop np_sqrt items acc
  = Ok (acc ++ map (fun entry => (fst entry, summarise np_sqrt (snd entry)))
                 items).
Proof.
  induction items as [|[k scores] items IH]; intros acc Hnd Hne.
  - simpl. now rewrite app_nil_r.
  - inversion Hne as [|? ? Hs Hrest]; subst. simpl in Hs.
    destruct scores as [|x scores]; [congruence|].
    assert (Hfresh : ~ In k (dict_keys acc)).
    { fresh_key Hnd. }
    cbn [aggregate_loop np_min np_max]. rewrite dict_set_fresh by assumption.
    rewrite IH; [|unfold dict_keys in *; rewrite map_app, <- app_assoc;
                  exact Hnd | exact Hrest].
    rewrite <- app_assoc. reflexivity.
Qed.

End Summary.

Section Reports.

Variable amb : ambient Q.
Variable np_sqrt : float -> float.

Lemma dict_of_keys {V} (d : dict V) (f : string -> V) :
  (forall k v, In (k, v) d -> v = f k) ->
  d = map (fun k => (k, f k)) (dict_keys d).
Proof.
  induction d as [|[k v] d IH]; intros Hd; simpl; [reflexivity|].
  rewrite (Hd k v) by (now left). f_equal.
  apply IH. intros k' v' Hin. apply Hd. now right.
Qed.

Lemma empty_scores_get (keys : list string) k :
  NoDup keys -> In k keys -> dict_get k (empty_scores keys) = Some [].
Proof.
  intros Hnd Hin. unfold empty_scores.
  rewrite empty_scores_from by exact Hnd. cbn [app].
  apply dict_get_in.
  - unfold dict_keys. rewrite map_map. cbn [fst]. now rewrite map_id.
  - apply in_map_iff. exists k. auto.
Qed.

(** A run on test cases with contexts, step by step. *)
Lemma evaluate_test_set_trace (self : framework) test_cases w :
  NoDup (dict_keys (evaluators self)) ->
  test_cases <> [] ->
  Forall has_context test_cases ->
  exists irs now w',
    evaluate_test_set amb np_sqrt self test_cases w
    = (Ok (add_history self
             {| overall_score :=
                  np_mean (map (fun k => np_mean (scores_of k irs))
                             (dict_keys (evaluators self)));
                metric_aggregates :=
                  map (fun k => (k, summarise np_sqrt (scores_of k irs)))
                      (dict_keys (evaluators self));
                individual_results := irs;
                test_set_size := len test_cases;
                evaluation_timestamp := now |},
           {| overall_score :=
                np_mean (map (fun k => np_mean (scores_of k irs))
                           (dict_keys (evaluators self)));
              metric_aggregates :=
                map (fun k => (k, summarise np_sqrt (scores_of k irs)))
                    (dict_keys (evaluators self));
              individual_results := irs;
              test_set_size := len test_cases;
              evaluation_timestamp := now |}), w') /\
    map test_case_id irs
      = map Z.of_nat (seq 0 (List.length test_cases)) /\
    map ir_query irs = map tc_query test_cases /\
    Forall (fun ir => dict_keys (ir_results ir) = dict_keys (evaluators self))
      irs.
Proof.
  intros Hnd Hne Hctx. unfold evaluate_test_set.
  unfold bind at 1. unfold print at 1. unfold bind at 1.
  set (keys := dict_keys (evaluators self)) in *.
  match goal with
  | |- context [test_cases_loop amb self ?t test_cases ?i ?a ?m ?w1] =>
      destruct (test_cases_loop_trace amb self t Hnd test_cases i a m w1 Hctx)
        as [irs [ms [w2 [Hloop [Hids [Hqs [Hrk [Hkeys Hget]]]]]]]]
  end.
  { apply empty_scores_keys. exact Hnd. }
  cbn [app] in Hloop. rewrite Hloop. fold keys in Hkeys.
  assert (Hms : ms = map (fun k => (k, scores_of k irs)) keys).
  { rewrite <- Hkeys. apply dict_of_keys. intros k l Hin.
    assert (Hk : In k keys).
    { rewrite <- Hkeys. unfold dict_keys.
      apply in_map_iff. exists (k, l). auto. }
    pose proof (Hget k [] (empty_scores_get keys k Hnd Hk)) as Hl.
    cbn [app] in Hl.
    assert (Hl2 : dict_get k ms = Some l)
      by (apply dict_get_in; [now rewrite Hkeys | exact Hin]).
    congruence. }
  assert (Hlen : List.length irs = List.length test_cases).
  { apply (f_equal (@List.length Z)) in Hids.
    now rewrite !length_map, length_seq in Hids. }
  unfold bind at 1, lift at 1. subst ms.
  rewrite aggregate_loop_map.
  2:{ cbn [dict_keys map app]. unfold dict_keys. rewrite map_map. cbn [fst].
      now rewrite map_id. }
  2:{ apply Forall_forall. intros e He. apply in_map_iff in He.
      destruct He as [k [<- _]]. cbn [snd]. unfold scores_of.
      intros Hnil. apply (f_equal (@List.length float)) in Hnil.
      rewrite length_map, Hlen in Hnil. destruct test_cases; [congruence|].
      discriminate. }
  cbn [app]. rewrite map_map. cbn [fst snd].
  unfold bind at 1, lift at 1.
  rewrite means_of_all.
  2:{ unfold dict_keys. rewrite map_map. cbn [fst]. now rewrite map_id. }
  unfold metric_means. rewrite map_map. cbn [snd agg_mean summarise].
  unfold bind, time_now, print, ret.
  eexists irs, _, _. split; [reflexivity|].
  split; [|split; [exact Hqs | exact Hrk]].
  rewrite Hids. apply map_ext. intros j. lia.
Qed.

(** X16.  What a summary records: the size of the test set, one individual
    result per test case, numbered from 0 in the order of the test cases,
    with the case's query and one result per evaluator; the run appends
    the summary to the history and changes nothing else of the
    framework. *)
Theorem evaluate_test_set_records (self : framework)
    (test_cases : list test_case) (w : world) :
  NoDup (dict_keys (evaluators self)) ->
  test_cases <> [] ->
  Forall has_context test_cases ->
  exists self' summary w',
    evaluate_test_set amb np_sqrt self test_cases w
      = (Ok (self', summary), w') /\
    test_set_size summary = len test_cases /\
    map test_case_id (individual_results summary)
      = map Z.of_nat (seq 0 (List.length test_cases)) /\
    map ir_query (individual_results summary) = map tc_query test_cases /\
    Forall (fun ir => dict_keys (ir_results ir) = dict_keys (evaluators self))
      (individual_results summary) /\
    evaluation_history self' = evaluation_history self ++ [summary] /\
    evaluators self' = evaluators self.
Proof.
  intros Hnd Hne Hctx.
  destruct (evaluate_test_set_trace self test_cases w Hnd Hne Hctx)
    as [irs [now [w' [Hrun [Hids [Hqs Hrk]]]]]].
  eexists _, _, w'. split; [exact Hrun|].
  cbn [test_set_size individual_results evaluation_history evaluators
       add_history].
  repeat split; assumption.
Qed.

(** X17.  The statistics of a summary are those of its individual results: the
    aggregate of each metric is the mean, standard deviation, minimum,
    maximum and median of the scores the individual results hold under
    that metric, in the order of the test cases, and the overall score is
    the mean of these means. *)
Theorem evaluate_test_set_statistics (self : framework)
    (test_cases : list test_case) (w : world) :
  NoDup (dict_keys (evaluators self)) ->
  test_cases <> [] ->
  Forall has_context test_cases ->
  exists self' summary w',
    evaluate_test_set amb np_sqrt self test_cases w
      = (Ok (self', summary), w') /\
    metric_aggregates summary
      = map (fun k => (k, summarise np_sqrt
                            (scores_of k (individual_results summary))))
          (dict_keys (evaluators self)) /\
    overall_score summary
      = np_mean (map (fun k => np_mean
                                 (scores_of k (individual_results summary)))
                   (dict_keys (evaluators self))).
Proof.
  intros Hnd Hne Hctx.
  destruct (evaluate_test_set_trace self test_cases w Hnd Hne Hctx)
    as [irs [now [w' [Hrun _]]]].
  eexists _, _, w'. split; [exact Hrun|].
  cbn [metric_aggregates overall_score individual_results]. split; reflexivity.
Qed.

End Reports.

Definition two_cases : list test_case :=
  [ sample_case ["RAG combines retrieval systems with generative models."];
    sample_case ["Vector databases store embeddings.";
                 "Cosine similarity compares vectors."] ].

Lemma new_framework_keys : NoDup (dict_keys (evaluators new_framework)).
Proof.
  cbn. repeat constructor; simpl; intuition discriminate.
Qed.

Lemma two_cases_context : Forall has_context two_cases.
Proof. repeat constructor; discriminate. Qed.

Lemma evaluate_test_set_records_witness :
  exists self' summary w',
    evaluate_test_set halves no_sqrt new_framework two_cases world0
      = (Ok (self', summary), w') /\
    test_set_size summary = len two_cases /\
    map test_case_id (individual_results summary)
      = map Z.of_nat (seq 0 (List.length two_cases)) /\
    map ir_query (individual_results summary) = map tc_query two_cases /\
    Forall (fun ir => dict_keys (ir_results ir)
                      = dict_keys (evaluators new_framework))
      (individual_results summary) /\
    evaluation_history self' = evaluation_history new_framework ++ [summary] /\
    evaluators self' = evaluators new_framework.
Proof.
  apply (evaluate_test_set_records halves no_sqrt new_framework two_cases world0).
  - exact new_framework_keys.
  - discriminate.
  - exact two_cases_context.
Defined.

Lemma evaluate_test_set_statistics_witness :
  exists self' summary w',
    evaluate_test_set halves no_sqrt new_framework two_cases world0
      = (Ok (self', summary), w') /\
    metric_aggregates summary
      = map (fun k => (k, summarise no_sqrt
                            (scores_of k (individual_results summary))))
          (dict_keys (evaluators new_framework)) /\
    overall_score summary
      = np_mean (map (fun k => np_mean
                                 (scores_of k (individual_results summary)))
                   (dict_keys (evaluators new_framework))).
Proof.
  apply (evaluate_test_set_statistics halves no_sqrt new_framework two_cases
           world0).
  - exact new_framework_keys.
  - discriminate.
  - exact two_cases_context.
Defined.

Section EmptyContext.

Variable amb : ambient Q.
Variable np_sqrt : float -> float.

Lemma evaluate_single_query_empty_context (self : framework)
    query response ground_truth w :
  standard self ->
  fst (evaluate_single_query amb self query response [] ground_truth w)
  = Raise (ValueError "min() arg is an empty sequence").
Proof.
  intros Hstd. unfold evaluate_single_query. rewrite Hstd. reflexivity.
Qed.

Lemma test_cases_loop_empty_context (self : framework) (total : Z) :
  standard self ->
  forall test_cases,
    Exists (fun tc => tc_context tc = []) test_cases ->
    forall i all_results metric_scores w,
      dict_keys metric_scores = dict_keys (evaluators self) ->
      fst (test_cases_loop amb self total test_cases i all_results
             metric_scores w)
      = Raise (ValueError "min() arg is an empty sequence").
Proof.
  intros Hstd test_cases Hex.
  assert (Hnd : NoDup (dict_keys (evaluators self)))
    by (rewrite Hstd; exact new_framework_keys).
  induction test_cases as [|tc rest IH];
    intros i all_results metric_scores w Hkeys; [inversion Hex|].
  cbn [test_cases_loop]. unfold bind at 1. unfold print at 1.
  destruct (tc_context tc) as [|ctx ctxs] eqn:Hctx.
  - apply Rag.fst_bind_raise. now apply evaluate_single_query_empty_context.
  - unfold bind at 1. unfold evaluate_single_query.
    match goal with
    | |- context [evaluate_each amb _ _ _ ?c _ [] ?w1] =>
        destruct (evaluate_each_spec amb (tc_query tc) (tc_response tc)
                    c (tc_ground_truth tc) ltac:(discriminate)
                    (evaluators self) [] w1 Hnd)
          as [results [w2 [Hrun Hresults]]]
    end.
    rewrite Hrun. cbn [app]. unfold bind at 1, lift at 1.
    pose proof (collect_scores_aligned results [] metric_scores) as Hcollect.
    cbn [app] in Hcollect. rewrite Hcollect; try (now rewrite Hkeys).
    apply IH.
    + inversion Hex as [? ? Hhead|]; subst; [congruence | assumption].
    + destruct (append_scores_keys results metric_scores) as [Hk _];
        [now rewrite Hkeys | now rewrite Hk].
Qed.

(** X18.  A test case without context stops the whole run: with the five
    evaluators of the framework, [evaluate_test_set] raises the ValueError
    of [min] on an empty list as soon as one test case has an empty
    context, and returns no summary. *)
Theorem evaluate_test_set_empty_context (self : framework)
    (test_cases : list test_case) (w : world) :
  standard self ->
  Exists (fun tc => tc_context tc = []) test_cases ->
  raises_class (fst (evaluate_test_set amb np_sqrt self test_cases w))
    "ValueError".
Proof.
  intros Hstd Hex.
  exists (ValueError "min() arg is an empty sequence"). split; [|reflexivity].
  unfold evaluate_test_set.
  unfold bind at 1. unfold print at 1.
  apply Rag.fst_bind_raise. apply test_cases_loop_empty_context; try assumption.
  apply empty_scores_keys. rewrite Hstd. exact new_framework_keys.
Qed.

(** X15.  The results of one query carry the names of their metrics: with the
    five evaluators of the framework and a context that is not empty,
    [evaluate_single_query] returns five results under the keys
    retrieval_accuracy, generation_quality, faithfulness,
    context_relevance and answer_relevance, in this order, and the result
    under a key has that key as its [metric_name]. *)
Theorem evaluate_single_query_names (self : framework)
    (query response : string) (context : list string)
    (ground_truth : option string) (w : world) :
  standard self ->
  context <> [] ->
  exists results w',
    evaluate_single_query amb self query response context ground_truth w
      = (Ok results, w') /\
    dict_keys results
      = ["retrieval_accuracy"; "generation_quality"; "faithfulness";
         "context_relevance"; "answer_relevance"] /\
    Forall (fun entry => metric_name (snd entry) = fst entry) results.
Proof.
  intros Hstd Hne. unfold evaluate_single_query.
  destruct (evaluate_each_spec amb query response context ground_truth Hne
              (evaluators self) [] w) as [results [w' [Hrun Hkeys]]].
  { rewrite Hstd. exact new_framework_keys. }
  cbn [app] in Hrun. exists results, w'. split; [exact Hrun|]. split.
  - rewrite Hkeys, Hstd. reflexivity.
  - eapply evaluate_each_names; [exact Hrun | constructor |].
    rewrite Hstd. repeat constructor.
Qed.

End EmptyContext.

Lemma evaluate_test_set_empty_context_witness :
  raises_class
    (fst (evaluate_test_set halves no_sqrt new_framework
            [sample_case ["RAG combines retrieval systems."]; sample_case []]
            world0))
    "ValueError".
Proof.
  apply (evaluate_test_set_empty_context halves no_sqrt new_framework).
  - reflexivity.
  - right. left. reflexivity.
Defined.

Lemma evaluate_single_query_names_witness :
  exists results w',
    evaluate_single_query halves new_framework "What is RAG?"
      "RAG combines retrieval with generation."
      ["RAG combines retrieval systems."] None world0 = (Ok results, w') /\
    dict_keys results
      = ["retrieval_accuracy"; "generation_quality"; "faithfulness";
         "context_relevance"; "answer_relevance"] /\
    Forall (fun entry => metric_name (snd entry) = fst entry) results.
Proof.
  apply (evaluate_single_query_names halves new_framework).
  - reflexivity.
  - discriminate.
Defined.

(** An aggregate inside the unit interval, with its mean between its
    minimum and its maximum. *)
Definition sound_aggregate (a : aggregate) : Prop :=
  in_unit (agg_mean a) /\ in_unit (agg_min a) /\ in_unit (agg_max a) /\
  fle (agg_min a) (agg_mean a) /\ fle (agg_mean a) (agg_max a).

Lemma in_unit_numbers (l : list float) :
  Forall in_unit l ->
  exists qs, l = map Num qs /\ Forall (fun q => 0 <= q <= 1)%Q qs.
Proof.
  induction 1 as [|x l Hx _ [qs [-> Hqs]]].
  - exists []. split; [reflexivity | constructor].
  - destruct x as [q|]; [|contradiction].
    exists (q :: qs). split; [reflexivity | constructor; assumption].
Qed.

Lemma fold_minimum (qs : list Q) : forall x,
  exists m, fold_left np_minimum (map Num qs) (Num x) = Num m /\
            (m <= x)%Q /\ Forall (fun q => m <= q)%Q qs /\
            (m = x \/ In m qs).
Proof.
  induction qs as [|q qs IH]; intros x; cbn [map fold_left].
  - exists x. repeat split; [apply Qle_refl | constructor | now left].
  - unfold np_minimum at 2. cbn [is_nan orb flt].
    destruct (Qle_bool x q) eqn:Hle; cbn [negb].
    + apply Qle_bool_iff in Hle.
      destruct (IH x) as [m [Hm [Hmx [Hall Hin]]]].
      exists m. split; [exact Hm|]. split; [exact Hmx|]. split.
      * constructor; [eapply Qle_trans; eassumption | exact Hall].
      * destruct Hin; [now left | right; now right].
    + assert (Hlt : (q < x)%Q).
      { apply Qnot_le_lt. intros H. apply Qle_bool_iff in H. congruence. }
      destruct (IH q) as [m [Hm [Hmq [Hall Hin]]]].
      exists m. split; [exact Hm|]. split.
      * apply Qlt_le_weak. eapply Qle_lt_trans; eassumption.
      * split; [constructor; assumption|].
        destruct Hin as [-> | Hin]; right; [now left | now right].
Qed.

Lemma fold_maximum (qs : list Q) : forall x,
  exists m, fold_left np_maximum (map Num qs) (Num x) = Num m /\
            (x <= m)%Q /\ Forall (fun q => q <= m)%Q qs /\
            (m = x \/ In m qs).
Proof.
  induction qs as [|q qs IH]; intros x; cbn [map fold_left].
  - exists x. repeat split; [apply Qle_refl | constructor | now left].
  - unfold np_maximum at 2. cbn [is_nan orb flt].
    destruct (Qle_bool q x) eqn:Hle; cbn [negb].
    + apply Qle_bool_iff in Hle.
      destruct (IH x) as [m [Hm [Hmx [Hall Hin]]]].
      exists m. split; [exact Hm|]. split; [exact Hmx|]. split.
      * constructor; [eapply Qle_trans; eassumption | exact Hall].
      * destruct Hin; [now left | right; now right].
    + assert (Hlt : (x < q)%Q).
      { apply Qnot_le_lt. intros H. apply Qle_bool_iff in H. congruence. }
      destruct (IH q) as [m [Hm [Hmq [Hall Hin]]]].
      exists m. split; [exact Hm|]. split.
      * apply Qlt_le_weak. eapply Qlt_le_trans; eassumption.
      * split; [constructor; assumption|].
        destruct Hin as [-> | Hin]; right; [now left | now right].
Qed.

Lemma Qsum_bounds (qs : list Q) (lo hi : Q) :
  Forall (fun q => lo <= q <= hi)%Q qs ->
  (inject_Z (len qs) * lo <= Qsum qs <= inject_Z (len qs) * hi)%Q.
Proof.
  unfold len. induction 1 as [|q qs Hq _ IH].
  - change (inject_Z (Z.of_nat (List.length (@nil Q)))) with (0 # 1)%Q.
    unfold Qsum. simpl. lra.
  - replace (Z.of_nat (List.length (q :: qs)))
      with (Z.of_nat (List.length qs) + 1) by (simpl List.length; lia).
    rewrite inject_Z_plus. change (inject_Z 1) with (1 # 1)%Q.
    unfold Qsum in *. cbn [fold_right].
    set (n := inject_Z (Z.of_nat (List.length qs))) in *.
    set (s := fold_right Qplus (0 # 1)%Q qs) in *. lra.
Qed.

Lemma summarise_sound (np_sqrt : float -> float) (scores : list float) :
  scores <> [] -> Forall in_unit scores ->
  sound_aggregate (summarise np_sqrt scores).
Proof.
  intros Hne Hunit. destruct (in_unit_numbers _ Hunit) as [qs [-> Hqs]].
  destruct qs as [|x qs]; [exfalso; apply Hne; reflexivity|].
  unfold sound_aggregate, summarise. cbn [agg_mean agg_min agg_max map].
  change (Num x :: map Num qs) with (map Num (x :: qs)).
  destruct (np_mean_numbers (x :: qs)) as [mean [-> Hmean]]; [discriminate|].
  destruct (fold_minimum qs x) as [lo [-> [Hlox [Hlo Hlo_in]]]].
  destruct (fold_maximum qs x) as [hi [-> [Hhix [Hhi Hhi_in]]]].
  assert (Hin_unit : forall m, m = x \/ In m qs -> (0 <= m <= 1)%Q).
  { rewrite Forall_forall in Hqs. intros m [-> | Hm]; apply Hqs; simpl; auto. }
  assert (Hn : (0 < inject_Z (len (x :: qs)))%Q).
  { unfold len. simpl List.length.
    change (0 # 1)%Q with (inject_Z 0). rewrite <- Zlt_Qlt. lia. }
  assert (Hbetween : Forall (fun q => lo <= q <= hi)%Q (x :: qs)).
  { constructor; [split; assumption|].
    rewrite Forall_forall in *. intros q Hq. split; auto. }
  pose proof (Qsum_bounds _ _ _ Hbetween) as [Hsum_lo Hsum_hi].
  assert (Hlo_mean : (lo <= mean)%Q).
  { rewrite Hmean. apply Qle_shift_div_l; [exact Hn|].
    rewrite Qmult_comm. exact Hsum_lo. }
  assert (Hmean_hi : (mean <= hi)%Q).
  { rewrite Hmean. apply Qle_shift_div_r; [exact Hn|].
    rewrite Qmult_comm. exact Hsum_hi. }
  pose proof (Hin_unit lo Hlo_in) as [Hlo0 Hlo1].
  pose proof (Hin_unit hi Hhi_in) as [Hhi0 Hhi1].
  cbn [in_unit fle]. repeat split; try assumption.
  - exact (Qle_trans _ _ _ Hlo0 Hlo_mean).
  - exact (Qle_trans _ _ _ Hmean_hi Hhi1).
Qed.

Lemma dict_set_forall {V} (P : string * V -> Prop) k v (d : dict V) :
  P (k, v) -> Forall P d -> Forall P (dict_set k v d).
Proof.
  intros Hv. induction 1 as [|[k0 v0] d Hhead Htail IH]; simpl.
  - repeat constructor. exact Hv.
  - destruct (String.eqb k k0); constructor; assumption.
Qed.

Lemma dict_get_some {V} (d : dict V) k :
  In k (dict_keys d) -> exists v, dict_get k d = Some v /\ In (k, v) d.
Proof.
  induction d as [|[k0 v0] d IH]; simpl; [tauto|].
  destruct (String.eqb_spec k k0) as [Heq|Hne].
  - subst k0. eauto.
  - intros [Heq | Hin]; [congruence|].
    destruct (IH Hin) as [v [Hget Hv]]. eauto.
Qed.

Section UnitScores.

Variable amb : ambient Q.
Variable np_sqrt : float -> float.
Hypothesis draws : unit_draws amb.

Lemma evaluate_unit e query response context ground_truth w r w' :
  context <> [] ->
  evaluate amb e query response context ground_truth w = (Ok r, w') ->
  in_unit (score r).
Proof.
  intros Hne Hrun.
  assert (Hex : exists r0 w0,
             evaluate amb e query response context ground_truth w = (Ok r0, w0)
             /\ in_unit (score r0)).
  { destruct e; cbn [evaluate].
    - now apply retrieval_accuracy_in_unit.
    - now apply generation_quality_in_unit.
    - now apply faithfulness_in_unit.
    - now apply context_relevance_in_unit.
    - now apply answer_relevance_in_unit. }
  destruct Hex as [r0 [w0 [Heq Hunit]]]. rewrite Heq in Hrun.
  injection Hrun as <- _. exact Hunit.
Qed.

Lemma evaluate_each_unit query response context ground_truth :
  context <> [] ->
  forall items results w results' w',
    evaluate_each amb items query response context ground_truth results w
      = (Ok results', w') ->
    Forall (fun entry => in_unit (score (snd entry))) results ->
    Forall (fun entry => in_unit (score (snd entry))) results'.
Proof.
  intros Hne. induction items as [|[k e] items IH];
    intros results w results' w'; simpl.
  - unfold ret. intros [= <- _]. auto.
  - unfold bind at 1.
    destruct (evaluate amb e query response context ground_truth w)
      as [[r|err] w1] eqn:Hrun; [|discriminate].
    intros Hrest Hres. eapply IH; [exact Hrest|].
    apply dict_set_forall; [|exact Hres].
    exact (evaluate_unit _ _ _ _ _ _ _ _ Hne Hrun).
Qed.

Lemma test_cases_loop_unit (self : framework) (total : Z) :
  forall test_cases i all_results metric_scores w all_results' metric_scores' w',
    Forall has_context test_cases ->
    test_cases_loop amb self total test_cases i all_results metric_scores w
      = (Ok (all_results', metric_scores'), w') ->
    Forall (fun ir => Forall (fun entry => in_unit (score (snd entry)))
                        (ir_results ir)) all_results ->
    Forall (fun ir => Forall (fun entry => in_unit (score (snd entry)))
                        (ir_results ir)) all_results'.
Proof.
  induction test_cases as [|tc rest IH];
    intros i all ms w all' ms' w' Hctx.
  - cbn [test_cases_loop]. unfold ret. intros [= <- _ _]. auto.
  - inversion Hctx as [|? ? Htc Hrest]; subst.
    cbn [test_cases_loop]. unfold bind at 1. unfold print at 1.
    unfold bind at 1. unfold evaluate_single_query.
    destruct (evaluate_each _ _ _ _ _ _ _ _) as [[results|err] w1] eqn:Hrun;
      [|discriminate].
    unfold bind at 1, lift at 1.
    destruct (collect_scores results ms) as [ms1|err]; [|discriminate].
    intros Hloop Hall. eapply IH; [exact Hrest | exact Hloop|].
    apply Forall_app. split; [exact Hall|].
    repeat constructor. cbn [ir_results].
    eapply evaluate_each_unit; [exact Htc | exact Hrun | constructor].
Qed.


End UnitScores.


End Eval.
